(** * ServiceRecognizerBase: the speech recognition session core

    A shallow embedding of [ServiceRecognizerBase] (the second source file of
    the repository) and of the few collaborators it drives, followed by the
    properties of the specification that can be settled on it.

    Layout:
    - [Js]        : the JavaScript values and builtins the class relies on
                    (strings, [parseInt], doubles, [Math.max]);
    - data model  : messages, connections, the request session, the class
                    fields, the promise store;
    - [Prog]      : a small command monad in which the methods are written,
                    one definition per method and one [Closure] constructor
                    per callback of the source;
    - [exec]      : the interpreter (callbacks run synchronously when a
                    promise completes, as in the hand-rolled promise library);
    - the event machine ([Event], [dispatch], [run]) that feeds API calls and
      completions of external futures to the class;
    - theorems: first the methods one by one, as equations of [exec]; then
      the order of the frames on a connection, as an invariant ([Inv]) that
      every method, every callback and every event keeps. *)

From Stdlib Require Import Bool List String Ascii ZArith NArith Lia.
From Stdlib Require Import Floats Uint63.
Import ListNotations.

Local Open Scope string_scope.
Local Open Scope Z_scope.
Local Open Scope list_scope.

(* ===================================================================== *)
(** ** JavaScript values and builtins *)
(* ===================================================================== *)

Module Js.

(** [String.prototype.toLowerCase], on the ASCII range the protocol uses. *)
Definition lower_ascii (c : ascii) : ascii :=
  let n := nat_of_ascii c in
  if (Nat.leb 65 n && Nat.leb n 90)%bool then ascii_of_nat (n + 32) else c.

Fixpoint toLowerCase (s : string) : string :=
  match s with
  | EmptyString => EmptyString
  | String c r => String (lower_ascii c) (toLowerCase r)
  end.

(** A string is truthy when it is not empty. *)
Definition truthy (s : string) : bool :=
  match s with EmptyString => false | _ => true end.

Definition is_digit (c : ascii) : bool :=
  let n := nat_of_ascii c in (Nat.leb 48 n && Nat.leb n 57)%bool.

Definition digit_value (c : ascii) : Z := Z.of_nat (nat_of_ascii c) - 48.

Definition is_space (c : ascii) : bool :=
  let n := nat_of_ascii c in
  (Nat.eqb n 32 || Nat.eqb n 9 || Nat.eqb n 10 || Nat.eqb n 13)%bool.

(** The decimal digits at the head of [s], read with accumulator [acc];
    [seen] tells whether a digit was read. *)
Fixpoint read_digits (s : string) (acc : Z) (seen : bool) : option Z :=
  match s with
  | String c r =>
      if is_digit c then read_digits r (acc * 10 + digit_value c) true
      else if seen then Some acc else None
  | EmptyString => if seen then Some acc else None
  end.

Fixpoint skip_spaces (s : string) : string :=
  match s with
  | String c r => if is_space c then skip_spaces r else s
  | EmptyString => s
  end.

(** [parseInt(s, 10)]: leading white space, an optional sign, then the
    longest run of decimal digits; [None] stands for [NaN]. *)
Definition parseInt10 (s : string) : option Z :=
  match skip_spaces s with
  | String "-" r => option_map Z.opp (read_digits r 0 false)
  | String "+" r => read_digits r 0 false
  | r => read_digits r 0 false
  end.

(** Decimal rendering of an integer inside a template string. *)
Fixpoint digits_of (fuel : nat) (n : Z) (acc : string) : string :=
  match fuel with
  | O => acc
  | S f =>
      let d := ascii_of_nat (Z.to_nat (n mod 10) + 48) in
      if n <? 10 then String d acc else digits_of f (n / 10) (String d acc)
  end.

Definition string_of_Z (n : Z) : string :=
  if n <? 0 then String "-" (digits_of 64 (- n) EmptyString)
  else digits_of 64 n EmptyString.

(** Numbers are IEEE-754 doubles; Rocq's primitive floats are the same
    binary64 with the same rounding, so [+], [-], [*] and [/] below are the
    operations the script performs. *)
Definition number := float.

(** An integer of the script as a double (exact below 2^53). *)
Definition of_Z (z : Z) : number :=
  if z <? 0 then PrimFloat.opp (PrimFloat.of_uint63 (Uint63.of_Z (- z)))
  else PrimFloat.of_uint63 (Uint63.of_Z z).

Definition of_parsed (o : option Z) : number :=
  match o with Some z => of_Z z | None => PrimFloat.nan end.

(** [a >= b] on doubles (false as soon as one side is [NaN]). *)
Definition geb (a b : number) : bool := PrimFloat.leb b a.

(** [Math.max(a, b)]. *)
Definition max (a b : number) : number :=
  if (PrimFloat.is_nan a || PrimFloat.is_nan b)%bool then PrimFloat.nan
  else if PrimFloat.ltb a b then b else a.

End Js.

(* ===================================================================== *)
(** ** Data model *)
(* ===================================================================== *)

Inductive MessageType := Text | Binary.

Inductive ConnectionState := StateNone | Connecting | Connected | Disconnected.

Inductive CancellationReason := ReasonError | ReasonEndOfStream.

Inductive CancellationErrorCode := NoError | ConnectionFailure | RuntimeError.

Inductive AudioDeviceType := Microphones | Speakers | File | Stream | Unknown.

(** Modelled from the spec: [RecognitionMode] and
    [RecognizerConfig.isContinuousRecognition] are not under src/; the spec
    knows two modes, single-shot and continuous. *)
Inductive RecognitionMode := SingleShot | Continuous.

(** The body of a frame.  An [ArrayBuffer] is represented by its
    [byteLength], the only thing the class reads of it. *)
Inductive Body :=
| NullBody
| TextBody (text : string)
| BinaryBody (byteLength : Z).

(** [SpeechConnectionMessage(messageType, path, requestId, contentType, body)]. *)
Record SpeechConnectionMessage := mkMessage {
  messageType : MessageType;
  path : string;
  requestId : string;
  contentType : option string;
  body : Body;
}.

Definition textBody (m : SpeechConnectionMessage) : string :=
  match body m with TextBody t => t | _ => EmptyString end.

(** [IStreamChunk<ArrayBuffer>]: [{ buffer, isEnd }]. *)
Record StreamChunk := mkChunk {
  buffer : Z;      (* byteLength of the buffer *)
  isEnd : bool;
}.

Definition PromiseId := nat.
Definition ConnRef := nat.      (* an [IConnection] object: its index in the world *)
Definition Callback := nat.     (* a user callback, only ever passed along *)
Definition PumpRef := nat.      (* one invocation of [sendAudio] *)
Definition JoinRef := nat.      (* one invocation of [PromiseHelper.whenAll] *)

Bind Scope nat_scope with PromiseId ConnRef Callback PumpRef JoinRef.

(** What a promise of the class can carry. *)
Inductive Value :=
| VUndefined
| VBool (b : bool)
| VConnection (c : ConnRef)
| VAuthInfo (token : string)
| VOpenResponse (statusCode : Z) (reason : string)
| VMessage (m : option SpeechConnectionMessage)
| VChunk (chunk : StreamChunk)
| VAudioNode (node : string)
| VDeviceInfo (type : AudioDeviceType)
| VPromise (p : PromiseId).

(** [PromiseResult<T>]: [isCompleted], [isError], [result], [error]. *)
Inductive PromiseResult :=
| Pending
| Resolved (result : Value)
| Rejected (error : string).

Definition isCompleted (r : PromiseResult) : bool :=
  match r with Pending => false | _ => true end.

Definition isError (r : PromiseResult) : bool :=
  match r with Rejected _ => true | _ => false end.

(** *** RequestSession *)

(** Modelled from the spec: [RequestSession] is not under src/.  Its state is
    the one of section 3 of the spec, its operations those of section 4.3;
    "record timing" appends a tag to the telemetry accumulator. *)
Record RequestSession := mkSession {
  sessionId : string;
  sessionRequestId : string;
  audioSourceId : string;
  audioNodeId : string;
  recogNumber : Z;
  bytesSent : Z;
  currentTurnAudioOffset : Z;
  isRecognizing : bool;
  isSpeechEnded : bool;
  telemetry : list string;
}.

Module Session.

Definition with_flags (recognizing ended : bool) (s : RequestSession) :=
  mkSession (sessionId s) (sessionRequestId s) (audioSourceId s) (audioNodeId s)
    (recogNumber s) (bytesSent s) (currentTurnAudioOffset s)
    recognizing ended (telemetry s).

Definition with_telemetry (t : list string) (s : RequestSession) :=
  mkSession (sessionId s) (sessionRequestId s) (audioSourceId s) (audioNodeId s)
    (recogNumber s) (bytesSent s) (currentTurnAudioOffset s)
    (isRecognizing s) (isSpeechEnded s) t.

Definition record (tag : string) (s : RequestSession) :=
  with_telemetry (telemetry s ++ [tag]) s.

(** [startNewRecognition()]: reset ids, counters, flags; ++recogNumber. *)
Definition startNewRecognition (newSessionId newRequestId newNodeId : string)
    (s : RequestSession) :=
  mkSession newSessionId newRequestId (audioSourceId s) newNodeId
    (recogNumber s + 1) 0 0 true false (telemetry s).

Definition onPreConnectionStart (authFetchEventId connectionId : string) :=
  record "onPreConnectionStart".

Definition onAuthCompleted (failed : bool) := record "onAuthCompleted".

Definition onConnectionEstablishCompleted (statusCode : Z) :=
  record "onConnectionEstablishCompleted".

Definition onAudioSourceAttachCompleted (node : string) (isReplay : bool) :=
  record "onAudioSourceAttachCompleted".

(** [onAudioSent(n)]: add to [bytesSent]. *)
Definition onAudioSent (n : Z) (s : RequestSession) :=
  mkSession (sessionId s) (sessionRequestId s) (audioSourceId s) (audioNodeId s)
    (recogNumber s) (bytesSent s + n) (currentTurnAudioOffset s)
    (isRecognizing s) (isSpeechEnded s) (telemetry s).

(** [onServiceRecognized(offsetTicks)]: advance [currentTurnAudioOffset]
    by [offsetTicks]. *)
Definition onServiceRecognized (offsetTicks : Z) (s : RequestSession) :=
  mkSession (sessionId s) (sessionRequestId s) (audioSourceId s) (audioNodeId s)
    (recogNumber s) (bytesSent s) (currentTurnAudioOffset s + offsetTicks)
    (isRecognizing s) (isSpeechEnded s) (telemetry s).

(** [onServiceTurnEndResponse(isContinuous)]: if continuous and not
    speech-ended, begin a new turn (new [requestId], per-turn counters
    reset, [currentTurnAudioOffset] retained); otherwise mark
    [isRecognizing = false]. *)
Definition onServiceTurnEndResponse (isContinuous : bool)
    (newRequestId : string) (s : RequestSession) :=
  if (isContinuous && negb (isSpeechEnded s))%bool then
    mkSession (sessionId s) newRequestId (audioSourceId s) (audioNodeId s)
      (recogNumber s) 0 (currentTurnAudioOffset s)
      (isRecognizing s) (isSpeechEnded s) (telemetry s)
  else with_flags false (isSpeechEnded s) s.

Definition onSpeechEnded (s : RequestSession) :=
  with_flags (isRecognizing s) true s.

Definition onStopRecognizing (s : RequestSession) :=
  with_flags false (isSpeechEnded s) s.

Definition dispose (s : RequestSession) :=
  with_flags false (isSpeechEnded s) s.

(** [getTelemetry()]: the summary, clearing the buffer; [null] when empty. *)
Definition getTelemetry (s : RequestSession) : option string * RequestSession :=
  match telemetry s with
  | [] => (None, s)
  | t => (Some (String.concat "," t), with_telemetry [] s)
  end.

End Session.

(** *** Collaborators that are not under src/ *)

(** [SpeechServiceConfig]: the class writes [Context.audio.source] and
    serializes the whole. *)
Record SpeechServiceConfig := mkSpeechServiceConfig {
  contextAudioSource : option AudioDeviceType;
}.

(** The pure helpers of collaborators whose code is not under src/ are taken
    as parameters of the development. *)
Class Collaborators := {
  (** [SpeechDetected.fromJSON(json).Offset]; [None] when the parser throws. *)
  SpeechDetected_fromJSON : string -> option Z;
  (** [SpeechServiceConfig.serialize()]. *)
  serialize : SpeechServiceConfig -> string;
  (** [JSON.stringify({ context: { system: JSON.parse(json).context.system } })]. *)
  systemContextOnly : string -> string;
}.

(** [RecognizerConfig]: recognition mode, property bag, service config. *)
Record RecognizerConfig := mkRecognizerConfig {
  recognitionMode : RecognitionMode;
  parameters : list (string * string);
  speechServiceConfig : SpeechServiceConfig;
}.

Definition isContinuousRecognition (c : RecognizerConfig) : bool :=
  match recognitionMode c with Continuous => true | SingleShot => false end.

(** [PropertyCollection.getProperty(name)]: [undefined] when unset. *)
Fixpoint getProperty (ps : list (string * string)) (name : string) : option string :=
  match ps with
  | [] => None
  | (k, v) :: r => if String.eqb k name then Some v else getProperty r name
  end.

(** [PropertyCollection.getProperty(name, def)]. *)
Definition getPropertyOr (ps : list (string * string)) (name def : string) : string :=
  match getProperty ps name with Some v => v | None => def end.

(** How a template literal prints a possibly undefined string. *)
Definition template (o : option string) : string :=
  match o with Some s => s | None => "undefined" end.

Record Callbacks := mkCallbacks {
  successCallback : option Callback;
  errorCallBack : option Callback;
}.

(** The callbacks of the source, one constructor per function literal, with
    the variables each one captures. *)
Inductive Closure :=
(* connectImpl *)
| ConnectImpl_onAuth (isUnAuthorized : bool)
| ConnectImpl_onOpen (isUnAuthorized : bool) (connection : ConnRef)
(* configureConnection *)
| Configure_onConnection
| Configure_onConfigSent (connection : ConnRef)
| Configure_onContextSent (connection : ConnRef)
(* recognize *)
| Recognize_onAttach (cb : Callbacks)
| Recognize_onDeviceInfo (cb : Callbacks) (audioNode : string)
| Recognize_onConfigured (cb : Callbacks) (audioNode : string)
| Recognize_onConfigureError (cb : Callbacks)
| Recognize_onAudioSendError (cb : Callbacks)
| Recognize_onCompletion
| Recognize_onCompletionError (cb : Callbacks)
| Recognize_onResult
(* dispose, disconnect *)
| Dispose_onConnection (reason : option string)
| Disconnect_onConnection
(* sendTelemetryData *)
| Telemetry_onConnection (telemetryData : string)
(* receiveMessage *)
| Receive_onConnection (cb : Callbacks)
| Receive_onMessage (cb : Callbacks)
| Receive_onError
| TurnEnd_onConnection
(* sendFinalAudio *)
| FinalAudio_onConnection (deferred : PromiseId)
| FinalAudio_onSent (deferred : PromiseId)
| FinalAudio_onError (deferred : PromiseId)
(* isRealTimeAudioSource *)
| IsRealTime_onDeviceInfo
(* sendAudio *)
| Pump_onConnection (pump : PumpRef)
| Pump_onConnectionError (pump : PumpRef)
| Pump_onChunk (pump : PumpRef) (connection : ConnRef)
| Pump_onReadError (pump : PumpRef)
| Pump_onIsRealTime (pump : PumpRef) (connection : ConnRef)
    (audioStreamChunk : StreamChunk) (payload : option Z) (sendDelay : Js.number)
| Pump_onUploadedRealTime (pump : PumpRef)
| Pump_nativeThen (pump : PumpRef)
| Pump_onTimeout (pump : PumpRef) (uploaded : PromiseId)
| Pump_onUploaded (pump : PumpRef)
| Noop
(* PromiseHelper.whenAll *)
| WhenAll_onSuccess (join : JoinRef)
| WhenAll_onError (join : JoinRef).

(** The ways the promise library chains a callback on a promise; the target
    [d] is the deferral the combinator returns. *)
Inductive Handler :=
| H_on (success error : Closure)
| H_continueWith (k : Closure) (d : PromiseId)
| H_onSuccessContinueWith (k : Closure) (d : PromiseId)
| H_continueWithPromise (k : Closure) (d : PromiseId)
| H_onSuccessContinueWithPromise (k : Closure) (d : PromiseId)
| H_forward (d : PromiseId).

(** Who completes a promise: the class itself, or a collaborator. *)
Inductive Origin :=
| Internal
| Ext_fetch (authFetchEventId : string)
| Ext_fetchOnExpiry (authFetchEventId : string)
| Ext_open (connection : ConnRef)
| Ext_send (connection : ConnRef)
| Ext_read (connection : ConnRef)
| Ext_attach (audioNodeId : string)
| Ext_deviceInfo
| Ext_nodeRead (audioStreamNode : string).

Record Cell := mkCell {
  origin : Origin;
  result : PromiseResult;
  handlers : list Handler;
}.

(** Calls that leave the class, in the order they are made. *)
Inductive Effect :=
| Recognizer_sessionStarted (session : string)
| Recognizer_sessionStopped (session : string)
| Recognizer_speechStartDetected (offset : Z) (session : string)
| Recognizer_speechEndDetected (offset : Z) (session : string)
| Hook_processTypeSpecificMessages (m : SpeechConnectionMessage) (cb : Callbacks)
| Hook_cancelRecognition (session request : string)
    (reason : CancellationReason) (code : CancellationErrorCode)
    (error : option string) (cancelRecoCallback : option Callback)
| Hook_telemetryData (json : string)
| Session_onServiceRecognized (offset : Z)
| AudioSource_turnOff
| Connection_dispose (connection : ConnRef) (reason : option string).

(** A connection made by the factory: the id it was created with, the state
    the transport reports, and every frame handed to [send] together with
    the future [send] returned for it. *)
Record Connection := mkConnection {
  connectionId : option string;
  state : ConnectionState;
  sent : list (SpeechConnectionMessage * PromiseId);
}.

(** Everything outside the class. *)
Record World := mkWorld {
  connections : list Connection;
  now : Z;                                  (* [Date.now()] *)
  guids : nat;                              (* ids minted so far *)
  trace : list Effect;
  timers : list (Js.number * Closure);      (* pending [setTimeout]s *)
  microtasks : list Closure;                (* pending native [then]s *)
  avgBytesPerSec : Z;                       (* [audioSource.format] *)
  speechContextJson : string;               (* [speechContext.toJSON()] *)
  telemetryDataEnabled : bool;              (* static *)
  telemetryDataHook : bool;                 (* static [telemetryData] is set *)
}.

(** The local variables of one [sendAudio] call, shared by its cycles. *)
Record Pump := mkPump {
  deferred : PromiseId;
  nextSendTime : Js.number;
  maxSendUnthrottledBytes : Js.number;
  startRecogNumber : Z;
  audioStreamNode : string;
}.

(** The local variables of one [whenAll] call. *)
Record Join := mkJoin {
  joinDeferred : PromiseId;
  total : nat;
  completedPromises : nat;
  errors : list string;
}.

(** The fields of [ServiceRecognizerBase]. *)
Record Core := mkCore {
  privSpeechServiceConfigConnectionId : option string;
  privConnectionConfigurationPromise : option PromiseId;
  privConnectionPromise : option PromiseId;
  privConnectionId : option string;
  privAuthFetchEventId : option string;
  privIsDisposed : bool;
  privMustReportEndOfStream : bool;
  privRequestSession : RequestSession;
  privRecognizerConfig : RecognizerConfig;
  pumps : list Pump;
  joins : list Join;
}.

Record State := mkState {
  core : Core;
  world : World;
  heap : list Cell;
}.

(** Field updates. *)

Definition set_configurationPromise (v : option PromiseId) (c : Core) :=
  mkCore (privSpeechServiceConfigConnectionId c) v (privConnectionPromise c)
    (privConnectionId c) (privAuthFetchEventId c) (privIsDisposed c)
    (privMustReportEndOfStream c) (privRequestSession c)
    (privRecognizerConfig c) (pumps c) (joins c).

Definition set_connectionPromise (v : option PromiseId) (c : Core) :=
  mkCore (privSpeechServiceConfigConnectionId c)
    (privConnectionConfigurationPromise c) v
    (privConnectionId c) (privAuthFetchEventId c) (privIsDisposed c)
    (privMustReportEndOfStream c) (privRequestSession c)
    (privRecognizerConfig c) (pumps c) (joins c).

Definition set_connectionId (v : option string) (c : Core) :=
  mkCore (privSpeechServiceConfigConnectionId c)
    (privConnectionConfigurationPromise c) (privConnectionPromise c)
    v (privAuthFetchEventId c) (privIsDisposed c)
    (privMustReportEndOfStream c) (privRequestSession c)
    (privRecognizerConfig c) (pumps c) (joins c).

Definition set_authFetchEventId (v : option string) (c : Core) :=
  mkCore (privSpeechServiceConfigConnectionId c)
    (privConnectionConfigurationPromise c) (privConnectionPromise c)
    (privConnectionId c) v (privIsDisposed c)
    (privMustReportEndOfStream c) (privRequestSession c)
    (privRecognizerConfig c) (pumps c) (joins c).

Definition set_speechServiceConfigConnectionId (v : option string) (c : Core) :=
  mkCore v
    (privConnectionConfigurationPromise c) (privConnectionPromise c)
    (privConnectionId c) (privAuthFetchEventId c) (privIsDisposed c)
    (privMustReportEndOfStream c) (privRequestSession c)
    (privRecognizerConfig c) (pumps c) (joins c).

Definition set_isDisposed (v : bool) (c : Core) :=
  mkCore (privSpeechServiceConfigConnectionId c)
    (privConnectionConfigurationPromise c) (privConnectionPromise c)
    (privConnectionId c) (privAuthFetchEventId c) v
    (privMustReportEndOfStream c) (privRequestSession c)
    (privRecognizerConfig c) (pumps c) (joins c).

Definition set_mustReportEndOfStream (v : bool) (c : Core) :=
  mkCore (privSpeechServiceConfigConnectionId c)
    (privConnectionConfigurationPromise c) (privConnectionPromise c)
    (privConnectionId c) (privAuthFetchEventId c) (privIsDisposed c)
    v (privRequestSession c)
    (privRecognizerConfig c) (pumps c) (joins c).

Definition set_requestSession (v : RequestSession) (c : Core) :=
  mkCore (privSpeechServiceConfigConnectionId c)
    (privConnectionConfigurationPromise c) (privConnectionPromise c)
    (privConnectionId c) (privAuthFetchEventId c) (privIsDisposed c)
    (privMustReportEndOfStream c) v
    (privRecognizerConfig c) (pumps c) (joins c).

Definition set_recognizerConfig (v : RecognizerConfig) (c : Core) :=
  mkCore (privSpeechServiceConfigConnectionId c)
    (privConnectionConfigurationPromise c) (privConnectionPromise c)
    (privConnectionId c) (privAuthFetchEventId c) (privIsDisposed c)
    (privMustReportEndOfStream c) (privRequestSession c)
    v (pumps c) (joins c).

Definition set_pumps (v : list Pump) (c : Core) :=
  mkCore (privSpeechServiceConfigConnectionId c)
    (privConnectionConfigurationPromise c) (privConnectionPromise c)
    (privConnectionId c) (privAuthFetchEventId c) (privIsDisposed c)
    (privMustReportEndOfStream c) (privRequestSession c)
    (privRecognizerConfig c) v (joins c).

Definition set_joins (v : list Join) (c : Core) :=
  mkCore (privSpeechServiceConfigConnectionId c)
    (privConnectionConfigurationPromise c) (privConnectionPromise c)
    (privConnectionId c) (privAuthFetchEventId c) (privIsDisposed c)
    (privMustReportEndOfStream c) (privRequestSession c)
    (privRecognizerConfig c) (pumps c) v.

Definition set_connections (v : list Connection) (w : World) :=
  mkWorld v (now w) (guids w) (trace w) (timers w) (microtasks w)
    (avgBytesPerSec w) (speechContextJson w) (telemetryDataEnabled w)
    (telemetryDataHook w).

Definition set_now (v : Z) (w : World) :=
  mkWorld (connections w) v (guids w) (trace w) (timers w) (microtasks w)
    (avgBytesPerSec w) (speechContextJson w) (telemetryDataEnabled w)
    (telemetryDataHook w).

Definition set_guids (v : nat) (w : World) :=
  mkWorld (connections w) (now w) v (trace w) (timers w) (microtasks w)
    (avgBytesPerSec w) (speechContextJson w) (telemetryDataEnabled w)
    (telemetryDataHook w).

Definition set_trace (v : list Effect) (w : World) :=
  mkWorld (connections w) (now w) (guids w) v (timers w) (microtasks w)
    (avgBytesPerSec w) (speechContextJson w) (telemetryDataEnabled w)
    (telemetryDataHook w).

Definition set_timers (v : list (Js.number * Closure)) (w : World) :=
  mkWorld (connections w) (now w) (guids w) (trace w) v (microtasks w)
    (avgBytesPerSec w) (speechContextJson w) (telemetryDataEnabled w)
    (telemetryDataHook w).

Definition set_microtasks (v : list Closure) (w : World) :=
  mkWorld (connections w) (now w) (guids w) (trace w) (timers w) v
    (avgBytesPerSec w) (speechContextJson w) (telemetryDataEnabled w)
    (telemetryDataHook w).

(** Replace the element at index [i]; nothing happens out of range. *)
Fixpoint update_nth {A} (i : nat) (f : A -> A) (l : list A) : list A :=
  match l, i with
  | [], _ => []
  | x :: r, O => f x :: r
  | x :: r, S j => x :: update_nth j f r
  end.


(* ===================================================================== *)
(** ** The command monad *)
(* ===================================================================== *)

(** Methods and callbacks are written as programs over the commands they
    use: reading and writing the fields and the world, and the four
    operations of a promise (create, inspect, complete, subscribe).
    [Invoke] calls a callback and hands back what it returned or threw. *)
Inductive Prog (A : Type) : Type :=
| Ret (a : A)
| Throw (e : string)
| GetCore (k : Core -> Prog A)
| PutCore (c : Core) (k : Prog A)
| GetWorld (k : World -> Prog A)
| PutWorld (w : World) (k : Prog A)
| NewPromise (o : Origin) (r : PromiseResult) (k : PromiseId -> Prog A)
| GetResult (p : PromiseId) (k : PromiseResult -> Prog A)
| Complete (p : PromiseId) (r : PromiseResult) (k : Prog A)
| Subscribe (p : PromiseId) (h : Handler) (k : Prog A)
| Invoke (c : Closure) (arg : PromiseResult) (k : Value + string -> Prog A).

Arguments Ret {A} a.
Arguments Throw {A} e.
Arguments GetCore {A} k.
Arguments PutCore {A} c k.
Arguments GetWorld {A} k.
Arguments PutWorld {A} w k.
Arguments NewPromise {A} o r k.
Arguments GetResult {A} p k.
Arguments Complete {A} p r k.
Arguments Subscribe {A} p h k.
Arguments Invoke {A} c arg k.

Fixpoint bind {A B : Type} (m : Prog A) (f : A -> Prog B) : Prog B :=
  match m with
  | Ret a => f a
  | Throw e => Throw e
  | GetCore k => GetCore (fun c => bind (k c) f)
  | PutCore c k => PutCore c (bind k f)
  | GetWorld k => GetWorld (fun w => bind (k w) f)
  | PutWorld w k => PutWorld w (bind k f)
  | NewPromise o r k => NewPromise o r (fun p => bind (k p) f)
  | GetResult p k => GetResult p (fun r => bind (k r) f)
  | Complete p r k => Complete p r (bind k f)
  | Subscribe p h k => Subscribe p h (bind k f)
  | Invoke c arg k => Invoke c arg (fun o => bind (k o) f)
  end.

Declare Scope prog_scope.
Delimit Scope prog_scope with prog.
Notation "x <- m ;; k" := (bind m (fun x => k))
  (at level 61, m at next level, right associativity) : prog_scope.
Notation "m ;; k" := (bind m (fun _ => k))
  (at level 61, right associativity) : prog_scope.
Local Open Scope prog_scope.

Definition skip : Prog unit := Ret tt.

Definition when (b : bool) (m : Prog unit) : Prog unit := if b then m else skip.

Definition modifyCore (f : Core -> Core) : Prog unit :=
  GetCore (fun c => PutCore (f c) skip).

Definition modifyWorld (f : World -> World) : Prog unit :=
  GetWorld (fun w => PutWorld (f w) skip).

Definition getSession : Prog RequestSession :=
  GetCore (fun c => Ret (privRequestSession c)).

Definition modifySession (f : RequestSession -> RequestSession) : Prog unit :=
  modifyCore (fun c => set_requestSession (f (privRequestSession c)) c).

Definition getConfig : Prog RecognizerConfig :=
  GetCore (fun c => Ret (privRecognizerConfig c)).

Definition emit (e : Effect) : Prog unit :=
  modifyWorld (fun w => set_trace (trace w ++ [e]) w).

Definition Date_now : Prog Z := GetWorld (fun w => Ret (now w)).

(** *** Fresh identifiers *)

Definition hex_digit (n : nat) : ascii :=
  ascii_of_nat (if Nat.ltb n 10 then n + 48 else n + 87).

Fixpoint hex (width n : nat) (acc : string) : string :=
  match width with
  | O => acc
  | S w => hex w (Nat.div n 16) (String (hex_digit (Nat.modulo n 16)) acc)
  end.

(** Modelled from the spec: [createNoDashGuid] is not under src/; ids are
    32 lowercase hexadecimal characters, fresh at each call. *)
Definition guid (n : nat) : string := hex 32 n EmptyString.

Definition createNoDashGuid : Prog string :=
  GetWorld (fun w => PutWorld (set_guids (S (guids w)) w) (Ret (guid (guids w)))).

(** *** The promise library *)

(** Modelled from the spec: the promise library ([Promise], [Deferred],
    [PromiseHelper]) is not under src/.  Futures are cooperative (section 5):
    a callback chained on a promise runs when the producer completes the
    promise, at once and in the order of subscription, or immediately when
    the promise is already complete.  The [...ContinueWith...] combinators
    return a new deferral that takes the value the callback returns (or, for
    the [...Promise] variants, the outcome of the promise it returns) and is
    rejected when the callback throws. *)
Definition fromResult (v : Value) : Prog PromiseId :=
  NewPromise Internal (Resolved v) (fun p => Ret p).

Definition fromError (e : string) : Prog PromiseId :=
  NewPromise Internal (Rejected e) (fun p => Ret p).

Definition newDeferred : Prog PromiseId :=
  NewPromise Internal Pending (fun p => Ret p).

Definition resolve (d : PromiseId) (v : Value) : Prog unit :=
  Complete d (Resolved v) skip.

Definition reject (d : PromiseId) (e : string) : Prog unit :=
  Complete d (Rejected e) skip.

Definition on (p : PromiseId) (success error : Closure) : Prog PromiseId :=
  Subscribe p (H_on success error) (Ret p).

Definition continueWith (p : PromiseId) (k : Closure) : Prog PromiseId :=
  d <- newDeferred ;; Subscribe p (H_continueWith k d) (Ret d).

Definition onSuccessContinueWith (p : PromiseId) (k : Closure) : Prog PromiseId :=
  d <- newDeferred ;; Subscribe p (H_onSuccessContinueWith k d) (Ret d).

Definition continueWithPromise (p : PromiseId) (k : Closure) : Prog PromiseId :=
  d <- newDeferred ;; Subscribe p (H_continueWithPromise k d) (Ret d).

Definition onSuccessContinueWithPromise (p : PromiseId) (k : Closure) : Prog PromiseId :=
  d <- newDeferred ;; Subscribe p (H_onSuccessContinueWithPromise k d) (Ret d).

Definition settle (d : PromiseId) (o : Value + string) : Prog unit :=
  match o with
  | inl v => resolve d v
  | inr e => reject d e
  end.

Definition chain (d : PromiseId) (o : Value + string) : Prog unit :=
  match o with
  | inl (VPromise q) => Subscribe q (H_forward d) skip
  | inl _ => reject d "'continuationCallback' should return a promise"
  | inr e => reject d e
  end.

Definition rethrow (o : Value + string) : Prog unit :=
  match o with
  | inl _ => skip
  | inr e => Throw e
  end.

(** What a subscribed handler does when its promise completes with [r]. *)
Definition runHandler (h : Handler) (r : PromiseResult) : Prog unit :=
  match r with
  | Pending => skip
  | Resolved v =>
      match h with
      | H_on success _ => Invoke success r rethrow
      | H_continueWith k d => Invoke k r (settle d)
      | H_onSuccessContinueWith k d => Invoke k r (settle d)
      | H_continueWithPromise k d => Invoke k r (chain d)
      | H_onSuccessContinueWithPromise k d => Invoke k r (chain d)
      | H_forward d => resolve d v
      end
  | Rejected e =>
      match h with
      | H_on _ error => Invoke error r rethrow
      | H_continueWith k d => Invoke k r (settle d)
      | H_onSuccessContinueWith _ d => reject d e
      | H_continueWithPromise k d => Invoke k r (chain d)
      | H_onSuccessContinueWithPromise _ d => reject d e
      | H_forward d => reject d e
      end
  end.

Fixpoint runHandlers (hs : list Handler) (r : PromiseResult) : Prog unit :=
  match hs with
  | [] => skip
  | h :: t => runHandler h r ;; runHandlers t r
  end.

(** *** Collaborators *)

(** Modelled from the spec: authentication, the connection factory, the
    transport and the audio source are external (section 1); each call that
    returns a future is a suspension point (section 5): it yields a pending
    promise which the collaborator completes later. *)
Definition auth_fetch (authFetchEventId : string) : Prog PromiseId :=
  NewPromise (Ext_fetch authFetchEventId) Pending (fun p => Ret p).

Definition auth_fetchOnExpiry (authFetchEventId : string) : Prog PromiseId :=
  NewPromise (Ext_fetchOnExpiry authFetchEventId) Pending (fun p => Ret p).

Definition connectionFactory_create (authInfo : Value) (connectionId : option string)
  : Prog ConnRef :=
  GetWorld (fun w =>
    PutWorld (set_connections (connections w ++ [mkConnection connectionId StateNone []]) w)
      (Ret (List.length (connections w)))).

Definition connection_open (c : ConnRef) : Prog PromiseId :=
  NewPromise (Ext_open c) Pending (fun p => Ret p).

Definition stateOf (w : World) (c : ConnRef) : ConnectionState :=
  match nth_error (connections w) c with
  | Some x => state x
  | None => StateNone
  end.

Definition connection_state (c : ConnRef) : Prog ConnectionState :=
  GetWorld (fun w => Ret (stateOf w c)).

Definition record_sent (m : SpeechConnectionMessage) (p : PromiseId) (x : Connection) :=
  mkConnection (connectionId x) (state x) (sent x ++ [(m, p)]).

Definition connection_send (c : ConnRef) (m : SpeechConnectionMessage) : Prog PromiseId :=
  NewPromise (Ext_send c) Pending (fun p =>
    modifyWorld (fun w => set_connections (update_nth c (record_sent m p) (connections w)) w) ;;
    Ret p).

Definition connection_read (c : ConnRef) : Prog PromiseId :=
  NewPromise (Ext_read c) Pending (fun p => Ret p).

Definition connection_dispose (c : ConnRef) (reason : option string) : Prog unit :=
  emit (Connection_dispose c reason).

Definition audioSource_attach (audioNodeId : string) : Prog PromiseId :=
  NewPromise (Ext_attach audioNodeId) Pending (fun p => Ret p).

Definition audioSource_deviceInfo : Prog PromiseId :=
  NewPromise Ext_deviceInfo Pending (fun p => Ret p).

Definition audioStreamNode_read (node : string) : Prog PromiseId :=
  NewPromise (Ext_nodeRead node) Pending (fun p => Ret p).

Definition setTimeout (callback : Closure) (delay : Js.number) : Prog unit :=
  modifyWorld (fun w => set_timers (timers w ++ [(delay, callback)]) w).

Definition queueMicrotask (callback : Closure) : Prog unit :=
  modifyWorld (fun w => set_microtasks (microtasks w ++ [callback]) w).

(* ===================================================================== *)
(** ** ServiceRecognizerBase *)
(* ===================================================================== *)

Section ServiceRecognizerBase.

Context {collaborators : Collaborators}.

Definition getCore : Prog Core := GetCore (fun c => Ret c).

Definition getWorld : Prog World := GetWorld (fun w => Ret w).

(** [startNewRecognition] and [onServiceTurnEndResponse] mint their ids. *)
Definition session_startNewRecognition : Prog unit :=
  newSessionId <- createNoDashGuid ;;
  newRequestId <- createNoDashGuid ;;
  newNodeId <- createNoDashGuid ;;
  modifySession (Session.startNewRecognition newSessionId newRequestId newNodeId).

Definition session_onServiceTurnEndResponse (isContinuous : bool) : Prog unit :=
  s <- getSession ;;
  if (isContinuous && negb (isSpeechEnded s))%bool then
    newRequestId <- createNoDashGuid ;;
    modifySession (Session.onServiceTurnEndResponse isContinuous newRequestId)
  else
    modifySession (Session.onServiceTurnEndResponse isContinuous (sessionRequestId s)).

Definition session_getTelemetry : Prog (option string) :=
  s <- getSession ;;
  modifySession (fun s => snd (Session.getTelemetry s)) ;;
  Ret (fst (Session.getTelemetry s)).

(** *** connectImpl (lines 369-424) *)

(** The part of [connectImpl] below the guard on [privConnectionPromise]. *)
Definition connectImpl_attempt (isUnAuthorized : bool) : Prog PromiseId :=
  authFetchEventId <- createNoDashGuid ;;
  modifyCore (set_authFetchEventId (Some authFetchEventId)) ;;
  connectionId <- createNoDashGuid ;;
  modifyCore (set_connectionId (Some connectionId)) ;;
  modifySession (Session.onPreConnectionStart authFetchEventId connectionId) ;;
  authPromise <- (if isUnAuthorized then auth_fetchOnExpiry authFetchEventId
                  else auth_fetch authFetchEventId) ;;
  p <- continueWithPromise authPromise (ConnectImpl_onAuth isUnAuthorized) ;;
  modifyCore (set_connectionPromise (Some p)) ;;
  Ret p.

(** [result().isCompleted && (result().isError ||
    result().result.state() === ConnectionState.Disconnected)]. *)
Definition stale (w : World) (r : PromiseResult) : bool :=
  match r with
  | Pending => false
  | Rejected _ => true
  | Resolved (VConnection c) =>
      match stateOf w c with Disconnected => true | _ => false end
  | Resolved _ => false
  end.

(** The recursive call [this.connectImpl()] of the guard runs with the
    stored promise just cleared, hence straight into a new attempt, with
    the default [isUnAuthorized = false]. *)
Definition connectImpl (isUnAuthorized : bool) : Prog PromiseId :=
  c <- getCore ;;
  match privConnectionPromise c with
  | Some p =>
      r <- GetResult p (fun r => Ret r) ;;
      w <- getWorld ;;
      if stale w r then
        modifyCore (set_connectionId None) ;;
        modifyCore (set_connectionPromise None) ;;
        connectImpl_attempt false
      else Ret p
  | None => connectImpl_attempt isUnAuthorized
  end.

Definition unableToContactServer (statusCode : Z) (endpoint : option string)
    (reason : string) : string :=
  ("Unable to contact server. StatusCode: " ++ Js.string_of_Z statusCode ++ ", "
     ++ template endpoint ++ " Reason: " ++ reason)%string.

Definition connectImpl_onAuth (isUnAuthorized : bool) (result : PromiseResult)
  : Prog Value :=
  match result with
  | Rejected error =>
      modifySession (Session.onAuthCompleted true) ;;
      Throw error
  | Resolved authInfo =>
      modifySession (Session.onAuthCompleted false) ;;
      c <- getCore ;;
      connection <- connectionFactory_create authInfo (privConnectionId c) ;;
      opened <- connection_open connection ;;
      p <- onSuccessContinueWithPromise opened
             (ConnectImpl_onOpen isUnAuthorized connection) ;;
      Ret (VPromise p)
  | Pending => Ret VUndefined
  end.

Definition connectImpl_onOpen (isUnAuthorized : bool) (connection : ConnRef)
    (response : PromiseResult) : Prog Value :=
  match response with
  | Resolved (VOpenResponse statusCode reason) =>
      if statusCode =? 200 then
        c <- getCore ;;
        modifySession (Session.onPreConnectionStart
                         (template (privAuthFetchEventId c))
                         (template (privConnectionId c))) ;;
        modifySession (Session.onConnectionEstablishCompleted statusCode) ;;
        p <- fromResult (VConnection connection) ;;
        Ret (VPromise p)
      else if ((statusCode =? 403) && negb isUnAuthorized)%bool then
        p <- connectImpl true ;;
        Ret (VPromise p)
      else
        modifySession (Session.onConnectionEstablishCompleted statusCode) ;;
        cfg <- getConfig ;;
        p <- fromError (unableToContactServer statusCode
               (getProperty (parameters cfg) "SpeechServiceConnection_Endpoint")
               reason) ;;
        Ret (VPromise p)
  | _ => Ret VUndefined
  end.

(** *** sendSpeechServiceConfig, sendSpeechContext (lines 551-590) *)

Definition sendSpeechServiceConfig (connection : ConnRef)
    (SpeechServiceConfigJson : string) : Prog PromiseId :=
  w <- getWorld ;;
  let json := if negb (telemetryDataEnabled w)
              then systemContextOnly SpeechServiceConfigJson
              else SpeechServiceConfigJson in
  if Js.truthy json then
    c <- getCore ;;
    modifyCore (set_speechServiceConfigConnectionId (privConnectionId c)) ;;
    connection_send connection
      (mkMessage Text "speech.config" (sessionRequestId (privRequestSession c))
         (Some "application/json") (TextBody json))
  else fromResult (VBool true).

Definition sendSpeechContext (connection : ConnRef) : Prog PromiseId :=
  w <- getWorld ;;
  let speechContextJson := speechContextJson w in
  if Js.truthy speechContextJson then
    s <- getSession ;;
    connection_send connection
      (mkMessage Text "speech.context" (sessionRequestId s)
         (Some "application/json") (TextBody speechContextJson))
  else fromResult (VBool true).

(** *** configureConnection, fetchConnection (lines 364-366, 427-450) *)

Definition configureConnection_attempt : Prog PromiseId :=
  connected <- connectImpl false ;;
  p <- onSuccessContinueWithPromise connected Configure_onConnection ;;
  modifyCore (set_configurationPromise (Some p)) ;;
  Ret p.

Definition configureConnection : Prog PromiseId :=
  c <- getCore ;;
  match privConnectionConfigurationPromise c with
  | Some p =>
      r <- GetResult p (fun r => Ret r) ;;
      w <- getWorld ;;
      if stale w r then
        modifyCore (set_configurationPromise None) ;;
        configureConnection_attempt
      else Ret p
  | None => configureConnection_attempt
  end.

Definition fetchConnection : Prog PromiseId := configureConnection.

Definition configure_onConnection (r : PromiseResult) : Prog Value :=
  match r with
  | Resolved (VConnection connection) =>
      cfg <- getConfig ;;
      sentConfig <- sendSpeechServiceConfig connection
                      (serialize (speechServiceConfig cfg)) ;;
      p <- onSuccessContinueWithPromise sentConfig (Configure_onConfigSent connection) ;;
      Ret (VPromise p)
  | _ => Ret VUndefined
  end.

Definition configure_onConfigSent (connection : ConnRef) (r : PromiseResult)
  : Prog Value :=
  sentContext <- sendSpeechContext connection ;;
  p <- onSuccessContinueWith sentContext (Configure_onContextSent connection) ;;
  Ret (VPromise p).

Definition configure_onContextSent (connection : ConnRef) (r : PromiseResult)
  : Prog Value :=
  Ret (VConnection connection).

(** *** sendTelemetryData, cancelRecognitionLocal (lines 308-362) *)

Definition sendTelemetryData : Prog PromiseId :=
  telemetryData <- session_getTelemetry ;;
  w <- getWorld ;;
  c <- getCore ;;
  match telemetryData with
  | Some json =>
      if (negb (telemetryDataEnabled w) || privIsDisposed c)%bool then
        fromResult (VBool true)
      else
        when (telemetryDataHook w) (emit (Hook_telemetryData json)) ;;
        p <- fetchConnection ;;
        onSuccessContinueWith p (Telemetry_onConnection json)
  | None => fromResult (VBool true)
  end.

Definition telemetry_onConnection (telemetryData : string) (r : PromiseResult)
  : Prog Value :=
  match r with
  | Resolved (VConnection connection) =>
      s <- getSession ;;
      p <- connection_send connection
             (mkMessage Text "telemetry" (sessionRequestId s)
                (Some "application/json") (TextBody telemetryData)) ;;
      Ret (VPromise p)
  | _ => Ret VUndefined
  end.

Definition cancelRecognitionLocal (cancellationReason : CancellationReason)
    (errorCode : CancellationErrorCode) (error : option string)
    (cancelRecoCallback : option Callback) : Prog unit :=
  s <- getSession ;;
  when (isRecognizing s)
    (modifySession Session.onStopRecognizing ;;
     sendTelemetryData ;;
     s <- getSession ;;
     emit (Hook_cancelRecognition (sessionId s) (sessionRequestId s)
             cancellationReason errorCode error cancelRecoCallback)).

(** *** receiveMessage (lines 452-549) *)

Definition receiveMessage (cb : Callbacks) : Prog PromiseId :=
  p <- fetchConnection ;;
  on p (Receive_onConnection cb) Receive_onError.

Definition receive_onConnection (cb : Callbacks) (r : PromiseResult) : Prog Value :=
  match r with
  | Resolved (VConnection connection) =>
      message <- connection_read connection ;;
      p <- onSuccessContinueWithPromise message (Receive_onMessage cb) ;;
      Ret (VPromise p)
  | _ => Ret VUndefined
  end.

Definition processTypeSpecificMessages (connectionMessage : SpeechConnectionMessage)
    (cb : Callbacks) : Prog unit :=
  emit (Hook_processTypeSpecificMessages connectionMessage cb).

Definition fromJSON (json : string) : Prog Z :=
  match SpeechDetected_fromJSON json with
  | Some offset => Ret offset
  | None => Throw "SyntaxError"
  end.

Definition turnEnd_onConnection (r : PromiseResult) : Prog Value :=
  match r with
  | Resolved (VConnection connection) =>
      sendSpeechContext connection ;;
      Ret VUndefined
  | _ => Ret VUndefined
  end.

(** The [switch] on the lower-cased path.  The result is [Some p] when a
    case leaves the callback with [return p], and [None] when control
    reaches the end of the [switch].  The [turn.end] case has no [break]
    on its [else] branch: it runs on into [default]. *)
Definition switchOnPath (cb : Callbacks) (connectionMessage : SpeechConnectionMessage)
  : Prog (option PromiseId) :=
  let p := Js.toLowerCase (path connectionMessage) in
  if String.eqb p "turn.start" then
    modifyCore (set_mustReportEndOfStream true) ;;
    Ret None
  else if String.eqb p "speech.startdetected" then
    offset <- fromJSON (textBody connectionMessage) ;;
    s <- getSession ;;
    emit (Recognizer_speechStartDetected offset (sessionId s)) ;;
    Ret None
  else if String.eqb p "speech.enddetected" then
    let json := if Nat.ltb 0 (String.length (textBody connectionMessage))
                then textBody connectionMessage
                else "{ Offset: 0 }" in
    offset <- fromJSON json ;;
    cfg <- getConfig ;;
    when (isContinuousRecognition cfg)
      (s <- getSession ;;
       emit (Session_onServiceRecognized (offset + currentTurnAudioOffset s)) ;;
       modifySession (Session.onServiceRecognized (offset + currentTurnAudioOffset s))) ;;
    s <- getSession ;;
    emit (Recognizer_speechEndDetected (offset + currentTurnAudioOffset s) (sessionId s)) ;;
    Ret None
  else if String.eqb p "turn.end" then
    sendTelemetryData ;;
    c <- getCore ;;
    when (isSpeechEnded (privRequestSession c) && privMustReportEndOfStream c)%bool
      (modifyCore (set_mustReportEndOfStream false) ;;
       cancelRecognitionLocal ReasonEndOfStream NoError None (successCallback cb)) ;;
    s <- getSession ;;
    let sessionStopEventArgs := sessionId s in
    cfg <- getConfig ;;
    session_onServiceTurnEndResponse (isContinuousRecognition cfg) ;;
    s <- getSession ;;
    if (negb (isContinuousRecognition cfg) || isSpeechEnded s)%bool then
      emit (Recognizer_sessionStopped sessionStopEventArgs) ;;
      p <- fromResult (VBool true) ;;
      Ret (Some p)
    else
      p <- fetchConnection ;;
      onSuccessContinueWith p TurnEnd_onConnection ;;
      processTypeSpecificMessages connectionMessage cb ;;
      Ret None
  else
    processTypeSpecificMessages connectionMessage cb ;;
    Ret None.

Definition receive_onMessage (cb : Callbacks) (r : PromiseResult) : Prog Value :=
  match r with
  | Resolved (VMessage message) =>
      c <- getCore ;;
      if (privIsDisposed c || negb (isRecognizing (privRequestSession c)))%bool then
        p <- fromResult VUndefined ;;
        Ret (VPromise p)
      else
        match message with
        | None =>
            if negb (isRecognizing (privRequestSession c)) then
              p <- fromResult (VBool true) ;;
              Ret (VPromise p)
            else
              p <- receiveMessage cb ;;
              Ret (VPromise p)
        | Some connectionMessage =>
            returned <-
              (if String.eqb (Js.toLowerCase (requestId connectionMessage))
                    (Js.toLowerCase (sessionRequestId (privRequestSession c)))
               then switchOnPath cb connectionMessage
               else Ret None) ;;
            match returned with
            | Some p => Ret (VPromise p)
            | None =>
                p <- receiveMessage cb ;;
                Ret (VPromise p)
            end
        end
  | _ => Ret VUndefined
  end.

(** *** sendFinalAudio (lines 592-606) *)

Definition sendFinalAudio : Prog PromiseId :=
  deferred <- newDeferred ;;
  p <- fetchConnection ;;
  on p (FinalAudio_onConnection deferred) (FinalAudio_onError deferred) ;;
  Ret deferred.

Definition finalAudio_onConnection (deferred : PromiseId) (r : PromiseResult)
  : Prog Value :=
  match r with
  | Resolved (VConnection connection) =>
      s <- getSession ;;
      p <- connection_send connection
             (mkMessage Binary "audio" (sessionRequestId s) None NullBody) ;;
      on p (FinalAudio_onSent deferred) (FinalAudio_onError deferred) ;;
      Ret VUndefined
  | _ => Ret VUndefined
  end.

Definition errorOf (r : PromiseResult) : string :=
  match r with Rejected e => e | _ => EmptyString end.

(** *** isRealTimeAudioSource (lines 610-617) *)

Definition isRealTimeAudioSource : Prog PromiseId :=
  deviceInfo <- audioSource_deviceInfo ;;
  onSuccessContinueWith deviceInfo IsRealTime_onDeviceInfo.

Definition isRealTime_onDeviceInfo (r : PromiseResult) : Prog Value :=
  match r with
  | Resolved (VDeviceInfo Microphones) => Ret (VBool true)
  | _ => Ret (VBool false)
  end.

(** *** sendAudio (lines 619-736) *)

Definition getPump (pump : PumpRef) : Prog Pump :=
  c <- getCore ;;
  match nth_error (pumps c) pump with
  | Some x => Ret x
  | None => Throw "ReferenceError"
  end.

Definition set_nextSendTime (t : Js.number) (x : Pump) : Pump :=
  mkPump (deferred x) t (maxSendUnthrottledBytes x) (startRecogNumber x)
    (audioStreamNode x).

(** [audioFormat.avgBytesPerSec / 1000 * parseInt(fastLaneSizeMs, 10)]. *)
Definition unthrottledBudget (avgBytesPerSec : Z) (fastLaneSizeMs : string) : Js.number :=
  (Js.of_Z avgBytesPerSec / 1000 * Js.of_parsed (Js.parseInt10 fastLaneSizeMs))%float.

(** [Date.now() + (payload.byteLength * 1000 / (audioFormat.avgBytesPerSec * 2))]. *)
Definition nextSendTimeAfter (now byteLength avgBytesPerSec : Z) : Js.number :=
  (Js.of_Z now + (Js.of_Z byteLength * 1000 / (Js.of_Z avgBytesPerSec * 2)))%float.

(** The delay chosen for a chunk that is not the end of the stream, once
    its bytes are counted in [bytesSent]. *)
Definition chooseSendDelay (maxSendUnthrottledBytes : Js.number) (bytesSent : Z)
    (nextSendTime : Js.number) (now : Z) : Js.number :=
  if Js.geb maxSendUnthrottledBytes (Js.of_Z bytesSent) then 0%float
  else Js.max 0%float (nextSendTime - Js.of_Z now)%float.

Definition readAndUploadCycle (pump : PumpRef) : Prog unit :=
  c <- getCore ;;
  x <- getPump pump ;;
  let s := privRequestSession c in
  if (negb (privIsDisposed c) && negb (isSpeechEnded s) && isRecognizing s
      && (recogNumber s =? startRecogNumber x))%bool then
    p <- fetchConnection ;;
    on p (Pump_onConnection pump) (Pump_onConnectionError pump) ;;
    skip
  else skip.

Definition sendAudio (audioStreamNode : string) : Prog PromiseId :=
  deferred <- newDeferred ;;
  now <- Date_now ;;
  w <- getWorld ;;
  cfg <- getConfig ;;
  let fastLaneSizeMs :=
    getPropertyOr (parameters cfg) "SPEECH-TransmitLengthBeforThrottleMs" "5000" in
  s <- getSession ;;
  c <- getCore ;;
  let pump := List.length (pumps c) in
  modifyCore (set_pumps (pumps c ++
    [mkPump deferred (Js.of_Z now)
       (unthrottledBudget (avgBytesPerSec w) fastLaneSizeMs)
       (recogNumber s) audioStreamNode])) ;;
  readAndUploadCycle pump ;;
  Ret deferred.

Definition pump_onConnection (pump : PumpRef) (r : PromiseResult) : Prog Value :=
  match r with
  | Resolved (VConnection connection) =>
      x <- getPump pump ;;
      chunk <- audioStreamNode_read (audioStreamNode x) ;;
      on chunk (Pump_onChunk pump connection) (Pump_onReadError pump) ;;
      Ret VUndefined
  | _ => Ret VUndefined
  end.

Definition pump_onConnectionError (pump : PumpRef) (r : PromiseResult) : Prog Value :=
  x <- getPump pump ;;
  reject (deferred x) (errorOf r) ;;
  Ret VUndefined.

Definition pump_onChunk (pump : PumpRef) (connection : ConnRef) (r : PromiseResult)
  : Prog Value :=
  match r with
  | Resolved (VChunk audioStreamChunk) =>
      x <- getPump pump ;;
      s <- getSession ;;
      if isSpeechEnded s then
        resolve (deferred x) (VBool true) ;;
        Ret VUndefined
      else
        payloadAndDelay <-
          (if isEnd audioStreamChunk then Ret (None, 0%float)
           else
             modifySession (Session.onAudioSent (buffer audioStreamChunk)) ;;
             s <- getSession ;;
             now <- Date_now ;;
             Ret (Some (buffer audioStreamChunk),
                  chooseSendDelay (maxSendUnthrottledBytes x) (bytesSent s)
                    (nextSendTime x) now)) ;;
        realTime <- isRealTimeAudioSource ;;
        onSuccessContinueWith realTime
          (Pump_onIsRealTime pump connection audioStreamChunk
             (fst payloadAndDelay) (snd payloadAndDelay)) ;;
        Ret VUndefined
  | _ => Ret VUndefined
  end.

Definition pump_onReadError (pump : PumpRef) (r : PromiseResult) : Prog Value :=
  x <- getPump pump ;;
  s <- getSession ;;
  (if isSpeechEnded s then resolve (deferred x) (VBool true)
   else reject (deferred x) (errorOf r)) ;;
  Ret VUndefined.

Definition audioFrame (request : string) (payload : option Z) : SpeechConnectionMessage :=
  mkMessage Binary "audio" request None
    (match payload with Some n => BinaryBody n | None => NullBody end).

Definition pump_onIsRealTime (pump : PumpRef) (connection : ConnRef)
    (audioStreamChunk : StreamChunk) (payload : option Z) (sendDelay : Js.number)
    (r : PromiseResult) : Prog Value :=
  match r with
  | Resolved (VBool isRealTime) =>
      match payload with
      | Some byteLength =>
          now <- Date_now ;;
          w <- getWorld ;;
          modifyCore (fun c => set_pumps (update_nth pump
            (set_nextSendTime (nextSendTimeAfter now byteLength (avgBytesPerSec w)))
            (pumps c)) c)
      | None => skip
      end ;;
      s <- getSession ;;
      uploaded <- connection_send connection (audioFrame (sessionRequestId s) payload) ;;
      (if negb (isEnd audioStreamChunk) then
         if isRealTime then
           continueWith uploaded (Pump_onUploadedRealTime pump) ;;
           skip
         else setTimeout (Pump_onTimeout pump uploaded) sendDelay
       else
         modifySession Session.onSpeechEnded ;;
         x <- getPump pump ;;
         resolve (deferred x) (VBool true)) ;;
      Ret VUndefined
  | _ => Ret VUndefined
  end.

Definition pump_onUploadedRealTime (pump : PumpRef) (r : PromiseResult) : Prog Value :=
  queueMicrotask (Pump_nativeThen pump) ;;
  Ret VUndefined.

Definition pump_onTimeout (pump : PumpRef) (uploaded : PromiseId) : Prog Value :=
  continueWith uploaded (Pump_onUploaded pump) ;;
  Ret VUndefined.

Definition pump_cycle (pump : PumpRef) : Prog Value :=
  readAndUploadCycle pump ;;
  Ret VUndefined.

(** *** PromiseHelper.whenAll *)

(** Modelled from the spec: [PromiseHelper.whenAll] is not under src/; its
    future resolves when all the given ones have completed, and fails with
    their errors when one of them failed. *)
Fixpoint subscribeAll (ps : list PromiseId) (success error : Closure) : Prog unit :=
  match ps with
  | [] => skip
  | p :: r => on p success error ;; subscribeAll r success error
  end.

Definition whenAll (promises : list PromiseId) : Prog PromiseId :=
  d <- newDeferred ;;
  c <- getCore ;;
  let join := List.length (joins c) in
  modifyCore (set_joins (joins c ++ [mkJoin d (List.length promises) 0 []])) ;;
  subscribeAll promises (WhenAll_onSuccess join) (WhenAll_onError join) ;;
  Ret d.

Definition checkForCompletion (join : JoinRef) (error : option string) : Prog Value :=
  modifyCore (fun c => set_joins (update_nth join (fun j =>
    mkJoin (joinDeferred j) (total j) (S (completedPromises j))
      (match error with Some e => errors j ++ [e] | None => errors j end))
    (joins c)) c) ;;
  c <- getCore ;;
  match nth_error (joins c) join with
  | Some j =>
      (if Nat.eqb (completedPromises j) (total j) then
         match errors j with
         | [] => resolve (joinDeferred j) (VBool true)
         | es => reject (joinDeferred j) (String.concat ", " es)
         end
       else skip) ;;
      Ret VUndefined
  | None => Ret VUndefined
  end.

(** *** recognize (lines 197-264) *)

Definition set_recognitionMode (m : RecognitionMode) (cfg : RecognizerConfig) :=
  mkRecognizerConfig m (parameters cfg) (speechServiceConfig cfg).

Definition set_contextAudioSource (d : AudioDeviceType) (cfg : RecognizerConfig) :=
  mkRecognizerConfig (recognitionMode cfg) (parameters cfg)
    (mkSpeechServiceConfig (Some d)).

Definition recognize (recoMode : RecognitionMode) (cb : Callbacks) : Prog PromiseId :=
  modifyCore (set_configurationPromise None) ;;
  modifyCore (fun c => set_recognizerConfig
                         (set_recognitionMode recoMode (privRecognizerConfig c)) c) ;;
  session_startNewRecognition ;;
  connectImpl false ;;
  s <- getSession ;;
  attached <- audioSource_attach (audioNodeId s) ;;
  continueWithPromise attached (Recognize_onAttach cb).

Definition recognize_onAttach (cb : Callbacks) (result : PromiseResult) : Prog Value :=
  match result with
  | Rejected error =>
      cancelRecognitionLocal ReasonError ConnectionFailure (Some error)
        (successCallback cb) ;;
      p <- fromError error ;;
      Ret (VPromise p)
  | Resolved (VAudioNode node) =>
      modifySession (Session.onAudioSourceAttachCompleted node false) ;;
      deviceInfo <- audioSource_deviceInfo ;;
      p <- onSuccessContinueWithPromise deviceInfo (Recognize_onDeviceInfo cb node) ;;
      Ret (VPromise p)
  | _ => Ret VUndefined
  end.

Definition recognize_onDeviceInfo (cb : Callbacks) (audioNode : string)
    (r : PromiseResult) : Prog Value :=
  match r with
  | Resolved (VDeviceInfo deviceInfo) =>
      modifyCore (fun c => set_recognizerConfig
                    (set_contextAudioSource deviceInfo (privRecognizerConfig c)) c) ;;
      configured <- configureConnection ;;
      on configured (Recognize_onConfigured cb audioNode)
        (Recognize_onConfigureError cb) ;;
      p <- continueWithPromise configured Recognize_onResult ;;
      Ret (VPromise p)
  | _ => Ret VUndefined
  end.

Definition recognize_onConfigured (cb : Callbacks) (audioNode : string)
    (r : PromiseResult) : Prog Value :=
  s <- getSession ;;
  emit (Recognizer_sessionStarted (sessionId s)) ;;
  messageRetrievalPromise <- receiveMessage cb ;;
  audioSendPromise <- sendAudio audioNode ;;
  on audioSendPromise Noop (Recognize_onAudioSendError cb) ;;
  completionPromise <- whenAll [messageRetrievalPromise; audioSendPromise] ;;
  p <- on completionPromise Recognize_onCompletion (Recognize_onCompletionError cb) ;;
  Ret (VPromise p).

Definition recognize_onConfigureError (cb : Callbacks) (r : PromiseResult) : Prog Value :=
  cancelRecognitionLocal ReasonError ConnectionFailure (Some (errorOf r))
    (successCallback cb) ;;
  Ret VUndefined.

Definition recognize_onRuntimeError (cb : Callbacks) (r : PromiseResult) : Prog Value :=
  cancelRecognitionLocal ReasonError RuntimeError (Some (errorOf r))
    (successCallback cb) ;;
  Ret VUndefined.

Definition recognize_onResult (result : PromiseResult) : Prog Value :=
  match result with
  | Rejected error => p <- fromError error ;; Ret (VPromise p)
  | _ => p <- fromResult (VBool true) ;; Ret (VPromise p)
  end.

(** *** stopRecognizing, connect, disconnect, dispose (lines 180-187, 266-296) *)

Definition stopRecognizing : Prog unit :=
  s <- getSession ;;
  when (isRecognizing s)
    (modifySession Session.onStopRecognizing ;;
     sendTelemetryData ;;
     emit AudioSource_turnOff ;;
     sendFinalAudio ;;
     modifySession Session.dispose).

Definition connect : Prog unit :=
  p <- connectImpl false ;;
  GetResult p (fun _ => skip).

(** Reading [.result()] off a [privConnectionPromise] that is [null] or
    [undefined] is a [TypeError]. *)
Definition disconnect : Prog unit :=
  cancelRecognitionLocal ReasonError NoError (Some "Disconnecting") None ;;
  c <- getCore ;;
  match privConnectionPromise c with
  | None => Throw "TypeError"
  | Some p =>
      r <- GetResult p (fun r => Ret r) ;;
      match r with
      | Pending =>
          onSuccessContinueWith p Disconnect_onConnection ;;
          skip
      | Rejected _ => skip
      | Resolved (VConnection connection) =>
          connection_dispose connection None ;;
          modifyCore (set_connectionPromise None)
      | Resolved _ => modifyCore (set_connectionPromise None)
      end
  end.

Definition dispose (reason : option string) : Prog unit :=
  modifyCore (set_isDisposed true) ;;
  c <- getCore ;;
  match privConnectionConfigurationPromise c with
  | Some p =>
      onSuccessContinueWith p (Dispose_onConnection reason) ;;
      skip
  | None => skip
  end.

Definition dispose_onConnection (reason : option string) (r : PromiseResult)
  : Prog Value :=
  match r with
  | Resolved (VConnection connection) =>
      connection_dispose connection reason ;;
      Ret VUndefined
  | _ => Ret VUndefined
  end.

(** *** The callbacks, by name *)

Definition call (k : Closure) (arg : PromiseResult) : Prog Value :=
  match k with
  | ConnectImpl_onAuth isUnAuthorized => connectImpl_onAuth isUnAuthorized arg
  | ConnectImpl_onOpen isUnAuthorized connection =>
      connectImpl_onOpen isUnAuthorized connection arg
  | Configure_onConnection => configure_onConnection arg
  | Configure_onConfigSent connection => configure_onConfigSent connection arg
  | Configure_onContextSent connection => configure_onContextSent connection arg
  | Recognize_onAttach cb => recognize_onAttach cb arg
  | Recognize_onDeviceInfo cb audioNode => recognize_onDeviceInfo cb audioNode arg
  | Recognize_onConfigured cb audioNode => recognize_onConfigured cb audioNode arg
  | Recognize_onConfigureError cb => recognize_onConfigureError cb arg
  | Recognize_onAudioSendError cb => recognize_onRuntimeError cb arg
  | Recognize_onCompletion => Ret (VBool true)
  | Recognize_onCompletionError cb => recognize_onRuntimeError cb arg
  | Recognize_onResult => recognize_onResult arg
  | Dispose_onConnection reason => dispose_onConnection reason arg
  | Disconnect_onConnection => dispose_onConnection None arg
  | Telemetry_onConnection telemetryData => telemetry_onConnection telemetryData arg
  | Receive_onConnection cb => receive_onConnection cb arg
  | Receive_onMessage cb => receive_onMessage cb arg
  | Receive_onError => Ret VUndefined
  | TurnEnd_onConnection => turnEnd_onConnection arg
  | FinalAudio_onConnection deferred => finalAudio_onConnection deferred arg
  | FinalAudio_onSent deferred => resolve deferred (VBool true) ;; Ret VUndefined
  | FinalAudio_onError deferred => reject deferred (errorOf arg) ;; Ret VUndefined
  | IsRealTime_onDeviceInfo => isRealTime_onDeviceInfo arg
  | Pump_onConnection pump => pump_onConnection pump arg
  | Pump_onConnectionError pump => pump_onConnectionError pump arg
  | Pump_onChunk pump connection => pump_onChunk pump connection arg
  | Pump_onReadError pump => pump_onReadError pump arg
  | Pump_onIsRealTime pump connection chunk payload sendDelay =>
      pump_onIsRealTime pump connection chunk payload sendDelay arg
  | Pump_onUploadedRealTime pump => pump_onUploadedRealTime pump arg
  | Pump_nativeThen pump => pump_cycle pump
  | Pump_onTimeout pump uploaded => pump_onTimeout pump uploaded
  | Pump_onUploaded pump => pump_cycle pump
  | Noop => Ret VUndefined
  | WhenAll_onSuccess join => checkForCompletion join None
  | WhenAll_onError join => checkForCompletion join (Some (errorOf arg))
  end.

(* ===================================================================== *)
(** ** The interpreter *)
(* ===================================================================== *)

Inductive Outcome (A : Type) : Type :=
| Done (a : A) (s : State)
| Thrown (e : string) (s : State)
| OutOfFuel.

Arguments Done {A} a s.
Arguments Thrown {A} e s.
Arguments OutOfFuel {A}.

Definition resultOf (s : State) (p : PromiseId) : PromiseResult :=
  match nth_error (heap s) p with
  | Some c => result c
  | None => Pending
  end.

Definition handlersOf (s : State) (p : PromiseId) : list Handler :=
  match nth_error (heap s) p with
  | Some c => handlers c
  | None => []
  end.

Definition set_heap (h : list Cell) (s : State) : State := mkState (core s) (world s) h.

Definition allocate (o : Origin) (r : PromiseResult) (s : State) : State :=
  set_heap (heap s ++ [mkCell o r []]) s.

Definition subscribe (p : PromiseId) (h : Handler) (s : State) : State :=
  set_heap (update_nth p (fun c => mkCell (origin c) (result c) (handlers c ++ [h]))
              (heap s)) s.

Definition complete (p : PromiseId) (r : PromiseResult) (s : State) : State :=
  set_heap (update_nth p (fun c => mkCell (origin c) r []) (heap s)) s.

Section Exec.

(** [deeper] runs the callbacks a command triggers. *)
Variable deeper : forall A : Type, Prog A -> State -> Outcome A.

Definition andThen {A B : Type} (o : Outcome A) (k : A -> State -> Outcome B)
  : Outcome B :=
  match o with
  | Done a s => k a s
  | Thrown e s => Thrown e s
  | OutOfFuel => OutOfFuel
  end.

Fixpoint execWith {A : Type} (m : Prog A) (s : State) : Outcome A :=
  match m with
  | Ret a => Done a s
  | Throw e => Thrown e s
  | GetCore k => execWith (k (core s)) s
  | PutCore c k => execWith k (mkState c (world s) (heap s))
  | GetWorld k => execWith (k (world s)) s
  | PutWorld w k => execWith k (mkState (core s) w (heap s))
  | NewPromise o r k => execWith (k (List.length (heap s))) (allocate o r s)
  | GetResult p k => execWith (k (resultOf s p)) s
  | Complete p r k =>
      match resultOf s p with
      | Pending =>
          match handlersOf s p with
          | [] => execWith k (complete p r s)
          | hs =>
              andThen (deeper _ (runHandlers hs r) (complete p r s))
                (fun _ s' => execWith k s')
          end
      | _ => Thrown "Cannot resolve a completed promise" s
      end
  | Subscribe p h k =>
      match resultOf s p with
      | Pending => execWith k (subscribe p h s)
      | r => andThen (deeper _ (runHandler h r) s) (fun _ s' => execWith k s')
      end
  | Invoke c arg k =>
      match deeper _ (call c arg) s with
      | Done v s' => execWith (k (inl v)) s'
      | Thrown e s' => execWith (k (inr e)) s'
      | OutOfFuel => OutOfFuel
      end
  end.

End Exec.

(** [exec fuel m s]: run [m] from [s], nesting callbacks at most [fuel] deep. *)
Fixpoint exec (fuel : nat) (A : Type) (m : Prog A) (s : State) : Outcome A :=
  match fuel with
  | O => execWith (fun _ _ _ => OutOfFuel) m s
  | S f => execWith (exec f) m s
  end.

Arguments exec fuel {A} m s.

(* ===================================================================== *)
(** ** The event machine *)
(* ===================================================================== *)

(** What happens to the class from outside: a call of its public interface,
    a collaborator completing a future it had returned, the transport
    changing state, a timer firing, the clock advancing. *)
Inductive Event :=
| Api_recognize (recoMode : RecognitionMode) (cb : Callbacks)
| Api_stopRecognizing
| Api_connect
| Api_disconnect
| Api_dispose (reason : option string)
| Completes (p : PromiseId) (r : PromiseResult)
| ConnectionState_becomes (c : ConnRef) (st : ConnectionState)
| Timer_fires (i : nat)
| Clock_advances (ms : Z).

Definition originOf (s : State) (p : PromiseId) : Origin :=
  match nth_error (heap s) p with
  | Some c => origin c
  | None => Internal
  end.

(** A collaborator completes a future it returned, with an error or with a
    value of the type of that future. *)
Definition completes (o : Origin) (r : PromiseResult) : bool :=
  match r with
  | Pending => false
  | Rejected _ => match o with Internal => false | _ => true end
  | Resolved v =>
      match o, v with
      | Ext_fetch _, VAuthInfo _ => true
      | Ext_fetchOnExpiry _, VAuthInfo _ => true
      | Ext_open _, VOpenResponse _ _ => true
      | Ext_send _, VBool _ => true
      | Ext_read _, VMessage _ => true
      | Ext_attach _, VAudioNode _ => true
      | Ext_deviceInfo, VDeviceInfo _ => true
      | Ext_nodeRead _, VChunk _ => true
      | _, _ => false
      end
  end.

Fixpoint remove_nth {A : Type} (i : nat) (l : list A) : list A :=
  match l, i with
  | [], _ => []
  | _ :: r, O => r
  | x :: r, S j => x :: remove_nth j r
  end.

Definition set_world (w : World) (s : State) : State := mkState (core s) w (heap s).

Definition set_state (st : ConnectionState) (x : Connection) : Connection :=
  mkConnection (connectionId x) st (sent x).

(** The synchronous run an event starts. *)
Definition react (fuel : nat) (e : Event) (s : State) : Outcome unit :=
  match e with
  | Api_recognize recoMode cb => exec fuel (recognize recoMode cb ;; skip) s
  | Api_stopRecognizing => exec fuel stopRecognizing s
  | Api_connect => exec fuel connect s
  | Api_disconnect => exec fuel disconnect s
  | Api_dispose reason => exec fuel (dispose reason) s
  | Completes p r =>
      if (completes (originOf s p) r && negb (isCompleted (resultOf s p)))%bool
      then exec fuel (Complete p r skip) s
      else Done tt s
  | ConnectionState_becomes c st =>
      Done tt (set_world (set_connections
                 (update_nth c (set_state st) (connections (world s))) (world s)) s)
  | Timer_fires i =>
      match nth_error (timers (world s)) i with
      | Some (_, k) =>
          exec fuel (call k Pending ;; skip)
            (set_world (set_timers (remove_nth i (timers (world s))) (world s)) s)
      | None => Done tt s
      end
  | Clock_advances ms => Done tt (set_world (set_now (now (world s) + ms) (world s)) s)
  end.

(** The native [then] callbacks queued during a run are run after it, one
    after the other, until none is left ([n] bounds how many). *)
Fixpoint drain (n fuel : nat) (s : State) : option State :=
  match microtasks (world s) with
  | [] => Some s
  | k :: rest =>
      match n with
      | O => None
      | S n' =>
          match exec fuel (call k Pending)
                  (set_world (set_microtasks rest (world s)) s) with
          | Done _ s' => drain n' fuel s'
          | Thrown _ s' => drain n' fuel s'
          | OutOfFuel => None
          end
      end
  end.

(** One event: its run, then the queued callbacks.  The error an event
    throws is returned with the state it leaves. *)
Definition dispatch (fuel : nat) (e : Event) (s : State) : option (option string * State) :=
  match react fuel e s with
  | Done _ s' => option_map (fun s'' => (None, s'')) (drain fuel fuel s')
  | Thrown err s' => option_map (fun s'' => (Some err, s'')) (drain fuel fuel s')
  | OutOfFuel => None
  end.

Fixpoint run (fuel : nat) (es : list Event) (s : State) : option (list string * State) :=
  match es with
  | [] => Some ([], s)
  | e :: r =>
      match dispatch fuel e s with
      | Some (err, s') =>
          option_map (fun x => (match err with Some m => m :: fst x | None => fst x end,
                                snd x))
                     (run fuel r s')
      | None => None
      end
  end.

(** The state the constructor leaves: no promise stored, nothing disposed,
    a session that is not recognizing. *)
Definition newSession (audioSourceId : string) : RequestSession :=
  mkSession EmptyString EmptyString audioSourceId EmptyString 0 0 0 false false [].

Definition newCore (recognizerConfig : RecognizerConfig) (audioSourceId : string) : Core :=
  mkCore None None None None None false false (newSession audioSourceId)
    recognizerConfig [] [].

Definition newWorld (avgBytesPerSec : Z) (speechContextJson : string) : World :=
  mkWorld [] 0 0 [] [] [] avgBytesPerSec speechContextJson true false.

Definition initial (recognizerConfig : RecognizerConfig) (audioSourceId : string)
    (w : World) : State :=
  mkState (newCore recognizerConfig audioSourceId) w [].

End ServiceRecognizerBase.

Arguments Done {A} a s.
Arguments Thrown {A} e s.
Arguments OutOfFuel {A}.
Arguments exec {collaborators} fuel {A} m s.
Arguments execWith {collaborators} deeper {A} m s.
Arguments andThen {A B} o k.

(** *** Observations on a state *)

Definition sentOn (s : State) (c : ConnRef) : list (SpeechConnectionMessage * PromiseId) :=
  match nth_error (connections (world s)) c with
  | Some x => sent x
  | None => []
  end.

Definition framesOn (s : State) (c : ConnRef) : list SpeechConnectionMessage :=
  map fst (sentOn s c).

Definition isPath (ty : MessageType) (p : string) (m : SpeechConnectionMessage) : bool :=
  (match ty, messageType m with Text, Text | Binary, Binary => true | _, _ => false end
   && String.eqb (path m) p)%bool.

Definition countPath (ty : MessageType) (p : string) (s : State) (c : ConnRef) : nat :=
  List.length (filter (isPath ty p) (framesOn s c)).

(* ===================================================================== *)
(** ** Definitions used in the statements *)
(* ===================================================================== *)

Section Statements.

Context {collaborators : Collaborators}.

(** What runs the callbacks at a given fuel. *)
Definition deeperAt (fuel : nat) : forall A : Type, Prog A -> State -> Outcome A :=
  match fuel with
  | O => fun _ _ _ => OutOfFuel
  | S f => fun A => @exec _ f A
  end.

Definition authOrigin (isUnAuthorized : bool) (authFetchEventId : string) : Origin :=
  if isUnAuthorized then Ext_fetchOnExpiry authFetchEventId
  else Ext_fetch authFetchEventId.

(** The state a new attempt leaves: two fresh ids, a pending future of the
    authentication with the continuation subscribed, and the new deferral
    stored as the connection promise. *)
Definition attempted (isUnAuthorized : bool) (s : State) : State :=
  let authFetchEventId := guid (guids (world s)) in
  let connectionId := guid (S (guids (world s))) in
  let d := S (List.length (heap s)) in
  mkState
    (set_connectionPromise (Some d)
       (set_requestSession
          (Session.onPreConnectionStart authFetchEventId connectionId
             (privRequestSession (core s)))
          (set_connectionId (Some connectionId)
             (set_authFetchEventId (Some authFetchEventId) (core s)))))
    (set_guids (S (S (guids (world s)))) (world s))
    (heap s ++ [mkCell (authOrigin isUnAuthorized authFetchEventId) Pending
                  [H_continueWithPromise (ConnectImpl_onAuth isUnAuthorized) d];
                mkCell Internal Pending []]).

(** The state [connectImpl] leaves when it drops a stale connection promise:
    [privConnectionId] and [privConnectionPromise] are cleared. *)
Definition cleared (s : State) : State :=
  mkState (set_connectionPromise None (set_connectionId None (core s)))
    (world s) (heap s).

(** The stored connection promise is reused as it is: it is pending, or it
    holds a connection that is not [Disconnected]. *)
Definition reusable (s : State) (p : PromiseId) : Prop :=
  stale (world s) (resultOf s p) = false.

(** [s'] extends [s]: whatever was completed in [s] is completed alike in [s']. *)
Definition extends (s s' : State) : Prop :=
  forall p, resultOf s p <> Pending -> resultOf s' p = resultOf s p.

(** An outcome that leaves a state leaves one that extends [s]. *)
Definition keeps {A : Type} (s : State) (o : Outcome A) : Prop :=
  match o with
  | Done _ s' => extends s s'
  | Thrown _ s' => extends s s'
  | OutOfFuel => True
  end.

Definition handledPath (p : string) : bool :=
  (String.eqb p "turn.start" || String.eqb p "speech.startdetected"
   || String.eqb p "speech.enddetected" || String.eqb p "turn.end")%bool.

Definition hooked (m : SpeechConnectionMessage) (cb : Callbacks) (s : State) : State :=
  mkState (core s)
    (set_trace (trace (world s) ++ [Hook_processTypeSpecificMessages m cb]) (world s))
    (heap s).

(** The JSON handed to the parser: the body, or the default of the class
    when the body is empty. *)
Definition endDetectedJson (m : SpeechConnectionMessage) : string :=
  if Nat.ltb 0 (String.length (textBody m)) then textBody m else "{ Offset: 0 }".


(** The state in which a chunk has been taken: the device type is awaited
    (a new future of the audio source, the deferral of
    [isRealTimeAudioSource] and the one of the upload chained on it).
    Nothing has been sent. *)
Definition chunkTaken (pump : PumpRef) (connection : ConnRef) (chunk : StreamChunk)
    (payload : option Z) (sendDelay : Js.number) (s : State) : State :=
  let n := List.length (heap s) in
  mkState (core s) (world s)
    (heap s ++
       [ mkCell Ext_deviceInfo Pending
           [H_onSuccessContinueWith IsRealTime_onDeviceInfo (n + 1)];
         mkCell Internal Pending
           [H_onSuccessContinueWith
              (Pump_onIsRealTime pump connection chunk payload sendDelay) (n + 2)];
         mkCell Internal Pending [] ]).

(** The session has counted the bytes of a chunk. *)
Definition counted (n : Z) (s : State) : State :=
  mkState (set_requestSession (Session.onAudioSent n (privRequestSession (core s)))
             (core s))
    (world s) (heap s).

(** The frame has been handed to the transport, which returned a new
    future for it. *)
Definition handedOver (connection : ConnRef) (m : SpeechConnectionMessage)
    (s : State) : State :=
  mkState (core s)
    (set_connections
       (update_nth connection (record_sent m (List.length (heap s)))
          (connections (world s))) (world s))
    (heap s ++ [mkCell (Ext_send connection) Pending []]).

(** The session has been told that the audio ended. *)
Definition speechEnded (s : State) : State :=
  mkState (set_requestSession (Session.onSpeechEnded (privRequestSession (core s)))
             (core s))
    (world s) (heap s).

(** [nextSendTime] of the pump has been set after a payload of [byteLength]. *)
Definition paced (pump : PumpRef) (byteLength : Z) (s : State) : State :=
  mkState
    (set_pumps
       (update_nth pump
          (set_nextSendTime
             (nextSendTimeAfter (now (world s)) byteLength (avgBytesPerSec (world s))))
          (pumps (core s)))
       (core s))
    (world s) (heap s).

(** A timer has been set. *)
Definition scheduled (delay : Js.number) (callback : Closure) (s : State) : State :=
  mkState (core s) (set_timers (timers (world s) ++ [(delay, callback)]) (world s))
    (heap s).

(** The next cycle has been chained on the upload [uploaded], the promise
    allocated last. *)
Definition chained (pump : PumpRef) (s : State) : State :=
  let uploaded := (List.length (heap s) - 1)%nat in
  subscribe uploaded (H_continueWith (Pump_onUploadedRealTime pump) (List.length (heap s)))
    (allocate Internal Pending s).

(** The local variables of a new [sendAudio] call. *)
Definition newPump (audioStreamNode : string) (s : State) : Pump :=
  mkPump (List.length (heap s)) (Js.of_Z (now (world s)))
    (unthrottledBudget (avgBytesPerSec (world s))
       (getPropertyOr (parameters (privRecognizerConfig (core s)))
          "SPEECH-TransmitLengthBeforThrottleMs" "5000"))
    (recogNumber (privRequestSession (core s))) audioStreamNode.

Definition pumpCreated (audioStreamNode : string) (s : State) : State :=
  mkState (set_pumps (pumps (core s) ++ [newPump audioStreamNode s]) (core s))
    (world s) (heap s ++ [mkCell Internal Pending []]).

(** The JSON [sendSpeechServiceConfig] sends. *)
Definition configJson (s : State) : string :=
  let json := serialize (speechServiceConfig (privRecognizerConfig (core s))) in
  if negb (telemetryDataEnabled (world s)) then systemContextOnly json else json.

Definition configFrame (s : State) : SpeechConnectionMessage :=
  mkMessage Text "speech.config" (sessionRequestId (privRequestSession (core s)))
    (Some "application/json") (TextBody (configJson s)).

Definition contextFrame (s : State) : SpeechConnectionMessage :=
  mkMessage Text "speech.context" (sessionRequestId (privRequestSession (core s)))
    (Some "application/json") (TextBody (speechContextJson (world s))).

(** A new configuration over an established connection: the future [n] of
    the configuration, the future [n + 1] of the [speech.config] send with
    the rest of the configuration chained on its success, and the deferral
    [n + 2] of that rest, which feeds [n]. *)
Definition configuring (connection : ConnRef) (s : State) : State :=
  let n := List.length (heap s) in
  mkState
    (set_configurationPromise (Some n)
       (set_speechServiceConfigConnectionId (privConnectionId (core s)) (core s)))
    (set_connections
       (update_nth connection (record_sent (configFrame s) (n + 1))
          (connections (world s))) (world s))
    (heap s ++
       [ mkCell Internal Pending [];
         mkCell (Ext_send connection) Pending
           [H_onSuccessContinueWithPromise (Configure_onConfigSent connection) (n + 2)];
         mkCell Internal Pending [H_forward n] ]).

(** The stored future of the configuration, if any, is not reusable. *)
Definition unconfigured (s : State) : Prop :=
  match privConnectionConfigurationPromise (core s) with
  | Some p => stale (world s) (resultOf s p) = true
  | None => True
  end.

(** The stored future of the configuration has been dropped. *)
Definition unset (s : State) : State :=
  mkState (set_configurationPromise None (core s)) (world s) (heap s).

(** The rest of a configuration, run when the [speech.config] send
    succeeded: [speech.context] is handed over (future [n]), and the end of
    the configuration is chained on its success. *)
Definition contextSent (connection : ConnRef) (s : State) : State :=
  let n := List.length (heap s) in
  mkState (core s)
    (set_connections
       (update_nth connection (record_sent (contextFrame s) n)
          (connections (world s))) (world s))
    (heap s ++
       [ mkCell (Ext_send connection) Pending
           [H_onSuccessContinueWith (Configure_onContextSent connection) (n + 1)];
         mkCell Internal Pending [] ]).

(** The two cases in which [connectImpl] gives up a stored future [p], read
    off the promise heap: [p] is completed and [result().isError]; [p] is
    completed with a connection and
    [result().result.state() === ConnectionState.Disconnected]. *)
Definition completedWithError (s : State) (p : PromiseId) : Prop :=
  exists e, resultOf s p = Rejected e.

Definition resolvedToDisconnected (s : State) (p : PromiseId) : Prop :=
  exists c, resultOf s p = Resolved (VConnection c)
            /\ stateOf (world s) c = Disconnected.

(** [deviceInfo.type === AudioDeviceType.Microphones]. *)
Definition isMicrophones (type : AudioDeviceType) : bool :=
  match type with
  | Microphones => true
  | Speakers | File | Stream | Unknown => false
  end.

(** Promise [p] is pending, with the callbacks [hs] chained on it. *)
Definition waiting (s : State) (p : PromiseId) (hs : list Handler) : Prop :=
  exists o, nth_error (heap s) p = Some (mkCell o Pending hs).

End Statements.

(* ===================================================================== *)
(** ** The order of the frames on a connection *)
(* ===================================================================== *)

Definition isConfig (m : SpeechConnectionMessage) : bool := isPath Text "speech.config" m.

Definition isContext (m : SpeechConnectionMessage) : bool := isPath Text "speech.context" m.

Definition isBinary (m : SpeechConnectionMessage) : bool :=
  match messageType m with Binary => true | Text => false end.

(** The future [p] of a send has resolved: the transport took the frame. *)
Definition acceptedIn (s : State) (p : PromiseId) : bool :=
  match resultOf s p with Resolved _ => true | _ => false end.

(** Among the frames [log], one of the given kind has been accepted. *)
Definition acceptedAmong (s : State) (kind : SpeechConnectionMessage -> bool)
    (log : list (SpeechConnectionMessage * PromiseId)) : Prop :=
  exists m p, In (m, p) log /\ kind m = true /\ acceptedIn s p = true.

(** The frames handed to connection [c] are in order: the first one is a
    [speech.config]; when a [speech.context] is handed over, the future of
    an earlier [speech.config] has resolved; when a Binary frame is handed
    over, the future of an earlier [speech.context] has resolved. *)
Definition ordered (s : State) (c : ConnRef) : Prop :=
  forall before m p rest,
    sentOn s c = before ++ (m, p) :: rest ->
    (before = [] -> isConfig m = true)
    /\ (isContext m = true -> acceptedAmong s isConfig before)
    /\ (isBinary m = true -> acceptedAmong s isContext before).

Definition configAccepted (s : State) (c : ConnRef) : Prop :=
  acceptedAmong s isConfig (sentOn s c).

(** Both [speech.config] and [speech.context] have been accepted on [c]. *)
Definition configured (s : State) (c : ConnRef) : Prop :=
  configAccepted s c /\ acceptedAmong s isContext (sentOn s c).

(** The futures of [connectImpl] carry connections on which nothing may have
    been sent yet; [R] tells, promise by promise, which ones these are. *)
Definition raw (R : list bool) (p : PromiseId) : bool := nth p R false.

(** Connection [c] exists. *)
Definition valid (s : State) (c : ConnRef) : Prop :=
  (c < List.length (connections (world s)))%nat.

Definition known (R : list bool) (p : PromiseId) : Prop := (p < List.length R)%nat.

(** [p] never carries a connection that is not configured. *)
Definition plain (R : list bool) (p : PromiseId) : Prop := known R p /\ raw R p = false.

(** [p] may carry a connection on which nothing has been sent. *)
Definition wild (R : list bool) (p : PromiseId) : Prop := known R p /\ raw R p = true.

(** The frame whose send returned [p] on connection [c] is of the given kind. *)
Definition sentAs (s : State) (c : ConnRef) (p : PromiseId)
    (kind : SpeechConnectionMessage -> bool) : Prop :=
  exists m, In (m, p) (sentOn s c) /\ kind m = true.

(** The callbacks that return such a future. *)
Definition isRawSource (k : Closure) : bool :=
  match k with
  | ConnectImpl_onAuth _ | ConnectImpl_onOpen _ _ => true
  | _ => false
  end.

(** What a callback relies on when it is called with [arg]. *)
Definition cpre (s : State) (k : Closure) (arg : PromiseResult) : Prop :=
  match k with
  | ConnectImpl_onOpen _ c => valid s c
  | Configure_onConnection =>
      match arg with
      | Resolved (VConnection c) => valid s c
      | _ => True
      end
  | Configure_onConfigSent c => configAccepted s c
  | Configure_onContextSent c => configured s c
  | Pump_onChunk _ c => configured s c
  | Pump_onIsRealTime _ c _ _ _ => configured s c
  | Pump_onConnection _ | Telemetry_onConnection _ | TurnEnd_onConnection
  | FinalAudio_onConnection _ =>
      match arg with
      | Resolved (VConnection c) => configured s c
      | _ => True
      end
  | _ => True
  end.

(** The callbacks that rely on nothing. *)
Definition anyOutcome (k : Closure) : bool :=
  match k with
  | ConnectImpl_onOpen _ _ | Configure_onConnection => false
  | Configure_onConfigSent _ | Configure_onContextSent _ | Pump_onChunk _ _
  | Pump_onIsRealTime _ _ _ _ _ | Pump_onConnection _ | Telemetry_onConnection _
  | TurnEnd_onConnection | FinalAudio_onConnection _ => false
  | _ => true
  end.

(** What entitles a callback to be chained on the success of promise [p]. *)
Definition cok (R : list bool) (s : State) (p : PromiseId) (k : Closure) : Prop :=
  match k with
  | ConnectImpl_onOpen _ c => valid s c
  | Configure_onConfigSent c => sentAs s c p isConfig
  | Configure_onContextSent c => configAccepted s c /\ sentAs s c p isContext
  | Pump_onChunk _ c => configured s c
  | Pump_onIsRealTime _ c _ _ _ => configured s c
  | Pump_onConnection _ | Telemetry_onConnection _ | TurnEnd_onConnection
  | FinalAudio_onConnection _ => plain R p
  | _ => True
  end.

(** The deferral [d] may take what [k] returns. *)
Definition takes (R : list bool) (k : Closure) (d : PromiseId) : Prop :=
  known R d /\ (isRawSource k = true -> raw R d = true).

Definition hok (R : list bool) (s : State) (p : PromiseId) (h : Handler) : Prop :=
  match h with
  | H_on success error => cok R s p success /\ anyOutcome error = true
  | H_continueWith k d => anyOutcome k = true /\ takes R k d
  | H_onSuccessContinueWith k d => cok R s p k /\ takes R k d
  | H_continueWithPromise k d => anyOutcome k = true /\ takes R k d
  | H_onSuccessContinueWithPromise k d => cok R s p k /\ takes R k d
  | H_forward d => known R d /\ (raw R d = false -> plain R p)
  end.

(** What a callback returns. *)
Definition cret (R : list bool) (s : State) (k : Closure) (v : Value) : Prop :=
  match v with
  | VConnection c => configured s c
  | VPromise q => known R q /\ (isRawSource k = false -> raw R q = false)
  | _ => True
  end.

(** The value [r] may complete promise [p]. *)
Definition fits (R : list bool) (s : State) (p : PromiseId) (r : PromiseResult) : Prop :=
  forall c, r = Resolved (VConnection c) ->
            valid s c /\ (raw R p = false -> configured s c).

(** A frame may be handed to connection [c]. *)
Definition mayFollow (s : State) (c : ConnRef) (m : SpeechConnectionMessage) : Prop :=
  isConfig m = true
  \/ (isBinary m = false /\ configAccepted s c)
  \/ configured s c.

(** The promises the fields of [c] hold. *)
Definition coreOK (R : list bool) (c : Core) : Prop :=
  (forall p, privConnectionConfigurationPromise c = Some p -> plain R p)
  /\ (forall p, privConnectionPromise c = Some p -> known R p).

Definition logOf (w : World) (c : ConnRef) : list (SpeechConnectionMessage * PromiseId) :=
  match nth_error (connections w) c with
  | Some x => sent x
  | None => []
  end.

(** There is a speech context to send, and the callbacks that wait for a
    timer or for the end of the run rely on nothing. *)
Definition quiet (w : World) : Prop :=
  Js.truthy (speechContextJson w) = true
  /\ (forall d k, In (d, k) (timers w) -> anyOutcome k = true)
  /\ (forall k, In k (microtasks w) -> anyOutcome k = true).

(** The world [w] may replace the one of [s]. *)
Definition worldOK (s : State) (w : World) : Prop :=
  quiet w
  /\ (List.length (connections (world s)) <= List.length (connections w))%nat
  /\ (forall c, logOf w c = sentOn s c
                \/ exists m p, logOf w c = sentOn s c ++ [(m, p)] /\ mayFollow s c m).

(** The invariant of the class. *)
Record Inv (R : list bool) (s : State) : Prop := mkInv {
  inv_length : List.length R = List.length (heap s);
  inv_ordered : forall c, ordered s c;
  inv_values : forall p, fits R s p (resultOf s p);
  inv_handlers : forall p h, In h (handlersOf s p) -> hok R s p h;
  inv_world : quiet (world s);
  inv_core : coreOK R (core s);
}.

(** [s'] comes after [s]: completed promises are as they were, and every
    log has at most grown. *)
Definition grows (s s' : State) : Prop :=
  extends s s'
  /\ (forall c, valid s c -> valid s' c)
  /\ forall c, exists more, sentOn s' c = sentOn s c ++ more.

Definition later (R : list bool) (s : State) (R' : list bool) (s' : State) : Prop :=
  (exists more, R' = R ++ more) /\ grows s s'.

(** What a run from [s] leaves: a later state that satisfies the invariant,
    and [Q] if it returns. *)
Definition post {A : Type} (R : list bool) (s : State)
    (Q : A -> list bool -> State -> Prop) (o : Outcome A) : Prop :=
  match o with
  | Done a s' => exists R', later R s R' s' /\ Inv R' s' /\ Q a R' s'
  | Thrown _ s' => exists R', later R s R' s' /\ Inv R' s'
  | OutOfFuel => True
  end.

Section Triples.

Context {collaborators : Collaborators}.

Definition wp (deeper : forall A : Type, Prog A -> State -> Outcome A)
    {A : Type} (m : Prog A) (Q : A -> list bool -> State -> Prop)
    (R : list bool) (s : State) : Prop :=
  post R s Q (execWith deeper m s).

(** The callbacks [runner] runs keep the invariant. *)
Definition sound (runner : forall A : Type, Prog A -> State -> Outcome A) : Prop :=
  (forall k arg R s, Inv R s -> cpre s k arg ->
     post R s (fun v R' s' => cret R' s' k v) (runner _ (call k arg) s))
  /\ (forall p hs r R s, Inv R s -> (forall h, In h hs -> hok R s p h) ->
        resultOf s p = r -> r <> Pending ->
        post R s (fun _ _ _ => True) (runner _ (runHandlers hs r) s))
  /\ (forall p h r R s, Inv R s -> hok R s p h ->
        resultOf s p = r -> r <> Pending ->
        post R s (fun _ _ _ => True) (runner _ (runHandler h r) s)).

(** Serialized JSON is never the empty string. *)
Definition serializes : Prop :=
  (forall cfg, Js.truthy (serialize cfg) = true)
  /\ (forall json, Js.truthy (systemContextOnly json) = true).

End Triples.

(* ===================================================================== *)
(** ** What the fields never do *)
(* ===================================================================== *)

(** [steady G m Q c0]: run from a state whose fields are [c0], every write
    of [m] to the fields takes them from [c] to some [c'] with [G c c'], and
    [Q] holds of the result and the fields when [m] returns.  The callbacks
    a completed promise runs are taken to move the fields along [G] too. *)
Fixpoint steady (G : Core -> Core -> Prop) {A : Type} (m : Prog A)
    (Q : A -> Core -> Prop) (c0 : Core) : Prop :=
  match m with
  | Ret a => Q a c0
  | Throw _ => True
  | GetCore k => steady G (k c0) Q c0
  | PutCore c k => G c0 c /\ steady G k Q c
  | GetWorld k => forall w, steady G (k w) Q c0
  | PutWorld _ k => steady G k Q c0
  | NewPromise _ _ k => forall p, steady G (k p) Q c0
  | GetResult _ k => forall r, steady G (k r) Q c0
  | Complete _ _ k => forall c1, G c0 c1 -> steady G k Q c1
  | Subscribe _ _ k => forall c1, G c0 c1 -> steady G k Q c1
  | Invoke _ _ k => forall c1, G c0 c1 -> forall o, steady G (k o) Q c1
  end.

(** What a run that starts with the fields [c0] leaves. *)
Definition steadyPost (G : Core -> Core -> Prop) {A : Type} (c0 : Core)
    (Q : A -> Core -> Prop) (o : Outcome A) : Prop :=
  match o with
  | Done a s' => G c0 (core s') /\ Q a (core s')
  | Thrown _ s' => G c0 (core s')
  | OutOfFuel => True
  end.

Definition anything {A : Type} : A -> Core -> Prop := fun _ _ => True.

(** Every pump was started in the current recognition or in an earlier
    one. *)
Definition pumpsBounded (c : Core) : Prop :=
  Forall (fun x => (startRecogNumber x <= recogNumber (privRequestSession c))%Z) (pumps c).

(** What no write of the class undoes: the core stays disposed; unless
    [recognize()] is called ([again]), a session that is not recognizing
    stays so; the number of the recognition never decreases; the pumps stay
    bounded by it. *)
Definition kept (again : bool) (c c' : Core) : Prop :=
  (privIsDisposed c = true -> privIsDisposed c' = true)
  /\ (again = false ->
      isRecognizing (privRequestSession c) = false ->
      isRecognizing (privRequestSession c') = false)
  /\ (recogNumber (privRequestSession c) <= recogNumber (privRequestSession c'))%Z
  /\ (pumpsBounded c -> pumpsBounded c').

(** The events that call [recognize()]. *)
Definition isRecognizeCall (e : Event) : bool :=
  match e with
  | Api_recognize _ _ => true
  | _ => false
  end.

(** The state an outcome leaves, if any, is related to [c0]. *)
Definition leaves {A : Type} (again : bool) (c0 : Core) (o : Outcome A) : Prop :=
  steadyPost (kept again) c0 anything o.

Section Steady.

Context {collaborators : Collaborators}.

(** The callbacks [runner] runs move the fields along [G]. *)
Definition steadyRunner (G : Core -> Core -> Prop)
    (runner : forall A : Type, Prog A -> State -> Outcome A) : Prop :=
  (forall k arg s, steadyPost G (core s) anything (runner _ (call k arg) s))
  /\ (forall hs r s, steadyPost G (core s) anything (runner _ (runHandlers hs r) s))
  /\ (forall h r s, steadyPost G (core s) anything (runner _ (runHandler h r) s)).

End Steady.

(* ===================================================================== *)
(** ** States used in the further properties *)
(* ===================================================================== *)

(** [privIsDisposed] has been set. *)
Definition flagged (s : State) : State :=
  mkState (set_isDisposed true (core s)) (world s) (heap s).

(** [connection.dispose(reason)] has been called. *)
Definition disposedOf (c : ConnRef) (reason : option string) (s : State) : State :=
  mkState (core s)
    (set_trace (trace (world s) ++ [Connection_dispose c reason]) (world s))
    (heap s).

(** A deferral has been created and completed with [r] before anything was
    chained on it. *)
Definition settled (r : PromiseResult) (s : State) : State := allocate Internal r s.

(** A deferral has been created for the callback [h] chains on promise [p],
    which is pending. *)
Definition chainedOn (p : PromiseId) (h : PromiseId -> Handler) (s : State) : State :=
  subscribe p (h (List.length (heap s))) (allocate Internal Pending s).

(** [disconnect()] has disposed of connection [c] and dropped the stored
    connection promise. *)
Definition dropped (c : ConnRef) (s : State) : State :=
  mkState (set_connectionPromise None (core s))
    (set_trace (trace (world s) ++ [Connection_dispose c None]) (world s))
    (heap s).

(** [getTelemetry()] has been called: the buffer of the session is empty. *)
Definition flushed (s : State) : State :=
  mkState
    (set_requestSession (snd (Session.getTelemetry (privRequestSession (core s))))
       (core s))
    (world s) (heap s).

(** The guard of [sendTelemetryData]: telemetry is switched off, or the
    core is disposed, or [getTelemetry()] returned [null]. *)
Definition nothingToReport (s : State) : bool :=
  (negb (telemetryDataEnabled (world s))
   || privIsDisposed (core s)
   || match fst (Session.getTelemetry (privRequestSession (core s))) with
      | None => true
      | Some _ => false
      end)%bool.

(** [sendFinalAudio] on a configured connection [c]: its deferral [d], then
    the empty audio frame handed over, with the completion of [d] chained
    on the future of the send. *)
Definition finalAudioSent (c : ConnRef) (s : State) : State :=
  let d := List.length (heap s) in
  subscribe (d + 1) (H_on (FinalAudio_onSent d) (FinalAudio_onError d))
    (handedOver c (audioFrame (sessionRequestId (privRequestSession (core s))) None)
       (allocate Internal Pending s)).

(** The session has been through [f]. *)
Definition inSession (f : RequestSession -> RequestSession) (s : State) : State :=
  mkState (set_requestSession (f (privRequestSession (core s))) (core s))
    (world s) (heap s).

(** The collaborator or hook call [e] has been made. *)
Definition traced (e : Effect) (s : State) : State :=
  mkState (core s) (set_trace (trace (world s) ++ [e]) (world s)) (heap s).

Definition telemetryFrame (json : string) (s : State) : SpeechConnectionMessage :=
  mkMessage Text "telemetry" (sessionRequestId (privRequestSession (core s)))
    (Some "application/json") (TextBody json).

(** [sendTelemetryData] while the stored configuration holds connection
    [c]: the buffer of the session is emptied; if there is something to
    report, the static hook is called when it is set, the [telemetry] frame
    is handed to [c], and the future returned (the promise allocated
    first) is resolved with the future of the send. *)
Definition reported (c : ConnRef) (s : State) : State :=
  match fst (Session.getTelemetry (privRequestSession (core s))) with
  | Some json =>
      if (negb (telemetryDataEnabled (world s)) || privIsDisposed (core s))%bool
      then settled (Resolved (VBool true)) (flushed s)
      else
        let n := List.length (heap s) in
        let s1 := if telemetryDataHook (world s)
                  then traced (Hook_telemetryData json) (flushed s)
                  else flushed s in
        complete n (Resolved (VPromise (n + 1)))
          (handedOver c (telemetryFrame json s1) (allocate Internal Pending s1))
  | None => settled (Resolved (VBool true)) (flushed s)
  end.

(** [stopRecognizing()] while recognizing, with the stored configuration
    holding connection [c]: the session is told, telemetry is reported,
    the audio source is turned off, the empty audio frame is sent, and the
    session is disposed of. *)
Definition stoppedOn (c : ConnRef) (s : State) : State :=
  inSession Session.dispose
    (finalAudioSent c
       (traced AudioSource_turnOff
          (reported c (inSession Session.onStopRecognizing s)))).

(** The stored configuration holds connection [c], which the transport has
    not reported as [Disconnected]. *)
Definition configuredOn (s : State) (c : ConnRef) : Prop :=
  exists q, privConnectionConfigurationPromise (core s) = Some q
            /\ resultOf s q = Resolved (VConnection c)
            /\ stateOf (world s) c <> Disconnected.

(** [cancelRecognitionLocal] with the stored configuration holding
    connection [c]: nothing when the session is not recognizing; otherwise
    the session is told to stop, telemetry is reported, and the hook
    [cancelRecognition] of the subclass is called. *)
Definition canceled (reason : CancellationReason) (code : CancellationErrorCode)
    (error : option string) (cancelRecoCallback : option Callback) (c : ConnRef)
    (s : State) : State :=
  if isRecognizing (privRequestSession (core s)) then
    let s1 := reported c (inSession Session.onStopRecognizing s) in
    traced (Hook_cancelRecognition (sessionId (privRequestSession (core s1)))
              (sessionRequestId (privRequestSession (core s1)))
              reason code error cancelRecoCallback) s1
  else s.

(** The end of stream has been reported: [privMustReportEndOfStream] is
    cleared. *)
Definition reportedEnd (s : State) : State :=
  mkState (set_mustReportEndOfStream false (core s)) (world s) (heap s).

(** [turn.end] is the last one: the recognition is single-shot, or the
    audio has ended. *)
Definition lastTurn (s : State) : bool :=
  (negb (isContinuousRecognition (privRecognizerConfig (core s)))
   || isSpeechEnded (privRequestSession (core s)))%bool.

(** What the last [turn.end] leaves, with the stored configuration holding
    connection [c]: telemetry is reported; if the audio has ended after a
    [turn.start], the end of stream is reported through the local
    cancellation; the session is told that the turn has ended and
    [sessionStopped] is raised. *)
Definition turnEnded (cb : Callbacks) (c : ConnRef) (s : State) : State :=
  let s1 := reported c s in
  let s2 := if (isSpeechEnded (privRequestSession (core s1))
                && privMustReportEndOfStream (core s1))%bool
            then canceled ReasonEndOfStream NoError None (successCallback cb) c
                   (reportedEnd s1)
            else s1 in
  traced (Recognizer_sessionStopped (sessionId (privRequestSession (core s2))))
    (inSession
       (Session.onServiceTurnEndResponse
          (isContinuousRecognition (privRecognizerConfig (core s2)))
          (sessionRequestId (privRequestSession (core s2))))
       s2).

(* ===================================================================== *)
(** ** A concrete setting for the examples *)
(* ===================================================================== *)

(** The bodies of the examples are JSON objects whose only member is
    [Offset], a whole number.  The reader below accepts these, with white
    space where JSON allows it, and nothing else; like [JSON.parse], it
    refuses an empty text and a key that is not quoted. *)
Definition quote : ascii := ascii_of_nat 34.

(** The rest of [s] after white space and the character [c]. *)
Definition expect (c : ascii) (s : string) : option string :=
  match Js.skip_spaces s with
  | String d r => if Ascii.eqb c d then Some r else None
  | EmptyString => None
  end.

(** The rest of [s] after [word]. *)
Fixpoint literally (word s : string) : option string :=
  match word, s with
  | EmptyString, _ => Some s
  | String c w, String d r => if Ascii.eqb c d then literally w r else None
  | String _ _, EmptyString => None
  end.

(** The digits at the head of [s] and what follows them. *)
Fixpoint digits (s : string) (acc : Z) (seen : bool) : option (Z * string) :=
  match s with
  | String c r =>
      if Js.is_digit c then digits r (acc * 10 + Js.digit_value c) true
      else if seen then Some (acc, s) else None
  | EmptyString => if seen then Some (acc, s) else None
  end.

(** A JSON integer: an optional minus sign, then [0] or digits that do not
    start with [0]. *)
Definition integer (s : string) : option (Z * string) :=
  let unsigned (r : string) :=
    match r with
    | String "0" (String d _ as rest) =>
        if Js.is_digit d then None else Some (0, rest)
    | _ => digits r 0 false
    end in
  match s with
  | String "-" r =>
      match unsigned r with
      | Some (n, rest) => Some (- n, rest)
      | None => None
      end
  | _ => unsigned s
  end.

Definition readOffset (json : string) : option Z :=
  match expect "{" json with
  | Some r1 =>
      match expect quote r1 with
      | Some r2 =>
          match literally ("Offset" ++ String quote EmptyString) r2 with
          | Some r3 =>
              match expect ":" r3 with
              | Some r4 =>
                  match integer (Js.skip_spaces r4) with
                  | Some (n, r5) =>
                      match expect "}" r5 with
                      | Some r6 =>
                          match Js.skip_spaces r6 with
                          | EmptyString => Some n
                          | String _ _ => None
                          end
                      | None => None
                      end
                  | None => None
                  end
              | None => None
              end
          | None => None
          end
      | None => None
      end
  | None => None
  end.

(** The body [{"Offset": n}]. *)
Definition offsetJson (n : Z) : string :=
  "{" ++ String quote ("Offset" ++ String quote (": " ++ Js.string_of_Z n ++ "}")).

#[local] Instance demo : Collaborators := {
  SpeechDetected_fromJSON := readOffset;
  serialize := fun _ => "{ context }";
  systemContextOnly := fun _ => "{ context: { system } }";
}.

Definition demoConfig (m : RecognitionMode) : RecognizerConfig :=
  mkRecognizerConfig m [] (mkSpeechServiceConfig None).

Definition demoCallbacks : Callbacks := mkCallbacks (Some 1%nat) (Some 2%nat).

(** 16 kHz, 16 bit, mono: 32000 bytes per second. *)
Definition demoInitial (m : RecognitionMode) : State :=
  initial (demoConfig m) "source" (newWorld 32000 "{ grammar }").

(** *** Scripts *)

Definition accepted : PromiseResult := Resolved (VBool true).

Definition textMessage (p request json : string) : PromiseResult :=
  Resolved (VMessage (Some (mkMessage Text p request (Some "application/json")
                              (TextBody json)))).

Definition audioChunk (n : Z) : PromiseResult := Resolved (VChunk (mkChunk n false)).

Definition endOfAudio : PromiseResult := Resolved (VChunk (mkChunk 0 true)).

(** The state a script leaves (the initial one when it cannot be run). *)
Definition after (es : list Event) (s : State) : State :=
  match run 40 es s with
  | Some (_, s') => s'
  | None => s
  end.

(** [recognize] up to the point where both loops wait: authentication (0)
    succeeds, the connection opens with 200 (4), the audio node attaches
    (2), the device is a file (7), [speech.config] (10) and
    [speech.context] (13) are accepted.  Left pending: the read of the
    receive loop (15) and the read of the pump (18), whose future is 17. *)
Definition handshake (m : RecognitionMode) : list Event :=
  [ Api_recognize m demoCallbacks;
    Completes 0 (Resolved (VAuthInfo "token"));
    ConnectionState_becomes 0 Connected;
    Completes 4 (Resolved (VOpenResponse 200 "OK"));
    Completes 2 (Resolved (VAudioNode "node"));
    Completes 7 (Resolved (VDeviceInfo File));
    Completes 10 accepted;
    Completes 13 accepted ].

Definition streaming (m : RecognitionMode) : State :=
  after (handshake m) (demoInitial m).

(** The request id of the first turn and of the second one. *)
Definition request1 : string := guid 1%nat.
Definition request2 : string := guid 5%nat.

(** A second [recognize] while the first connection is still connected:
    the audio node attaches (21), the device is a file (23). *)
Definition recognizeAgain : list Event :=
  [ Api_recognize SingleShot demoCallbacks;
    Completes 21 (Resolved (VAudioNode "node"));
    Completes 23 (Resolved (VDeviceInfo File)) ].

(** The service closes the first turn of a continuous recognition. *)
Definition firstTurnEnds : list Event :=
  [ Completes 15 (textMessage "turn.start" request1 EmptyString);
    Completes 21 (textMessage "turn.end" request1 EmptyString) ].

(** ... and the pump, which was waiting for audio, gets a chunk (18) and
    the device type (29), and uploads. *)
Definition thenAudio : list Event :=
  [ Completes 18 (audioChunk 3200);
    Completes 29 (Resolved (VDeviceInfo File)) ].

(** The user stops while a chunk is on its way: the chunk (18) is uploaded
    after the device type (21) is known, the user stops, the pacing timer
    fires and the upload (24) is accepted, which starts the next cycle. *)
Definition stoppedWhileStreaming : list Event :=
  [ Completes 18 (audioChunk 3200);
    Completes 21 (Resolved (VDeviceInfo File));
    Api_stopRecognizing;
    Timer_fires 0%nat;
    Completes 24 accepted ].

(** The audio ends: the last chunk (18), then the device type (21). *)
Definition audioEnds : list Event :=
  [ Completes 18 endOfAudio;
    Completes 21 (Resolved (VDeviceInfo File)) ].

(** [connect], authentication succeeds (0), the transport answers 403 (2). *)
Definition forbidden : list Event :=
  [ Api_connect;
    Completes 0 (Resolved (VAuthInfo "token"));
    Completes 2 (Resolved (VOpenResponse 403 "Forbidden")) ].

(** ... and 200 instead. *)
Definition opened : list Event :=
  [ Api_connect;
    Completes 0 (Resolved (VAuthInfo "token"));
    ConnectionState_becomes 0 Connected;
    Completes 2 (Resolved (VOpenResponse 200 "OK")) ].

(** Two turns of a continuous recognition, each with a
    [speech.enddetected] at offset 10 000 000. *)
Definition twoTurns : list Event :=
  [ Completes 15 (textMessage "turn.start" request1 EmptyString);
    Completes 21 (textMessage "speech.enddetected" request1 (offsetJson 10000000));
    Completes 23 (textMessage "turn.end" request1 EmptyString);
    Completes 29 (textMessage "turn.start" request2 EmptyString);
    Completes 31 (textMessage "speech.enddetected" request2 (offsetJson 10000000)) ].

(** The termination conditions of the upstream pump, for the pump whose
    local variables are [x]. *)
Definition terminated (c : Core) (x : Pump) : bool :=
  (privIsDisposed c
   || isSpeechEnded (privRequestSession c)
   || negb (isRecognizing (privRequestSession c))
   || negb (recogNumber (privRequestSession c) =? startRecogNumber x))%bool.

Definition pumpFuture (s : State) (pump : PumpRef) : option PromiseId :=
  option_map deferred (nth_error (pumps (core s)) pump).

(** The user has stopped, the last upload was accepted and the next cycle
    has been entered. *)
Definition stopped : State :=
  after (handshake SingleShot ++ stoppedWhileStreaming) (demoInitial SingleShot).

Definition isFetchOnExpiry (o : Origin) : bool :=
  match o with Ext_fetchOnExpiry _ => true | _ => false end.

(** The futures of collaborators that are still to be completed. *)
Definition awaited (s : State) : list Origin :=
  map origin
    (filter (fun c => match origin c, result c with
                      | Internal, _ => false
                      | _, Pending => true
                      | _, _ => false
                      end) (heap s)).

Definition refused : State := after forbidden (demoInitial SingleShot).

Definition turnEndMessage : SpeechConnectionMessage :=
  mkMessage Text "turn.end" request1 (Some "application/json") (TextBody EmptyString).

Definition secondTurn : State :=
  after (handshake Continuous ++ firstTurnEnds) (demoInitial Continuous).

(** A connection is open and nothing else has happened. *)
Definition connected : State := after opened (demoInitial SingleShot).

(** [recognize()] was called a second time over the connection of the
    first, and the configuration of the second recognition has begun. *)
Definition reconfigured : State :=
  after (handshake SingleShot ++ recognizeAgain) (demoInitial SingleShot).

(** The second turn of a continuous recognition has begun and the pump has
    uploaded a chunk in it. *)
Definition secondTurnAudio : State :=
  after (handshake Continuous ++ firstTurnEnds ++ thenAudio) (demoInitial Continuous).

(** Two turns have been heard. *)
Definition afterTwoTurns : State :=
  after (handshake Continuous ++ twoTurns) (demoInitial Continuous).

(** The audio has ended. *)
Definition ended : State :=
  after (handshake SingleShot ++ audioEnds) (demoInitial SingleShot).

(** A source of 8008 bytes per second, whose first two chunks of 20020
    bytes (18, then 26) fill the budget 8008 * 5000 / 1000 = 40040 exactly;
    the first upload (24) is accepted at once. *)
Definition oddRate : State :=
  initial (demoConfig SingleShot) "source" (newWorld 8008 "{ grammar }").

Definition fillsTheBudget : list Event :=
  [ Completes 18 (audioChunk 20020);
    Completes 21 (Resolved (VDeviceInfo File));
    Timer_fires 0%nat;
    Completes 24 accepted;
    Completes 26 (audioChunk 20020);
    Completes 27 (Resolved (VDeviceInfo File)) ].

Definition budgetFilled : State :=
  after (handshake SingleShot ++ fillsTheBudget) oddRate.

(** What is known of a frame in a log: path, request id, future, and
    whether the transport has accepted it. *)
Definition status (s : State) (x : SpeechConnectionMessage * PromiseId)
  : string * string * PromiseResult :=
  (path (fst x), requestId (fst x), resultOf s (snd x)).


(** The last chunk has arrived and the device type is awaited. *)
Definition lastChunkTaken : State :=
  after [Completes 18 endOfAudio] (streaming SingleShot).

(** The pump of the demo: future 17, started at time 0 with the budget of
    32000 bytes per second, in recognition 1, on the node ["node"]. *)
Definition demoPump : Pump := mkPump 17 0%float 160000%float 1 "node".

(** [recognize()] has been called again; the configuration of the new
    recognition has not begun. *)
Definition recognizedAgain : State :=
  after (handshake SingleShot ++ [Api_recognize SingleShot demoCallbacks])
    (demoInitial SingleShot).

(** [speech.config] has been handed over and is not accepted yet. *)
Definition configSent : State :=
  after [ Api_recognize SingleShot demoCallbacks;
          Completes 0 (Resolved (VAuthInfo "token"));
          ConnectionState_becomes 0 Connected;
          Completes 4 (Resolved (VOpenResponse 200 "OK"));
          Completes 2 (Resolved (VAudioNode "node"));
          Completes 7 (Resolved (VDeviceInfo File)) ]
    (demoInitial SingleShot).

(** The transport has dropped the connection and the receive loop has
    asked for a new one, whose configuration (23) is pending; the pump
    (live, future 17) has not noticed yet. *)
Definition redialing : State :=
  after (handshake SingleShot ++
           [ ConnectionState_becomes 0 Disconnected;
             Completes 15 (Resolved (VMessage None)) ])
    (demoInitial SingleShot).

(** *** States for the further properties *)

(** The user has called [stopRecognizing()] while streaming. *)
Definition stoppedOnce : State := after [Api_stopRecognizing] (streaming SingleShot).

(** After the stop the service answers with [turn.end] and the user calls
    [connect()]. *)
Definition afterTheStop : list Event :=
  [ Completes 15 (textMessage "turn.end" request1 EmptyString); Api_connect ].

(** The state in which [recognize()] returns when it is called while
    streaming. *)
Definition superseded : State :=
  match exec 40 (recognize SingleShot demoCallbacks) (streaming SingleShot) with
  | Done _ s => s
  | _ => streaming SingleShot
  end.

(** A recognizer whose speech context is empty, at the point where
    [speech.config] has been handed over. *)
Definition configSentWithoutContext : State :=
  after [ Api_recognize SingleShot demoCallbacks;
          Completes 0 (Resolved (VAuthInfo "token"));
          ConnectionState_becomes 0 Connected;
          Completes 4 (Resolved (VOpenResponse 200 "OK"));
          Completes 2 (Resolved (VAudioNode "node"));
          Completes 7 (Resolved (VDeviceInfo File)) ]
    (initial (demoConfig SingleShot) "source" (newWorld 32000 EmptyString)).

(** A [turn.end] that carries the id of another request. *)
Definition foreignTurnEnd : SpeechConnectionMessage :=
  mkMessage Text "turn.end" request2 (Some "application/json") (TextBody EmptyString).

(** The first connection of the demo, as it is while streaming. *)
Definition demoConnection : Connection :=
  match nth_error (connections (world (streaming SingleShot))) 0 with
  | Some x => x
  | None => mkConnection None StateNone []
  end.

(** A [speech.startdetected] with an empty body. *)
Definition emptyStartDetected : SpeechConnectionMessage :=
  mkMessage Text "speech.startdetected" request1 (Some "application/json")
    (TextBody EmptyString).

(** *** States for connect, speech.enddetected and the end of the audio *)

(** [connect()] was called and the authentication (0) failed. *)
Definition authFailed : State :=
  after [Api_connect; Completes 0 (Rejected "no token")] (demoInitial SingleShot).

(** A connection was opened and the transport has dropped it since. *)
Definition lost : State :=
  after (opened ++ [ConnectionState_becomes 0 Disconnected]) (demoInitial SingleShot).

(** A [speech.enddetected] with an empty body. *)
Definition emptyEndDetected : SpeechConnectionMessage :=
  mkMessage Text "speech.enddetected" request1 (Some "application/json")
    (TextBody EmptyString).

(** ... read by the receive loop (15) of a continuous recognition. *)
Definition emptyEnd : State :=
  after [Completes 15 (textMessage "speech.enddetected" request1 EmptyString)]
    (streaming Continuous).

Definition isOnServiceRecognized (e : Effect) : bool :=
  match e with Session_onServiceRecognized _ => true | _ => false end.

(** The last chunk has arrived (18) and the audio source fails to tell its
    device type (21). *)
Definition failedQuery : State :=
  after [Completes 18 endOfAudio; Completes 21 (Rejected "no device")]
    (streaming SingleShot).

(* ===================================================================== *)
(** ** General facts about the interpreter *)
(* ===================================================================== *)

(** The JavaScript functions of the model, on the values the class meets. *)
Example toLowerCase_path : Js.toLowerCase "Turn.End" = "turn.end".
Proof. reflexivity. Qed.

Example parseInt10_default : Js.parseInt10 "5000" = Some 5000.
Proof. reflexivity. Qed.

Example parseInt10_garbage : Js.parseInt10 "fast" = None.
Proof. reflexivity. Qed.

Example string_of_Z_403 : Js.string_of_Z 403 = "403".
Proof. reflexivity. Qed.

(** Symbolic runs keep the data-level functions folded. *)
Arguments guid : simpl never.
Arguments Js.string_of_Z : simpl never.
Arguments Js.toLowerCase : simpl never.
Arguments Js.of_Z : simpl never.
Arguments Js.parseInt10 : simpl never.
Arguments unableToContactServer : simpl never.
Arguments unthrottledBudget : simpl never.
Arguments nextSendTimeAfter : simpl never.
Arguments chooseSendDelay : simpl never.
Arguments stale : simpl never.
Arguments Session.startNewRecognition : simpl never.
Arguments Session.onPreConnectionStart : simpl never.
Arguments Session.onAuthCompleted : simpl never.
Arguments Session.onConnectionEstablishCompleted : simpl never.
Arguments Session.onAudioSourceAttachCompleted : simpl never.
Arguments Session.onAudioSent : simpl never.
Arguments Session.onServiceRecognized : simpl never.
Arguments Session.onServiceTurnEndResponse : simpl never.
Arguments Session.onSpeechEnded : simpl never.
Arguments Session.onStopRecognizing : simpl never.
Arguments Session.dispose : simpl never.
Arguments Session.getTelemetry : simpl never.

Section Facts.

Context {collaborators : Collaborators}.

Lemma exec_unfold (fuel : nat) (A : Type) (m : Prog A) (s : State) :
  exec fuel m s = execWith (deeperAt fuel) m s.
Proof. destruct fuel; reflexivity. Qed.

Lemma execWith_bind (deeper : forall A : Type, Prog A -> State -> Outcome A)
    (A B : Type) (m : Prog A) (f : A -> Prog B) :
  forall s, execWith deeper (bind m f) s
            = andThen (execWith deeper m s) (fun a s' => execWith deeper (f a) s').
Proof.
  induction m as [a|e|k IH|c k IH|k IH|w k IH|o r k IH|p k IH|p r k IH|p h k IH|c arg k IH];
    intro s; cbn [bind execWith andThen]; auto.
  - destruct (resultOf s p); auto.
    destruct (handlersOf s p); auto.
    destruct (deeper unit _ _); cbn [andThen]; auto.
  - destruct (resultOf s p); auto;
      destruct (deeper unit _ _); cbn [andThen]; auto.
  - destruct (deeper Value _ _); auto.
Qed.

Lemma exec_bind (fuel : nat) (A B : Type) (m : Prog A) (f : A -> Prog B) (s : State) :
  exec fuel (bind m f) s
  = andThen (exec fuel m s) (fun a s' => exec fuel (f a) s').
Proof.
  rewrite !exec_unfold, execWith_bind.
  destruct (execWith (deeperAt fuel) m s); cbn [andThen]; auto.
  now rewrite exec_unfold.
Qed.

End Facts.

(** *** Lists indexed by allocation order *)

Lemma nth_error_app_len {A : Type} (h : list A) (x : A) (t : list A) :
  nth_error (h ++ x :: t) (List.length h) = Some x.
Proof. induction h; cbn; auto. Qed.

Lemma nth_error_app_len_S {A : Type} (h : list A) (x y : A) (t : list A) :
  nth_error (h ++ x :: y :: t) (S (List.length h)) = Some y.
Proof. induction h; cbn; auto. Qed.

Lemma nth_error_app_old {A : Type} (h t : list A) (i : nat) (x : A) :
  nth_error h i = Some x -> nth_error (h ++ t) i = Some x.
Proof.
  revert i; induction h as [|y h IH]; intros [|i]; cbn; try discriminate; auto.
Qed.

Lemma update_nth_app_len {A : Type} (f : A -> A) (h : list A) (x : A) (t : list A) :
  update_nth (List.length h) f (h ++ x :: t) = h ++ f x :: t.
Proof. induction h; cbn; congruence. Qed.

Lemma nth_error_app_plus {A : Type} (h t : list A) (k : nat) :
  nth_error (h ++ t) (List.length h + k) = nth_error t k.
Proof. induction h; cbn; auto. Qed.

Lemma update_nth_app_plus {A : Type} (f : A -> A) (h t : list A) (k : nat) :
  update_nth (List.length h + k) f (h ++ t) = h ++ update_nth k f t.
Proof. induction h; cbn; congruence. Qed.

(** Normal form of a heap that grew by allocation: [h ++ cells], with the
    new promises at [length h + k]. *)
Ltac heap_simpl :=
  repeat (progress (
    unfold allocate, subscribe, complete, set_heap, resultOf, handlersOf;
    cbn [heap core world];
    rewrite ?length_app; cbn [List.length];
    rewrite <- ?Nat.add_assoc; cbn [Nat.add];
    rewrite <- ?app_assoc; cbn [app];
    rewrite ?nth_error_app_plus, ?update_nth_app_plus,
            ?nth_error_app_len, ?update_nth_app_len;
    cbn [nth_error update_nth handlers result origin app])).

Lemma update_nth_length {A : Type} (f : A -> A) (l : list A) (i : nat) :
  List.length (update_nth i f l) = List.length l.
Proof. revert i; induction l; intros [|i]; cbn; auto. Qed.

(** Run a program whose callbacks are all at hand. *)
Ltac run_sym := repeat (progress (rewrite ?exec_unfold; cbn; heap_simpl)).

Lemma nth_error_update_nth {A : Type} (f : A -> A) (l : list A) (i j : nat) :
  nth_error (update_nth i f l) j
  = if Nat.eqb i j then option_map f (nth_error l j) else nth_error l j.
Proof.
  revert i j; induction l as [|x l IH]; intros [|i] [|j]; cbn; auto.
  - destruct (Nat.eqb i j); reflexivity.
Qed.

Lemma nth_error_Some_lt {A : Type} (l : list A) (i : nat) (x : A) :
  nth_error l i = Some x -> (i < List.length l)%nat.
Proof. intro H; apply nth_error_Some; congruence. Qed.

Section Connect.

Context {collaborators : Collaborators}.

Lemma connectImpl_attempt_spec (fuel : nat) (isUnAuthorized : bool) (s : State) :
  exec fuel (connectImpl_attempt isUnAuthorized) s
  = Done (S (List.length (heap s))) (attempted isUnAuthorized s).
Proof.
  rewrite exec_unfold.
  destruct s as [c w h]; destruct isUnAuthorized; cbn.
  all: unfold resultOf, subscribe, attempted, allocate, set_heap; cbn.
  all: rewrite <- !app_assoc; cbn [app].
  all: rewrite nth_error_app_len; cbn.
  all: rewrite update_nth_app_len; cbn.
  all: rewrite length_app; cbn.
  all: rewrite Nat.add_1_r.
  all: reflexivity.
Qed.

Lemma connectImpl_unfold (fuel : nat) (isUnAuthorized : bool) (s : State) :
  exec fuel (connectImpl isUnAuthorized) s
  = match privConnectionPromise (core s) with
    | Some p =>
        if stale (world s) (resultOf s p)
        then exec fuel (connectImpl_attempt false) (cleared s)
        else Done p s
    | None => exec fuel (connectImpl_attempt isUnAuthorized) s
    end.
Proof.
  rewrite !exec_unfold. unfold connectImpl.
  cbn -[connectImpl_attempt].
  destruct (privConnectionPromise (core s)) as [p|]; [|reflexivity].
  cbn -[connectImpl_attempt].
  destruct (stale (world s) (resultOf s p)); reflexivity.
Qed.

(** C7. [connectImpl] is idempotent.  While the stored connection future is
    neither completed with an error nor resolved to a connection whose state
    is [Disconnected], a call returns that very future and changes nothing,
    so that every further call returns it again.  When the stored future is
    completed with an error, or resolved to a [Disconnected] connection, it
    is not returned: [privConnectionId] and the stored future are cleared
    and a new attempt is begun, which stores a new future, different from
    the old one and pending; the next call returns the new one. *)
Theorem connectImpl_idempotent (fuel : nat) (isUnAuthorized : bool)
    (s : State) (p : PromiseId) :
  let q := S (List.length (heap s)) in
  let s' := attempted false (cleared s) in
  privConnectionPromise (core s) = Some p ->
  (~ completedWithError s p -> ~ resolvedToDisconnected s p ->
   exec fuel (connectImpl isUnAuthorized) s = Done p s)
  /\ (completedWithError s p \/ resolvedToDisconnected s p ->
      exec fuel (connectImpl isUnAuthorized) s = Done q s'
      /\ q <> p
      /\ privConnectionId (core (cleared s)) = None
      /\ privConnectionPromise (core (cleared s)) = None
      /\ privConnectionPromise (core s') = Some q
      /\ resultOf s' q = Pending
      /\ exec fuel (connectImpl isUnAuthorized) s' = Done q s').
Proof.
  intros q s' Hp.
  assert (Hq : resultOf s' q = Pending).
  { unfold resultOf, s', q, attempted; cbn [heap cleared].
    now rewrite nth_error_app_len_S. }
  split.
  - intros He Hd. rewrite connectImpl_unfold, Hp.
    destruct (resultOf s p) as [|v|e] eqn:E; try reflexivity.
    + destruct v; try reflexivity.
      unfold stale.
      match goal with
      | |- context [stateOf (world s) ?c] =>
          destruct (stateOf (world s) c) eqn:Ec; try reflexivity;
          exfalso; apply Hd; exists c; auto
      end.
    + exfalso; apply He. now exists e.
  - intro H.
    assert (Hs : stale (world s) (resultOf s p) = true).
    { destruct H as [[e ->]|[c [-> Hc]]]; unfold stale; [reflexivity|now rewrite Hc]. }
    repeat match goal with |- _ /\ _ => split end.
    + now rewrite connectImpl_unfold, Hp, Hs, connectImpl_attempt_spec.
    + assert (p < List.length (heap s))%nat; [|unfold q; lia].
      unfold resultOf in Hs.
      destruct (nth_error (heap s) p) eqn:E.
      * eapply nth_error_Some_lt; eauto.
      * discriminate Hs.
    + reflexivity.
    + reflexivity.
    + reflexivity.
    + exact Hq.
    + rewrite connectImpl_unfold.
      change (privConnectionPromise (core s')) with (Some q).
      cbv beta iota. now rewrite Hq.
Qed.

End Connect.

(** *** Completed promises keep their result *)

Lemma extends_refl (s : State) : extends s s.
Proof. intros p _; reflexivity. Qed.

Lemma extends_trans (s1 s2 s3 : State) :
  extends s1 s2 -> extends s2 s3 -> extends s1 s3.
Proof.
  intros H12 H23 p Hp.
  rewrite H23; [apply H12; assumption|].
  rewrite H12; assumption.
Qed.

Lemma extends_heap (s s' : State) :
  heap s' = heap s -> extends s s'.
Proof. intros E p _; unfold resultOf; now rewrite E. Qed.

Lemma extends_allocate (o : Origin) (r : PromiseResult) (s : State) :
  extends s (allocate o r s).
Proof.
  intros p Hp; unfold resultOf, allocate, set_heap in *; cbn.
  destruct (nth_error (heap s) p) eqn:E; [|congruence].
  now rewrite (nth_error_app_old _ _ _ _ E).
Qed.

Lemma extends_subscribe (p : PromiseId) (h : Handler) (s : State) :
  extends s (subscribe p h s).
Proof.
  intros q _; unfold resultOf, subscribe, set_heap; cbn.
  rewrite nth_error_update_nth.
  destruct (Nat.eqb p q); [|reflexivity].
  destruct (nth_error (heap s) q); reflexivity.
Qed.

Lemma extends_complete (p : PromiseId) (r : PromiseResult) (s : State) :
  resultOf s p = Pending -> extends s (complete p r s).
Proof.
  intros Hp q Hq; unfold resultOf, complete, set_heap in *; cbn.
  rewrite nth_error_update_nth.
  destruct (Nat.eqb_spec p q) as [->|]; [|reflexivity].
  congruence.
Qed.

Lemma resultOf_complete (p : PromiseId) (r : PromiseResult) (s : State) :
  (p < List.length (heap s))%nat -> resultOf (complete p r s) p = r.
Proof.
  intro Hp; unfold resultOf, complete, set_heap; cbn.
  rewrite nth_error_update_nth, Nat.eqb_refl.
  destruct (nth_error (heap s) p) eqn:E; [reflexivity|].
  apply nth_error_None in E; lia.
Qed.

Section Keeps.

Context {collaborators : Collaborators}.

Lemma keeps_andThen {A B : Type} (s : State) (o : Outcome A)
    (k : A -> State -> Outcome B) :
  keeps s o -> (forall a s', extends s s' -> keeps s (k a s')) ->
  keeps s (andThen o k).
Proof. destruct o; cbn; auto. Qed.

Lemma keeps_step {A : Type} (s s1 : State) (o : Outcome A) :
  extends s s1 -> keeps s1 o -> keeps s o.
Proof. destruct o; cbn; eauto using extends_trans. Qed.

Lemma execWith_keeps (deeper : forall A : Type, Prog A -> State -> Outcome A) :
  (forall A (m : Prog A) s, keeps s (deeper A m s)) ->
  forall A (m : Prog A) s, keeps s (execWith deeper m s).
Proof.
  intros Hd A m.
  induction m as [a|e|k IH|c k IH|k IH|w k IH|o r k IH|p k IH|p r k IH|p h k IH|c arg k IH];
    intro s; cbn [execWith].
  - apply extends_refl.
  - apply extends_refl.
  - apply IH.
  - eapply keeps_step; [|apply IH]. now apply extends_heap.
  - apply IH.
  - eapply keeps_step; [|apply IH]. now apply extends_heap.
  - eapply keeps_step; [|apply IH]. apply extends_allocate.
  - apply IH.
  - destruct (resultOf s p) eqn:E; try apply extends_refl.
    destruct (handlersOf s p).
    + eapply keeps_step; [|apply IH]. now apply extends_complete.
    + apply keeps_andThen.
      * eapply keeps_step; [|apply Hd]. now apply extends_complete.
      * intros _ s' Hs'. eapply keeps_step; [exact Hs'|apply IH].
  - destruct (resultOf s p) eqn:E.
    + eapply keeps_step; [|apply IH]. apply extends_subscribe.
    + apply keeps_andThen; [apply Hd|].
      intros _ s' Hs'. eapply keeps_step; [exact Hs'|apply IH].
    + apply keeps_andThen; [apply Hd|].
      intros _ s' Hs'. eapply keeps_step; [exact Hs'|apply IH].
  - specialize (Hd Value (call c arg) s).
    destruct (deeper Value (call c arg) s); cbn in Hd; auto.
    + eapply keeps_step; [exact Hd|apply IH].
    + eapply keeps_step; [exact Hd|apply IH].
Qed.

(** Whatever a program does, it never changes the result of a promise that
    is already completed. *)
Lemma exec_keeps (fuel : nat) : forall A (m : Prog A) s, keeps s (exec fuel m s).
Proof.
  induction fuel as [|f IH]; intros A m s; cbn [exec];
    apply execWith_keeps; auto.
  intros; exact I.
Qed.

End Keeps.

(* ===================================================================== *)
(** ** Properties of the specification *)
(* ===================================================================== *)

Section Properties.

Context {collaborators : Collaborators}.

(** *** disconnect *)

(** C10. [disconnect()] called while no connection promise is stored (none
    was ever created, or the last one was dropped by a previous
    [disconnect()]) and nothing is being recognized does not complete: the
    local cancellation does nothing, and reading [.result()] off the missing
    promise throws. *)
Theorem disconnect_without_connection (fuel : nat) (s : State) :
  privConnectionPromise (core s) = None ->
  isRecognizing (privRequestSession (core s)) = false ->
  exec fuel disconnect s = Thrown "TypeError" s.
Proof.
  intros Hp Hr. rewrite exec_unfold. cbn. rewrite Hr. cbn. now rewrite Hp.
Qed.

(** *** The head of a read-and-upload cycle *)

(** C3, as the code has it.  When a termination condition holds at the head
    of a read-and-upload cycle, the cycle does nothing at all: it asks for
    no connection, reads no chunk, schedules nothing, and leaves the future
    of the pump as it is. *)
Theorem readAndUploadCycle_terminated (fuel : nat) (s : State) (pump : PumpRef)
    (x : Pump) :
  nth_error (pumps (core s)) pump = Some x ->
  terminated (core s) x = true ->
  exec fuel (readAndUploadCycle pump) s = Done tt s.
Proof.
  intros Hx Ht. rewrite exec_unfold. unfold readAndUploadCycle, getPump.
  cbn -[fetchConnection]. rewrite Hx. cbn -[fetchConnection].
  unfold terminated in Ht.
  destruct (privIsDisposed (core s)), (isSpeechEnded (privRequestSession (core s))),
    (isRecognizing (privRequestSession (core s))),
    (recogNumber (privRequestSession (core s)) =? startRecogNumber x);
    cbn in Ht |- *; try reflexivity; discriminate Ht.
Qed.

(** *** 403 on open *)

(** The retry [this.connectImpl(true)] of the open callback finds the
    connection promise of the very attempt it belongs to, still pending,
    and returns it: nothing is fetched, nothing is dialed. *)
Lemma retry_returns_the_stored_promise (fuel : nat) (s : State)
    (connection : ConnRef) (p : PromiseId) (reason : string) :
  privConnectionPromise (core s) = Some p ->
  resultOf s p = Pending ->
  exec fuel (connectImpl_onOpen false connection
               (Resolved (VOpenResponse 403 reason))) s
  = Done (VPromise p) s.
Proof.
  intros Hp Hr. unfold connectImpl_onOpen.
  change (403 =? 200) with false. change ((403 =? 403) && negb false)%bool with true.
  cbv iota. rewrite exec_bind, connectImpl_unfold, Hp, Hr.
  change (stale (world s) Pending) with false. cbn [andThen].
  now rewrite exec_unfold.
Qed.

(** *** Dispatch of the paths the class does not handle *)

(** A message whose path is none of the four is handed to the subclass. *)
Lemma other_paths_reach_the_hook (fuel : nat) (cb : Callbacks)
    (m : SpeechConnectionMessage) (s : State) :
  handledPath (Js.toLowerCase (path m)) = false ->
  exec fuel (switchOnPath cb m) s = Done None (hooked m cb s).
Proof.
  unfold handledPath, switchOnPath. intro H.
  apply orb_false_elim in H as [H H4].
  apply orb_false_elim in H as [H H3].
  apply orb_false_elim in H as [H1 H2].
  rewrite H1, H2, H3, H4. rewrite exec_unfold. reflexivity.
Qed.

(** [turn.start] only arms the end-of-stream report. *)
Lemma turn_start_is_not_handed_over (fuel : nat) (cb : Callbacks)
    (m : SpeechConnectionMessage) (s : State) :
  Js.toLowerCase (path m) = "turn.start" ->
  exec fuel (switchOnPath cb m) s
  = Done None (mkState (set_mustReportEndOfStream true (core s)) (world s) (heap s)).
Proof.
  unfold switchOnPath. intros ->. rewrite exec_unfold. reflexivity.
Qed.

(** *** speech.enddetected *)


(** *** The upstream pump *)

Lemma pump_onChunk_spec (fuel : nat) (s : State) (pump : PumpRef)
    (connection : ConnRef) (chunk : StreamChunk) (x : Pump) :
  nth_error (pumps (core s)) pump = Some x ->
  isSpeechEnded (privRequestSession (core s)) = false ->
  exec fuel (pump_onChunk pump connection (Resolved (VChunk chunk))) s
  = Done VUndefined
      (if isEnd chunk then chunkTaken pump connection chunk None 0%float s
       else
         chunkTaken pump connection chunk (Some (buffer chunk))
           (chooseSendDelay (maxSendUnthrottledBytes x)
              (bytesSent (privRequestSession (core s)) + buffer chunk)
              (nextSendTime x) (now (world s)))
           (counted (buffer chunk) s)).
Proof.
  intros Hx He. rewrite exec_unfold. unfold pump_onChunk, getPump.
  cbn. rewrite Hx. cbn. rewrite He.
  destruct s as [c w h]; destruct (isEnd chunk); cbn.
  all: heap_simpl.
  all: reflexivity.
Qed.

Lemma pump_onIsRealTime_end (fuel : nat) (s : State) (pump : PumpRef)
    (connection : ConnRef) (chunk : StreamChunk) (x : Pump) (isRealTime : bool)
    (sendDelay : Js.number) :
  nth_error (pumps (core s)) pump = Some x ->
  isEnd chunk = true ->
  exec fuel (pump_onIsRealTime pump connection chunk None sendDelay
               (Resolved (VBool isRealTime))) s
  = andThen
      (exec fuel (resolve (deferred x) (VBool true))
         (speechEnded
            (handedOver connection
               (audioFrame (sessionRequestId (privRequestSession (core s))) None) s)))
      (fun _ s' => Done VUndefined s').
Proof.
  intros Hx He. unfold pump_onIsRealTime. rewrite He.
  rewrite !exec_unfold. unfold getPump. cbn -[resolve].
  rewrite Hx. cbn [bind]. rewrite execWith_bind. reflexivity.
Qed.

Lemma exec_resolve_result (fuel : nat) (d : PromiseId) (v : Value) (s s' : State) :
  (d < List.length (heap s))%nat ->
  resultOf s d = Pending ->
  exec fuel (resolve d v) s = Done tt s' ->
  resultOf s' d = Resolved v.
Proof.
  intros Hd Hp. rewrite exec_unfold. unfold resolve. cbn [execWith]. rewrite Hp.
  destruct (handlersOf s d) as [|h hs].
  - cbn. intro E; injection E as <-. now apply resultOf_complete.
  - destruct fuel as [|f]; [discriminate|]. cbn [deeperAt].
    pose proof (exec_keeps f _ (runHandlers (h :: hs) (Resolved v))
                  (complete d (Resolved v) s)) as K.
    destruct (exec f (runHandlers (h :: hs) (Resolved v)) (complete d (Resolved v) s));
      cbn in *; try discriminate.
    intro E; injection E as <-.
    rewrite K; rewrite resultOf_complete; auto; discriminate.
Qed.

Lemma framesOn_handedOver (connection : ConnRef) (m : SpeechConnectionMessage)
    (s : State) (x : Connection) :
  nth_error (connections (world s)) connection = Some x ->
  framesOn (handedOver connection m s) connection = framesOn s connection ++ [m].
Proof.
  intro H. unfold framesOn, sentOn, handedOver. cbn.
  rewrite nth_error_update_nth, Nat.eqb_refl, H. cbn.
  now rewrite map_app.
Qed.

Lemma exec_resolve_pending (fuel : nat) (d : PromiseId) (v : Value) (s : State) :
  resultOf s d = Pending ->
  exec fuel (resolve d v) s
  = match handlersOf s d with
    | [] => Done tt (complete d (Resolved v) s)
    | hs => andThen (deeperAt fuel unit (runHandlers hs (Resolved v))
                       (complete d (Resolved v) s))
              (fun _ s' => Done tt s')
    end.
Proof.
  intro Hp. rewrite exec_unfold. unfold resolve. cbn [execWith]. rewrite Hp.
  destruct (handlersOf s d); reflexivity.
Qed.

Lemma exec_resolve_thrown (fuel : nat) (d : PromiseId) (v : Value) (s s' : State)
    (e : string) :
  (d < List.length (heap s))%nat ->
  resultOf s d = Pending ->
  exec fuel (resolve d v) s = Thrown e s' ->
  resultOf s' d = Resolved v.
Proof.
  intros Hd Hp. rewrite exec_unfold. unfold resolve. cbn [execWith]. rewrite Hp.
  destruct (handlersOf s d) as [|h hs].
  - cbn. discriminate.
  - destruct fuel as [|f]; [discriminate|]. cbn [deeperAt].
    pose proof (exec_keeps f _ (runHandlers (h :: hs) (Resolved v))
                  (complete d (Resolved v) s)) as K.
    destruct (exec f (runHandlers (h :: hs) (Resolved v)) (complete d (Resolved v) s));
      cbn in *; try discriminate.
    intro E; injection E as _ <-.
    rewrite K; rewrite resultOf_complete; auto; discriminate.
Qed.

Lemma nth_error_complete_other (p q : PromiseId) (r : PromiseResult) (s : State) :
  q <> p -> nth_error (heap (complete q r s)) p = nth_error (heap s) p.
Proof.
  intro H. unfold complete, set_heap. cbn [heap]. rewrite nth_error_update_nth.
  destruct (Nat.eqb_spec q p); [congruence|reflexivity].
Qed.

Lemma nth_error_chunkTaken (pump : PumpRef) (connection : ConnRef) (chunk : StreamChunk)
    (payload : option Z) (sendDelay : Js.number) (s : State) (p : PromiseId) :
  (p < List.length (heap s))%nat ->
  nth_error (heap (chunkTaken pump connection chunk payload sendDelay s)) p
  = nth_error (heap s) p.
Proof.
  intro H. unfold chunkTaken. cbn [heap].
  destruct (nth_error (heap s) p) eqn:E; [now apply nth_error_app_old|].
  apply nth_error_None in E. lia.
Qed.

Lemma nth_error_handedOver (connection : ConnRef) (m : SpeechConnectionMessage)
    (s : State) (p : PromiseId) :
  (p < List.length (heap s))%nat ->
  nth_error (heap (speechEnded (handedOver connection m s))) p = nth_error (heap s) p.
Proof.
  intro H. unfold speechEnded, handedOver. cbn [heap].
  destruct (nth_error (heap s) p) eqn:E; [now apply nth_error_app_old|].
  apply nth_error_None in E. lia.
Qed.

Lemma length_complete (q : PromiseId) (r : PromiseResult) (s : State) :
  List.length (heap (complete q r s)) = List.length (heap s).
Proof. unfold complete, set_heap. cbn [heap]. apply update_nth_length. Qed.

Lemma length_chunkTaken (pump : PumpRef) (connection : ConnRef) (chunk : StreamChunk)
    (payload : option Z) (sendDelay : Js.number) (s : State) :
  List.length (heap (chunkTaken pump connection chunk payload sendDelay s))
  = (List.length (heap s) + 3)%nat.
Proof. unfold chunkTaken. cbn [heap]. rewrite length_app. reflexivity. Qed.

Lemma andThen_done (o : Outcome unit) : andThen o (fun _ s' => Done tt s') = o.
Proof. destruct o as [[] s'|e s'|]; reflexivity. Qed.

(** C9, as the code has it.  A chunk with [isEnd = true] read while the
    session is not speech-ended makes the pump ask the audio source for its
    device type, and nothing else: no frame is sent yet.  When that query
    succeeds, whatever the type, the pump hands exactly one frame to the
    transport, Binary, path [audio], null body, with the current request
    id, calls [onSpeechEnded()], and resolves its future with [true]: the
    future is completed, then its subscribers are run; no timer is set, no
    callback is queued, nothing is chained on the upload and no read of the
    audio node is started.  When the query fails, nothing of this happens:
    no frame, no [onSpeechEnded()], and the future of the pump is left
    pending.  ([s] is the state in which the read [r] of the pump
    completes; the device type is the promise allocated next.) *)
Theorem end_of_stream (fuel : nat) (s : State) (pump : PumpRef)
    (connection : ConnRef) (chunk : StreamChunk) (x : Pump) (cx : Connection)
    (r : PromiseId) (type : AudioDeviceType) (error : string) :
  let n := List.length (heap s) in
  let taken :=
    chunkTaken pump connection chunk None 0%float
      (complete r (Resolved (VChunk chunk)) s) in
  let known :=
    complete (n + 1) (Resolved (VBool (isMicrophones type)))
      (complete n (Resolved (VDeviceInfo type)) taken) in
  let frame :=
    mkMessage Binary "audio" (sessionRequestId (privRequestSession (core s)))
      None NullBody in
  let sent := speechEnded (handedOver connection frame known) in
  let resolved := complete (deferred x) (Resolved (VBool true)) sent in
  let failed :=
    complete (n + 2) (Rejected error)
      (complete (n + 1) (Rejected error) (complete n (Rejected error) taken)) in
  isEnd chunk = true ->
  isSpeechEnded (privRequestSession (core s)) = false ->
  nth_error (pumps (core s)) pump = Some x ->
  nth_error (connections (world s)) connection = Some cx ->
  waiting s r [H_on (Pump_onChunk pump connection) (Pump_onReadError pump)] ->
  resultOf s (deferred x) = Pending ->
  (deferred x < n)%nat ->
  deferred x <> r ->
  exec (S (S fuel)) (Complete r (Resolved (VChunk chunk)) skip) s = Done tt taken
  /\ framesOn taken connection = framesOn s connection
  /\ exec (S (S (S fuel))) (Complete n (Resolved (VDeviceInfo type)) skip) taken
     = match exec fuel (resolve (deferred x) (VBool true)) sent with
       | Done _ s' => exec (S fuel) (resolve (n + 2) VUndefined) s'
       | Thrown e s' => exec (S fuel) (reject (n + 2) e) s'
       | OutOfFuel => OutOfFuel
       end
  /\ exec fuel (resolve (deferred x) (VBool true)) sent
     = match handlersOf s (deferred x) with
       | [] => Done tt resolved
       | hs => andThen (deeperAt fuel unit (runHandlers hs (Resolved (VBool true)))
                          resolved)
                 (fun _ s' => Done tt s')
       end
  /\ framesOn sent connection = framesOn s connection ++ [frame]
  /\ isSpeechEnded (privRequestSession (core sent)) = true
  /\ timers (world sent) = timers (world s)
  /\ microtasks (world sent) = microtasks (world s)
  /\ heap sent = heap known ++ [mkCell (Ext_send connection) Pending []]
  /\ awaited sent
     = awaited (complete r (Resolved (VChunk chunk)) s) ++ [Ext_send connection]
  /\ resultOf resolved (deferred x) = Resolved (VBool true)
  /\ (forall s',
        exec (S (S (S fuel))) (Complete n (Resolved (VDeviceInfo type)) skip) taken
        = Done tt s' ->
        resultOf s' (deferred x) = Resolved (VBool true))
  /\ exec (S (S fuel)) (Complete n (Rejected error) skip) taken = Done tt failed
  /\ framesOn failed connection = framesOn s connection
  /\ core failed = core s
  /\ world failed = world s
  /\ resultOf failed (deferred x) = Pending
  /\ awaited failed = awaited (complete r (Resolved (VChunk chunk)) s).
Proof.
  intros n taken known frame sent resolved failed He Hs Hx Hc [o Hr] Hp Hd Hne.
  assert (Hn : n = List.length (heap (complete r (Resolved (VChunk chunk)) s)))
    by (unfold complete, set_heap; cbn [heap]; now rewrite update_nth_length).
  assert (Hcell : forall p, (p < n)%nat -> p <> r ->
            nth_error (heap known) p = nth_error (heap s) p
            /\ nth_error (heap sent) p = nth_error (heap s) p
            /\ nth_error (heap failed) p = nth_error (heap s) p).
  { intros p Hlt Hpr.
    assert (E : nth_error (heap taken) p = nth_error (heap s) p).
    { unfold taken. rewrite nth_error_chunkTaken by (rewrite length_complete; exact Hlt).
      apply nth_error_complete_other. congruence. }
    assert (K : nth_error (heap known) p = nth_error (heap s) p).
    { unfold known. rewrite !nth_error_complete_other by lia. exact E. }
    split; [exact K|split].
    - unfold sent. rewrite nth_error_handedOver; [exact K|].
      unfold known. rewrite !length_complete. unfold taken.
      rewrite length_chunkTaken, length_complete. fold n. lia.
    - unfold failed. rewrite !nth_error_complete_other by lia. exact E. }
  assert (Hpend : resultOf sent (deferred x) = Pending
                  /\ handlersOf sent (deferred x) = handlersOf s (deferred x)
                  /\ resultOf failed (deferred x) = Pending).
  { destruct (Hcell (deferred x) Hd Hne) as (_ & E2 & E3).
    unfold resultOf, handlersOf in *. rewrite E2, E3. auto. }
  destruct Hpend as (Hp1 & Hh1 & Hp2).
  assert (Hlen : (deferred x < List.length (heap sent))%nat).
  { unfold sent, speechEnded, handedOver. cbn [heap]. rewrite length_app.
    unfold known. rewrite !length_complete. unfold taken.
    rewrite length_chunkTaken, length_complete. fold n. lia. }
  assert (P3 : exec (S (S (S fuel))) (Complete n (Resolved (VDeviceInfo type)) skip) taken
               = match exec fuel (resolve (deferred x) (VBool true)) sent with
                 | Done _ s' => exec (S fuel) (resolve (n + 2) VUndefined) s'
                 | Thrown e s' => exec (S fuel) (reject (n + 2) e) s'
                 | OutOfFuel => OutOfFuel
                 end).
  { clear Hcell Hp1 Hh1 Hp2 Hlen Hn. subst n taken known sent frame. destruct s as [k w h].
    unfold chunkTaken, complete, set_heap. cbn [heap core world] in *.
    set (h0 := update_nth r _ h).
    assert (Hn : List.length h = List.length h0)
      by (unfold h0; now rewrite update_nth_length).
    rewrite Hn.
    rewrite exec_unfold. cbn [execWith]. heap_simpl.
    cbn [deeperAt runHandlers runHandler bind].
    rewrite (exec_unfold (S (S fuel))). cbn [bind execWith deeperAt call].
    rewrite (exec_unfold (S fuel) _ (isRealTime_onDeviceInfo _)).
    replace (execWith (deeperAt (S fuel))
               (isRealTime_onDeviceInfo (Resolved (VDeviceInfo type))))
      with (fun s : State => Done (VBool (isMicrophones type)) s)
      by (destruct type; reflexivity).
    cbn [settle resolve bind execWith]. heap_simpl.
    cbn [deeperAt runHandlers runHandler bind].
    rewrite (exec_unfold (S fuel)). cbn [bind execWith deeperAt call].
    match goal with
    | |- context [exec fuel (pump_onIsRealTime _ _ _ _ _ _) ?s1] =>
        rewrite (pump_onIsRealTime_end fuel s1 pump connection chunk x
                   (isMicrophones type) 0%float Hx He)
    end.
    unfold audioFrame. cbn [core privRequestSession].
    match goal with
    | |- context [exec fuel (resolve (deferred x) (VBool true)) ?s1] =>
        destruct (exec fuel (resolve (deferred x) (VBool true)) s1) as [u s'|e s'|]
    end; cbn [andThen]; [| |reflexivity].
    all: unfold skip; rewrite !execWith_bind; cbn [execWith andThen settle].
    all: rewrite !andThen_done; now rewrite exec_unfold. }
  assert (PF : exec (S (S fuel)) (Complete n (Rejected error) skip) taken = Done tt failed).
  { clear Hcell Hp1 Hh1 Hp2 Hlen Hn P3. subst n taken known sent frame failed.
    destruct s as [k w h].
    unfold chunkTaken, complete, set_heap. cbn [heap core world] in *.
    set (h0 := update_nth r _ h).
    assert (Hn : List.length h = List.length h0)
      by (unfold h0; now rewrite update_nth_length).
    rewrite Hn. run_sym. reflexivity. }
  assert (A1 : awaited sent
               = awaited (complete r (Resolved (VChunk chunk)) s) ++ [Ext_send connection]
               /\ awaited failed = awaited (complete r (Resolved (VChunk chunk)) s)).
  { clear Hcell Hp1 Hh1 Hp2 Hlen P3 PF. subst taken known sent frame failed.
    unfold awaited, speechEnded, handedOver, chunkTaken.
    remember (complete r (Resolved (VChunk chunk)) s) as s0 eqn:E0.
    rewrite Hn. clear Hn E0. destruct s0 as [k0 w0 h0].
    unfold complete, set_heap. cbn [heap core world]. heap_simpl.
    rewrite !filter_app, !map_app. cbn. rewrite !app_nil_r. split; reflexivity. }
  destruct A1 as [A1 A2].
  repeat match goal with |- _ /\ _ => split end.
  - rewrite exec_unfold. cbn [execWith]. unfold resultOf, handlersOf. rewrite Hr.
    cbn [result handlers deeperAt runHandlers runHandler].
    rewrite exec_unfold. unfold skip. cbn [bind execWith deeperAt call].
    rewrite (pump_onChunk_spec fuel (complete r (Resolved (VChunk chunk)) s) pump connection
               chunk x Hx Hs), He.
    reflexivity.
  - reflexivity.
  - exact P3.
  - rewrite (exec_resolve_pending fuel (deferred x) (VBool true) sent Hp1), Hh1.
    reflexivity.
  - exact (framesOn_handedOver connection frame known cx Hc).
  - reflexivity.
  - reflexivity.
  - reflexivity.
  - reflexivity.
  - exact A1.
  - now apply resultOf_complete.
  - intros s' H. rewrite P3 in H.
    destruct (exec fuel (resolve (deferred x) (VBool true)) sent) as [u s1|e s1|] eqn:E;
      try discriminate.
    + pose proof (exec_resolve_result fuel (deferred x) (VBool true) sent s1 Hlen Hp1) as R.
      destruct u. specialize (R E).
      pose proof (exec_keeps (S fuel) _ (resolve (n + 2) VUndefined) s1) as K.
      rewrite H in K. cbn in K. rewrite K; [exact R|]. rewrite R; discriminate.
    + pose proof (exec_resolve_thrown fuel (deferred x) (VBool true) sent s1 e Hlen Hp1 E)
        as R.
      pose proof (exec_keeps (S fuel) _ (reject (n + 2) e) s1) as K.
      rewrite H in K. cbn in K. rewrite K; [exact R|]. rewrite R; discriminate.
  - exact PF.
  - reflexivity.
  - reflexivity.
  - reflexivity.
  - exact Hp2.
  - exact A2.
Qed.

(** *** Pacing *)

Lemma sendAudio_spec (fuel : nat) (audioStreamNode : string) (s : State) :
  exec fuel (sendAudio audioStreamNode) s
  = andThen (exec fuel (readAndUploadCycle (List.length (pumps (core s))))
               (pumpCreated audioStreamNode s))
      (fun _ s' => Done (List.length (heap s)) s').
Proof.
  rewrite !exec_unfold. unfold sendAudio. cbn -[readAndUploadCycle].
  rewrite execWith_bind. reflexivity.
Qed.

Lemma pump_onIsRealTime_timer (fuel : nat) (s : State) (pump : PumpRef)
    (connection : ConnRef) (chunk : StreamChunk) (byteLength : Z)
    (sendDelay : Js.number) :
  isEnd chunk = false ->
  exec fuel (pump_onIsRealTime pump connection chunk (Some byteLength) sendDelay
               (Resolved (VBool false))) s
  = Done VUndefined
      (scheduled sendDelay (Pump_onTimeout pump (List.length (heap s)))
         (handedOver connection
            (audioFrame (sessionRequestId (privRequestSession (core s)))
               (Some byteLength))
            (paced pump byteLength s))).
Proof.
  intro He. unfold pump_onIsRealTime. rewrite He.
  rewrite exec_unfold. reflexivity.
Qed.

Lemma pump_onIsRealTime_chained (fuel : nat) (s : State) (pump : PumpRef)
    (connection : ConnRef) (chunk : StreamChunk) (byteLength : Z)
    (sendDelay : Js.number) :
  isEnd chunk = false ->
  exec fuel (pump_onIsRealTime pump connection chunk (Some byteLength) sendDelay
               (Resolved (VBool true))) s
  = Done VUndefined
      (chained pump
         (handedOver connection
            (audioFrame (sessionRequestId (privRequestSession (core s)))
               (Some byteLength))
            (paced pump byteLength s))).
Proof.
  intro He. unfold pump_onIsRealTime. rewrite He.
  rewrite exec_unfold. destruct s as [c w h].
  unfold chained, handedOver, paced. cbn. heap_simpl.
  rewrite Nat.add_sub. heap_simpl. reflexivity.
Qed.

(** C5, as the code has it.  The budget of a pump is
    [avgBytesPerSec / 1000 * parseInt(fastLaneMs, 10)], computed in that
    order on doubles when [sendAudio] starts, with [fastLaneMs] the property
    [SPEECH-TransmitLengthBeforThrottleMs] or ["5000"]; it is 160000 for
    32000 bytes per second and the default.  A chunk that is not the end of
    the stream is given the delay 0 when, its bytes counted, [bytesSent] is
    at most the budget, and [max(0, nextSendTime - now)] otherwise.  When a
    payload of [byteLength] bytes is sent, [nextSendTime] becomes
    [now + byteLength * 1000 / (avgBytesPerSec * 2)], and for a source that
    is not real-time the next cycle is put on a timer with the delay chosen
    for the chunk; for a real-time source the delay is not used: the next
    cycle is chained on the upload and no timer is set. *)
Theorem pacing (fuel : nat) (s : State) (pump : PumpRef) (connection : ConnRef)
    (chunk : StreamChunk) (x : Pump) (audioStreamNode : string) :
  let session := privRequestSession (core s) in
  let sendDelay :=
    chooseSendDelay (maxSendUnthrottledBytes x) (bytesSent session + buffer chunk)
      (nextSendTime x) (now (world s)) in
  nth_error (pumps (core s)) pump = Some x ->
  isSpeechEnded session = false ->
  isEnd chunk = false ->
  (* the budget *)
  exec fuel (sendAudio audioStreamNode) s
  = andThen (exec fuel (readAndUploadCycle (List.length (pumps (core s))))
               (pumpCreated audioStreamNode s))
      (fun _ s' => Done (List.length (heap s)) s')
  /\ maxSendUnthrottledBytes (newPump audioStreamNode s)
     = (Js.of_Z (avgBytesPerSec (world s)) / 1000
        * Js.of_parsed (Js.parseInt10
            (getPropertyOr (parameters (privRecognizerConfig (core s)))
               "SPEECH-TransmitLengthBeforThrottleMs" "5000")))%float
  /\ unthrottledBudget 32000 (getPropertyOr [] "SPEECH-TransmitLengthBeforThrottleMs" "5000")
     = 160000%float
  (* the delay of a chunk *)
  /\ exec fuel (pump_onChunk pump connection (Resolved (VChunk chunk))) s
     = Done VUndefined
         (chunkTaken pump connection chunk (Some (buffer chunk)) sendDelay
            (counted (buffer chunk) s))
  /\ sendDelay
     = (if Js.geb (maxSendUnthrottledBytes x) (Js.of_Z (bytesSent session + buffer chunk))
        then 0%float
        else Js.max 0%float (nextSendTime x - Js.of_Z (now (world s)))%float)
  (* the upload *)
  /\ forall s' delay,
       exec fuel (pump_onIsRealTime pump connection chunk (Some (buffer chunk)) delay
                    (Resolved (VBool false))) s'
       = Done VUndefined
           (scheduled delay (Pump_onTimeout pump (List.length (heap s')))
              (handedOver connection
                 (audioFrame (sessionRequestId (privRequestSession (core s')))
                    (Some (buffer chunk)))
                 (paced pump (buffer chunk) s')))
       /\ option_map nextSendTime (nth_error (pumps (core (paced pump (buffer chunk) s'))) pump)
          = option_map
              (fun _ => (Js.of_Z (now (world s'))
                         + Js.of_Z (buffer chunk) * 1000
                           / (Js.of_Z (avgBytesPerSec (world s')) * 2))%float)
              (nth_error (pumps (core s')) pump)
       /\ exec fuel (pump_onIsRealTime pump connection chunk (Some (buffer chunk)) delay
                       (Resolved (VBool true))) s'
          = Done VUndefined
              (chained pump
                 (handedOver connection
                    (audioFrame (sessionRequestId (privRequestSession (core s')))
                       (Some (buffer chunk)))
                    (paced pump (buffer chunk) s')))
       /\ timers (world (chained pump
                           (handedOver connection
                              (audioFrame (sessionRequestId (privRequestSession (core s')))
                                 (Some (buffer chunk)))
                              (paced pump (buffer chunk) s'))))
          = timers (world s').
Proof.
  intros session sendDelay Hx Hs He.
  split; [apply sendAudio_spec|].
  split; [reflexivity|].
  split; [vm_compute; reflexivity|].
  split; [rewrite (pump_onChunk_spec fuel s pump connection chunk x Hx Hs);
          now rewrite He|].
  split; [reflexivity|].
  intros s' delay. split; [now apply pump_onIsRealTime_timer|].
  split; [|split; [now apply pump_onIsRealTime_chained|reflexivity]].
  unfold paced. cbn [core].
  assert (E : forall l, nth_error (pumps (set_pumps l (core s'))) pump = nth_error l pump)
    by (intro l; destruct (core s'); reflexivity).
  rewrite E, nth_error_update_nth, Nat.eqb_refl.
  destruct (nth_error (pumps (core s')) pump); reflexivity.
Qed.

(** *** Configuration *)

Lemma unset_None (s : State) :
  privConnectionConfigurationPromise (core s) = None -> unset s = s.
Proof. destruct s as [[] ? ?]; cbn; now intros ->. Qed.

Lemma configureConnection_unfold (fuel : nat) (s : State) :
  exec fuel configureConnection s
  = match privConnectionConfigurationPromise (core s) with
    | Some p =>
        if stale (world s) (resultOf s p)
        then exec fuel configureConnection_attempt (unset s)
        else Done p s
    | None => exec fuel configureConnection_attempt s
    end.
Proof.
  rewrite !exec_unfold. unfold configureConnection.
  cbn -[configureConnection_attempt].
  destruct (privConnectionConfigurationPromise (core s)) as [p|]; [|reflexivity].
  cbn -[configureConnection_attempt].
  destruct (stale (world s) (resultOf s p)); reflexivity.
Qed.

(** [configureConnection] on a state in which no configuration can be
    reused, while the connection promise holds a connection that is not
    [Disconnected]: [speech.config] is handed to the transport, and only it. *)
Lemma configure_sends_config (fuel : nat) (s : State) (p : PromiseId)
    (connection : ConnRef) :
  unconfigured s ->
  privConnectionPromise (core s) = Some p ->
  resultOf s p = Resolved (VConnection connection) ->
  stale (world s) (resultOf s p) = false ->
  Js.truthy (configJson s) = true ->
  exec (S (S fuel)) configureConnection s
  = Done (List.length (heap s)) (configuring connection s).
Proof.
  intros Hu Hp Hr Hs Hj.
  assert (E : exec (S (S fuel)) configureConnection_attempt (unset s)
              = Done (List.length (heap s)) (configuring connection s)).
  { unfold configureConnection_attempt, unset.
    rewrite exec_bind, connectImpl_unfold.
    replace (privConnectionPromise (core (mkState (set_configurationPromise None (core s))
               (world s) (heap s)))) with (Some p)
      by (rewrite <- Hp; destruct s as [[] ? ?]; reflexivity).
    change (resultOf (mkState _ _ (heap s)) p) with (resultOf s p).
    cbn [world]. rewrite Hs. cbn [andThen].
    unfold configuring, configFrame, configJson in *.
    destruct s as [c w h]. unfold resultOf in Hr. cbn [heap core world] in *.
    destruct (nth_error h p) as [cell|] eqn:Ec; [|discriminate Hr].
    rewrite exec_unfold. cbn.
    heap_simpl. rewrite (nth_error_app_old _ _ _ _ Ec), Hr.
    cbn. rewrite exec_unfold. cbn. rewrite Hj. cbn. heap_simpl.
    cbn. heap_simpl. destruct c; reflexivity. }
  rewrite configureConnection_unfold. unfold unconfigured in Hu.
  destruct (privConnectionConfigurationPromise (core s)) as [q|] eqn:Eq.
  - now rewrite Hu.
  - now rewrite <- (unset_None s Eq) at 1.
Qed.

Lemma configure_sends_context (fuel : nat) (s : State) (connection : ConnRef)
    (r : PromiseResult) :
  Js.truthy (speechContextJson (world s)) = true ->
  exec fuel (configure_onConfigSent connection r) s
  = Done (VPromise (List.length (heap s) + 1)) (contextSent connection s).
Proof.
  intro Hj. unfold configure_onConfigSent, sendSpeechContext, contextSent, contextFrame.
  rewrite exec_unfold. destruct s as [c w h]. cbn in *. rewrite Hj. cbn.
  heap_simpl. reflexivity.
Qed.

Lemma framesOn_update (connection : ConnRef) (m : SpeechConnectionMessage)
    (p : PromiseId) (c : Core) (w : World) (h : list Cell) (x : Connection) :
  nth_error (connections w) connection = Some x ->
  framesOn (mkState c
              (set_connections (update_nth connection (record_sent m p) (connections w)) w)
              h) connection
  = map fst (sent x) ++ [m].
Proof.
  intro H. unfold framesOn, sentOn. cbn.
  rewrite nth_error_update_nth, Nat.eqb_refl, H. cbn.
  now rewrite map_app.
Qed.

(** While the configuration is pending, a cycle of the pump only waits for
    it. *)
Lemma pump_waits_for_configuration (fuel : nat) (s : State) (pump : PumpRef)
    (x : Pump) (p : PromiseId) :
  nth_error (pumps (core s)) pump = Some x ->
  terminated (core s) x = false ->
  privConnectionConfigurationPromise (core s) = Some p ->
  resultOf s p = Pending ->
  exec fuel (readAndUploadCycle pump) s
  = Done tt (subscribe p (H_on (Pump_onConnection pump) (Pump_onConnectionError pump)) s).
Proof.
  intros Hx Ht Hp Hr. unfold readAndUploadCycle, getPump.
  rewrite exec_unfold. cbn -[fetchConnection]. rewrite Hx. cbn -[fetchConnection].
  unfold terminated in Ht.
  apply orb_false_elim in Ht as [Ht H4]. apply orb_false_elim in Ht as [Ht H3].
  apply orb_false_elim in Ht as [H1 H2].
  apply negb_false_iff in H3, H4. rewrite H1, H2, H3, H4. cbn [negb andb].
  rewrite execWith_bind, <- exec_unfold. unfold fetchConnection.
  rewrite configureConnection_unfold, Hp, Hr.
  change (stale (world s) Pending) with false. cbn. now rewrite Hr.
Qed.

(** C1, as the code has it.  [speech.config] is sent once per configuration,
    not once per connection.  As long as the stored future of the
    configuration is pending, or holds a connection that is not
    [Disconnected], [fetchConnection] returns it and sends nothing (state
    [s]); [recognize()] begins by dropping the stored future, whatever it
    is; and a configuration that starts with no reusable future, over a
    connection promise that holds a live connection, hands a
    [speech.config] to that connection again (state [s0]). *)
Theorem config_once_per_configuration (fuel : nat) (s s0 : State) (q p : PromiseId)
    (connection : ConnRef) (cx : Connection) (recoMode : RecognitionMode)
    (cb : Callbacks) :
  privConnectionConfigurationPromise (core s) = Some q ->
  reusable s q ->
  unconfigured s0 ->
  privConnectionPromise (core s0) = Some p ->
  resultOf s0 p = Resolved (VConnection connection) ->
  reusable s0 p ->
  nth_error (connections (world s0)) connection = Some cx ->
  Js.truthy (configJson s0) = true ->
  exec fuel fetchConnection s = Done q s
  /\ exec fuel (recognize recoMode cb) s = exec fuel (recognize recoMode cb) (unset s)
  /\ unconfigured (unset s)
  /\ exec (S (S fuel)) fetchConnection s0
     = Done (List.length (heap s0)) (configuring connection s0)
  /\ framesOn (configuring connection s0) connection
     = framesOn s0 connection ++ [configFrame s0].
Proof.
  intros Hq Hsq Hu Hp Hr Hs Hc Hj.
  split; [|split; [|split; [|split]]].
  - unfold fetchConnection. now rewrite configureConnection_unfold, Hq, Hsq.
  - unfold recognize. rewrite !exec_bind.
    replace (exec fuel (modifyCore (set_configurationPromise None)) (unset s))
      with (exec fuel (modifyCore (set_configurationPromise None)) s); [reflexivity|].
    rewrite !exec_unfold. destruct s as [[] ? ?]. reflexivity.
  - destruct s as [[] ? ?]. exact I.
  - now apply configure_sends_config with (p := p).
  - unfold configuring. rewrite (framesOn_update _ _ _ _ _ _ cx Hc).
    unfold framesOn, sentOn. now rewrite Hc.
Qed.

(** The steps of a configuration, one by one.  A configuration over a
    live connection hands
    [speech.config] to the transport first, and nothing else; the rest is
    chained on the success of that send.  The rest hands [speech.context]
    to the transport and chains the end of the configuration on the
    success of this second send; the end yields the connection.  And a
    cycle of the pump that finds the configuration pending sends nothing:
    it waits for it. *)
Lemma configuration_order (fuel : nat) (s s1 s2 : State) (p q : PromiseId)
    (connection : ConnRef) (cx cx1 : Connection) (pump : PumpRef) (x : Pump)
    (r r' : PromiseResult) :
  unconfigured s ->
  privConnectionPromise (core s) = Some p ->
  resultOf s p = Resolved (VConnection connection) ->
  reusable s p ->
  nth_error (connections (world s)) connection = Some cx ->
  Js.truthy (configJson s) = true ->
  nth_error (connections (world s1)) connection = Some cx1 ->
  Js.truthy (speechContextJson (world s1)) = true ->
  nth_error (pumps (core s2)) pump = Some x ->
  terminated (core s2) x = false ->
  privConnectionConfigurationPromise (core s2) = Some q ->
  resultOf s2 q = Pending ->
  exec (S (S fuel)) configureConnection s
  = Done (List.length (heap s)) (configuring connection s)
  /\ framesOn (configuring connection s) connection
     = framesOn s connection ++ [configFrame s]
  /\ exec fuel (configure_onConfigSent connection r) s1
     = Done (VPromise (List.length (heap s1) + 1)) (contextSent connection s1)
  /\ framesOn (contextSent connection s1) connection
     = framesOn s1 connection ++ [contextFrame s1]
  /\ exec fuel (configure_onContextSent connection r') s1
     = Done (VConnection connection) s1
  /\ exec fuel (readAndUploadCycle pump) s2
     = Done tt (subscribe q (H_on (Pump_onConnection pump)
                               (Pump_onConnectionError pump)) s2).
Proof.
  intros Hu Hp Hr Hs Hc Hj Hc1 Hj1 Hx Ht Hq Hrq.
  split; [|split; [|split; [|split; [|split]]]].
  - now apply configure_sends_config with (p := p).
  - unfold configuring. rewrite (framesOn_update _ _ _ _ _ _ cx Hc).
    unfold framesOn, sentOn. now rewrite Hc.
  - now apply configure_sends_context.
  - unfold contextSent. rewrite (framesOn_update _ _ _ _ _ _ cx1 Hc1).
    unfold framesOn, sentOn. now rewrite Hc1.
  - now rewrite exec_unfold.
  - now apply pump_waits_for_configuration with (x := x).
Qed.

End Properties.

(** *** Concrete runs *)

(** C10, before any [recognize()] or [connect()]. *)
Lemma disconnect_before_connect :
  exec 0 disconnect (demoInitial SingleShot)
  = Thrown "TypeError" (demoInitial SingleShot).
Proof. apply disconnect_without_connection; reflexivity. Defined.

(** C3, here.  After [stopRecognizing()] the pump enters its next cycle with
    [isRecognizing = false]. *)
Lemma readAndUploadCycle_after_stop :
  exec 0 (readAndUploadCycle 0) stopped = Done tt stopped.
Proof.
  apply (readAndUploadCycle_terminated 0 stopped 0
           (mkPump 17 50%float 160000%float 1 "node")); vm_compute; reflexivity.
Defined.

(** C3 as stated fails.  In that run the cycle is entered with
    [isRecognizing = false]; it schedules nothing, but the future the pump
    returned (17) is still pending afterwards, and neither a timer, nor a
    queued callback, nor an awaited read of the audio node is left that
    could resolve it. *)
Lemma pump_future_left_pending :
  isRecognizing (privRequestSession (core stopped)) = false
  /\ pumpFuture stopped 0 = Some 17%nat
  /\ exec 10 (readAndUploadCycle 0) stopped = Done tt stopped
  /\ resultOf stopped 17 = Pending
  /\ timers (world stopped) = []
  /\ microtasks (world stopped) = []
  /\ awaited stopped = [Ext_read 0; Ext_send 0; Ext_send 0].
Proof. vm_compute. repeat split. Qed.

(** C6 fails on the code.  The first [open] answers 403: [fetchOnExpiry] is
    never called, no second connection is made, and the connection promise
    (1) stays pending for ever: it waits for the promise of the open
    callback (3), which waits for it, and no future of a collaborator is
    awaited any more. *)
Lemma forbidden_is_not_retried :
  filter isFetchOnExpiry (map origin (heap refused)) = []
  /\ List.length (connections (world refused)) = 1%nat
  /\ privConnectionPromise (core refused) = Some 1%nat
  /\ resultOf refused 1 = Pending
  /\ handlersOf refused 1 = [H_forward 3]
  /\ handlersOf refused 3 = [H_forward 1]
  /\ awaited refused = [].
Proof. vm_compute. repeat split. Qed.

(** C4 fails on the code.  In a continuous recognition whose audio has not
    ended, the [turn.end] message of the first turn is handed to
    [processTypeSpecificMessages]. *)
Lemma turn_end_reaches_the_hook :
  isContinuousRecognition (privRecognizerConfig (core secondTurn)) = true
  /\ trace (world secondTurn)
     = [ Recognizer_sessionStarted (guid 0);
         Hook_processTypeSpecificMessages turnEndMessage demoCallbacks ].
Proof. vm_compute. repeat split. Qed.

(** C1 as stated fails.  A second [recognize()] while the connection of the
    first is still connected reuses that connection, the only one ever
    made, and hands it a second [speech.config]. *)
Lemma config_sent_again_on_reused_connection :
  List.length (connections (world reconfigured)) = 1%nat
  /\ countPath Text "speech.config" reconfigured 0 = 2%nat
  /\ map (status reconfigured) (sentOn reconfigured 0)
     = [ ("speech.config", guid 1, accepted);
         ("speech.context", guid 1, accepted);
         ("speech.config", guid 6, Pending) ].
Proof. vm_compute. repeat split. Qed.

(** The turns of one continuous recognition share their [speech.config]:
    after two turns the connection has got one [speech.config] and two
    [speech.context], one per request id. *)
Lemma two_turns_one_config :
  countPath Text "speech.config" afterTwoTurns 0 = 1%nat
  /\ countPath Text "speech.context" afterTwoTurns 0 = 2%nat
  /\ map (fun m => requestId m)
       (filter (isPath Text "speech.context") (framesOn afterTwoTurns 0))
     = [request1; request2].
Proof. vm_compute. repeat split. Qed.

(** C2 as stated fails.  In the second turn of a continuous recognition
    the [speech.context] of the new request id has been handed to the
    transport but its send future is still pending when the pump hands
    over an [audio] frame carrying that request id. *)
Lemma audio_before_context_is_accepted :
  sessionRequestId (privRequestSession (core secondTurnAudio)) = request2
  /\ map (status secondTurnAudio) (skipn 3 (sentOn secondTurnAudio 0))
     = [ ("speech.context", request2, Pending);
         ("audio", request2, Pending) ].
Proof. vm_compute. repeat split. Qed.

(** C5 as stated fails.  At 8008 bytes per second the budget computed by
    the class is 40039.99999999999..., below 8008 * 5000 / 1000 = 40040; the
    chunk that brings [bytesSent] to exactly 40040 is therefore throttled:
    its upload is followed by a timer of 1250 ms instead of none. *)
Lemma budget_below_the_product :
  (8008 * 5000 / 1000 = 40040)%Z
  /\ (Js.of_Z 8008 * Js.of_Z 5000 / 1000 = 40040)%float
  /\ Js.geb (unthrottledBudget 8008 "5000") 40040%float = false
  /\ option_map maxSendUnthrottledBytes (nth_error (pumps (core budgetFilled)) 0)
     = Some (unthrottledBudget 8008 "5000")
  /\ bytesSent (privRequestSession (core budgetFilled)) = 40040
  /\ timers (world budgetFilled) = [(1250%float, Pump_onTimeout 0 30)].
Proof. vm_compute. repeat split. Qed.

(** C8 fails on the code, with a JSON parser.  The receive loop of a
    continuous recognition reads a [speech.enddetected] whose body is
    empty: the literal [{ Offset: 0 }] is refused, no [speechEndDetected] is
    raised, [currentTurnAudioOffset] keeps its value, and the loop, which
    was awaiting a message of the connection, awaits none any more.  The
    body [{"Offset": 0}] is read as the offset 0. *)
Lemma empty_body_is_not_offset_zero :
  textBody emptyEndDetected = EmptyString
  /\ endDetectedJson emptyEndDetected = "{ Offset: 0 }"
  /\ SpeechDetected_fromJSON "{ Offset: 0 }" = None
  /\ SpeechDetected_fromJSON (offsetJson 0) = Some 0
  /\ trace (world (streaming Continuous)) = [Recognizer_sessionStarted (guid 0)]
  /\ trace (world emptyEnd) = [Recognizer_sessionStarted (guid 0)]
  /\ currentTurnAudioOffset (privRequestSession (core emptyEnd)) = 0
  /\ awaited (streaming Continuous) = [Ext_read 0; Ext_nodeRead "node"]
  /\ awaited emptyEnd = [Ext_nodeRead "node"].
Proof. vm_compute. repeat split. Qed.

(** In the second turn of a continuous recognition a [speech.enddetected]
    with [Offset] 10 000 000 arrives while [currentTurnAudioOffset] is
    10 000 000: [onServiceRecognized] is called with 20 000 000, the sum, as
    it was called with 10 000 000 + 0 in the first turn. *)
Lemma onServiceRecognized_gets_the_sum :
  SpeechDetected_fromJSON (offsetJson 10000000) = Some 10000000
  /\ filter isOnServiceRecognized (trace (world afterTwoTurns))
     = [ Session_onServiceRecognized 10000000;
         Session_onServiceRecognized 20000000 ].
Proof. vm_compute. repeat split. Qed.

(** C9 as stated fails.  The pump of a single-shot recognition reads the
    last chunk ([isEnd = true], the session is not speech-ended) and the
    audio source then fails to tell its device type: no [audio] frame is
    sent, [onSpeechEnded()] is not called, and the future of the pump (17)
    stays pending with no timer, no queued callback and no awaited future of
    the audio source or of an upload left that could complete it. *)
Lemma end_of_audio_without_device_type :
  isEnd (mkChunk 0 true) = true
  /\ isSpeechEnded (privRequestSession (core (streaming SingleShot))) = false
  /\ awaited (streaming SingleShot) = [Ext_read 0; Ext_nodeRead "node"]
  /\ map path (framesOn failedQuery 0) = ["speech.config"; "speech.context"]
  /\ isSpeechEnded (privRequestSession (core failedQuery)) = false
  /\ pumpFuture failedQuery 0 = Some 17%nat
  /\ resultOf failedQuery 17 = Pending
  /\ timers (world failedQuery) = []
  /\ microtasks (world failedQuery) = []
  /\ awaited failedQuery = [Ext_read 0].
Proof. vm_compute. repeat split. Qed.

(** *** The general statements, at work *)

(** C7 at work.  The stored promise of an open connection is returned as
    it is, here to the call a retry would make.  After a failed
    authentication, and after the transport has dropped the connection, the
    stored promise (1) is given up for a new one, which the next call
    returns. *)
Lemma connectImpl_again :
  (privConnectionPromise (core connected) = Some 1%nat
   /\ resultOf connected 1 = Resolved (VConnection 0)
   /\ stateOf (world connected) 0 = Connected
   /\ exec 0 (connectImpl true) connected = Done 1%nat connected)
  /\ (privConnectionPromise (core authFailed) = Some 1%nat
      /\ resultOf authFailed 1 = Rejected "no token"
      /\ exec 0 (connectImpl false) authFailed
         = Done 3%nat (attempted false (cleared authFailed))
      /\ resultOf (attempted false (cleared authFailed)) 3 = Pending
      /\ exec 0 (connectImpl false) (attempted false (cleared authFailed))
         = Done 3%nat (attempted false (cleared authFailed)))
  /\ (privConnectionPromise (core lost) = Some 1%nat
      /\ resultOf lost 1 = Resolved (VConnection 0)
      /\ stateOf (world lost) 0 = Disconnected
      /\ exec 0 (connectImpl false) lost
         = Done 6%nat (attempted false (cleared lost))
      /\ privConnectionPromise (core (attempted false (cleared lost))) = Some 6%nat).
Proof.
  split; [|split].
  - destruct (connectImpl_idempotent 0 true connected 1
                ltac:(vm_compute; reflexivity)) as [H _].
    split; [vm_compute; reflexivity|]. split; [vm_compute; reflexivity|].
    split; [vm_compute; reflexivity|].
    apply H.
    + intros [e He]; vm_compute in He; discriminate He.
    + intros [c [Hc Hd]]; vm_compute in Hc; injection Hc as <-;
        vm_compute in Hd; discriminate Hd.
  - destruct (connectImpl_idempotent 0 false authFailed 1
                ltac:(vm_compute; reflexivity)) as [_ H].
    destruct H as (H1 & _ & _ & _ & _ & H6 & H7).
    + left. exists "no token". vm_compute; reflexivity.
    + split; [vm_compute; reflexivity|]. split; [vm_compute; reflexivity|].
      split; [exact H1|]. split; [exact H6|exact H7].
  - destruct (connectImpl_idempotent 0 false lost 1
                ltac:(vm_compute; reflexivity)) as [_ H].
    destruct H as (H1 & _ & _ & _ & H5 & _ & _).
    + right. exists 0%nat. split; vm_compute; reflexivity.
    + split; [vm_compute; reflexivity|]. split; [vm_compute; reflexivity|].
      split; [vm_compute; reflexivity|]. split; [exact H1|exact H5].
Defined.


(** C9 at work: the end of the audio in a single-shot recognition.  The
    read of the pump (18) completes with the last chunk, which sends
    nothing; the device type (21) is told, and the run that follows hands
    the empty [audio] frame to the transport, ends the speech and resolves
    the future of the pump (17); had the device type failed, the future
    would be pending. *)
Lemma end_of_stream_here :
  isEnd (mkChunk 0 true) = true
  /\ waiting (streaming SingleShot) 18 [H_on (Pump_onChunk 0 0) (Pump_onReadError 0)]
  /\ exec 7 (Complete 18 endOfAudio skip) (streaming SingleShot) = Done tt lastChunkTaken
  /\ framesOn lastChunkTaken 0 = framesOn (streaming SingleShot) 0
  /\ exec 8 (Complete 21 (Resolved (VDeviceInfo File)) skip) lastChunkTaken
     = Done tt ended
  /\ framesOn ended 0
     = framesOn (streaming SingleShot) 0
       ++ [mkMessage Binary "audio" request1 None NullBody]
  /\ isSpeechEnded (privRequestSession (core ended)) = true
  /\ resultOf ended 17 = Resolved (VBool true)
  /\ exec 7 (Complete 21 (Rejected "no device") skip) lastChunkTaken
     = Done tt failedQuery
  /\ resultOf failedQuery 17 = Pending.
Proof.
  assert (W : waiting (streaming SingleShot) 18
                [H_on (Pump_onChunk 0 0) (Pump_onReadError 0)]).
  { exists (Ext_nodeRead "node"). vm_compute; reflexivity. }
  assert (T : chunkTaken 0 0 (mkChunk 0 true) None 0%float
                (complete 18 (Resolved (VChunk (mkChunk 0 true))) (streaming SingleShot))
              = lastChunkTaken) by (vm_compute; reflexivity).
  assert (E : exec 8 (Complete 21 (Resolved (VDeviceInfo File)) skip) lastChunkTaken
              = Done tt ended) by (vm_compute; reflexivity).
  pose proof (end_of_stream 5 (streaming SingleShot) 0 0 (mkChunk 0 true) demoPump
                demoConnection 18 File "no device"
                ltac:(reflexivity) ltac:(vm_compute; reflexivity)
                ltac:(vm_compute; reflexivity) ltac:(vm_compute; reflexivity)
                W ltac:(vm_compute; reflexivity) ltac:(vm_compute; lia)
                ltac:(discriminate)) as H.
  cbv zeta in H. rewrite T in H.
  change (Datatypes.length (heap (streaming SingleShot))) with 21%nat in H.
  destruct H as (H1 & H2 & _ & _ & H5 & H6 & _ & _ & _ & _ & _ & H12 & H13 & _ & _ & _
                 & H17 & _).
  split; [reflexivity|]. split; [exact W|]. split; [exact H1|]. split; [exact H2|].
  split; [exact E|].
  split; [vm_compute; reflexivity|]. split; [vm_compute; reflexivity|].
  split; [exact (H12 ended E)|].
  split; [rewrite H13; vm_compute; reflexivity|].
  vm_compute; reflexivity.
Defined.

(** C5 at work: the first chunk of 3200 bytes is within the budget of
    160000 and gets no delay. *)
Lemma pacing_first_chunk :
  nth_error (pumps (core (streaming SingleShot))) 0 = Some demoPump
  /\ exec 0 (pump_onChunk 0 0 (audioChunk 3200)) (streaming SingleShot)
     = Done VUndefined
         (chunkTaken 0 0 (mkChunk 3200 false) (Some 3200) 0%float
            (counted 3200 (streaming SingleShot))).
Proof.
  split; [vm_compute; reflexivity|].
  pose proof (pacing 0 (streaming SingleShot) 0 0 (mkChunk 3200 false) demoPump "node"
                ltac:(vm_compute; reflexivity) ltac:(vm_compute; reflexivity)
                ltac:(reflexivity))
    as (_ & _ & _ & H & _).
  exact H.
Defined.

(** C1 at work: while the first recognition streams, [fetchConnection]
    returns the stored future (9); after a second [recognize()] over the
    same connection a new configuration hands over [speech.config] again. *)
Lemma config_once_per_configuration_here :
  exec 0 fetchConnection (streaming SingleShot) = Done 9%nat (streaming SingleShot)
  /\ privConnectionConfigurationPromise (core recognizedAgain) = None
  /\ framesOn (configuring 0 recognizedAgain) 0
     = framesOn recognizedAgain 0 ++ [configFrame recognizedAgain].
Proof.
  pose proof (config_once_per_configuration 0 (streaming SingleShot) recognizedAgain
                9 1 0
                (mkConnection (Some (guid 4))  Connected
                   [ (mkMessage Text "speech.config" request1
                        (Some "application/json") (TextBody "{ context }"), 10%nat);
                     (mkMessage Text "speech.context" request1
                        (Some "application/json") (TextBody "{ grammar }"), 13%nat) ])
                SingleShot demoCallbacks
                ltac:(vm_compute; reflexivity) ltac:(vm_compute; reflexivity)
                ltac:(vm_compute; exact I) ltac:(vm_compute; reflexivity)
                ltac:(vm_compute; reflexivity) ltac:(vm_compute; reflexivity)
                ltac:(vm_compute; reflexivity) ltac:(vm_compute; reflexivity))
    as (H1 & _ & _ & _ & H5).
  split; [exact H1|]. split; [vm_compute; reflexivity|]. exact H5.
Defined.

(** The steps of a configuration at work: the second configuration of
    [config_once_per_configuration_here]; in the first one, the step that
    follows the [speech.config]; and the pump while a new connection is
    dialed. *)
Lemma configuration_order_here :
  framesOn (configuring 0 recognizedAgain) 0
  = framesOn recognizedAgain 0 ++ [configFrame recognizedAgain]
  /\ framesOn (contextSent 0 configSent) 0
     = framesOn configSent 0 ++ [contextFrame configSent]
  /\ exec 0 (readAndUploadCycle 0) redialing
     = Done tt (subscribe 23 (H_on (Pump_onConnection 0) (Pump_onConnectionError 0))
                  redialing).
Proof.
  pose proof (configuration_order 0 recognizedAgain configSent redialing
        1 23 0
        (mkConnection (Some (guid 4))  Connected
           [ (mkMessage Text "speech.config" request1
                (Some "application/json") (TextBody "{ context }"), 10%nat);
             (mkMessage Text "speech.context" request1
                (Some "application/json") (TextBody "{ grammar }"), 13%nat) ])
        (mkConnection (Some (guid 4))  Connected
           [ (mkMessage Text "speech.config" request1
                (Some "application/json") (TextBody "{ context }"), 10%nat) ])
        0 demoPump accepted accepted
        ltac:(vm_compute; exact I) ltac:(vm_compute; reflexivity)
        ltac:(vm_compute; reflexivity) ltac:(vm_compute; reflexivity)
        ltac:(vm_compute; reflexivity) ltac:(vm_compute; reflexivity)
        ltac:(vm_compute; reflexivity) ltac:(vm_compute; reflexivity)
        ltac:(vm_compute; reflexivity) ltac:(vm_compute; reflexivity)
        ltac:(vm_compute; reflexivity) ltac:(vm_compute; reflexivity))
    as (_ & H2 & _ & H4 & _ & H6).
  split; [exact H2|]. split; [exact H4|]. exact H6.
Defined.

(* ===================================================================== *)
(** ** The invariant is kept *)
(* ===================================================================== *)

(** The order of the frames is not a property of one method: a frame is
    handed over by a callback that was chained, several events earlier, on
    a future some other method returned.  [Inv R s] says what the heap of
    promises promises: the futures of [connectImpl] (those [R] marks) may
    carry a connection on which nothing was sent, every other future that
    carries a connection carries a configured one, and every callback
    waiting on a future will find, when the future resolves, what it relies
    on ([cok], [cpre]).  The proof goes by a weakest-precondition calculus
    over [Prog] ([wp]), level of callbacks by level ([sound]). *)

(** *** What a later state keeps *)

Lemma grows_refl (s : State) : grows s s.
Proof.
  split; [apply extends_refl|]. split; [auto|].
  intro c; exists []; now rewrite app_nil_r.
Qed.

Lemma grows_trans (s1 s2 s3 : State) : grows s1 s2 -> grows s2 s3 -> grows s1 s3.
Proof.
  intros (E12 & V12 & L12) (E23 & V23 & L23).
  split; [eapply extends_trans; eauto|]. split; [auto|].
  intro c. destruct (L12 c) as [m1 H1], (L23 c) as [m2 H2].
  exists (m1 ++ m2). now rewrite H2, H1, app_assoc.
Qed.

Lemma later_refl (R : list bool) (s : State) : later R s R s.
Proof. split; [exists []; now rewrite app_nil_r|apply grows_refl]. Qed.

Lemma later_trans (R1 R2 R3 : list bool) (s1 s2 s3 : State) :
  later R1 s1 R2 s2 -> later R2 s2 R3 s3 -> later R1 s1 R3 s3.
Proof.
  intros [[m1 H1] G1] [[m2 H2] G2]. split; [|eapply grows_trans; eauto].
  exists (m1 ++ m2). now rewrite H2, H1, app_assoc.
Qed.

Lemma acceptedIn_extends (s s' : State) (p : PromiseId) :
  extends s s' -> acceptedIn s p = true -> acceptedIn s' p = true.
Proof.
  unfold acceptedIn. intros E H.
  destruct (resultOf s p) eqn:Er; try discriminate.
  rewrite E; rewrite Er; [reflexivity|discriminate].
Qed.

Lemma acceptedAmong_mono (s s' : State) (kind : SpeechConnectionMessage -> bool)
    (log log' : list (SpeechConnectionMessage * PromiseId)) :
  extends s s' -> (forall x, In x log -> In x log') ->
  acceptedAmong s kind log -> acceptedAmong s' kind log'.
Proof.
  intros E I (m & p & Hin & Hk & Ha). exists m, p.
  eauto using acceptedIn_extends.
Qed.

Lemma In_sentOn_grows (s s' : State) (c : ConnRef)
    (x : SpeechConnectionMessage * PromiseId) :
  grows s s' -> In x (sentOn s c) -> In x (sentOn s' c).
Proof.
  intros (_ & _ & L). destruct (L c) as [more ->]. intro. apply in_or_app. now left.
Qed.

Lemma valid_grows (s s' : State) (c : ConnRef) : grows s s' -> valid s c -> valid s' c.
Proof. intros (_ & V & _). apply V. Qed.

Lemma acceptedAmong_grows (s s' : State) (kind : SpeechConnectionMessage -> bool)
    (c : ConnRef) :
  grows s s' -> acceptedAmong s kind (sentOn s c) -> acceptedAmong s' kind (sentOn s' c).
Proof.
  intros G. apply acceptedAmong_mono; [apply G|].
  intro x. now apply In_sentOn_grows.
Qed.

Lemma configAccepted_grows (s s' : State) (c : ConnRef) :
  grows s s' -> configAccepted s c -> configAccepted s' c.
Proof. apply acceptedAmong_grows. Qed.

Lemma configured_grows (s s' : State) (c : ConnRef) :
  grows s s' -> configured s c -> configured s' c.
Proof.
  intros G [H1 H2]. split; [eapply configAccepted_grows|eapply acceptedAmong_grows]; eauto.
Qed.

Lemma sentAs_grows (s s' : State) (c : ConnRef) (p : PromiseId)
    (kind : SpeechConnectionMessage -> bool) :
  grows s s' -> sentAs s c p kind -> sentAs s' c p kind.
Proof. intros G (m & Hin & Hm). exists m. eauto using In_sentOn_grows. Qed.

Lemma raw_prefix (R more : list bool) (p : PromiseId) :
  known R p -> raw (R ++ more) p = raw R p.
Proof. intro H. unfold raw. now rewrite app_nth1. Qed.

Lemma known_later (R R' : list bool) (s s' : State) (p : PromiseId) :
  later R s R' s' -> known R p -> known R' p.
Proof. intros [[more ->] _]. unfold known. rewrite length_app. lia. Qed.

Lemma raw_later (R R' : list bool) (s s' : State) (p : PromiseId) :
  later R s R' s' -> known R p -> raw R' p = raw R p.
Proof. intros [[more ->] _]. apply raw_prefix. Qed.

Lemma plain_later (R R' : list bool) (s s' : State) (p : PromiseId) :
  later R s R' s' -> plain R p -> plain R' p.
Proof.
  intros L [H1 H2]. split; [eapply known_later; eauto|].
  now rewrite (raw_later _ _ _ _ _ L H1).
Qed.

Lemma cpre_grows (s s' : State) (k : Closure) (arg : PromiseResult) :
  grows s s' -> cpre s k arg -> cpre s' k arg.
Proof.
  intro G. destruct k; cbn; auto;
    try (destruct arg as [|[]|]; auto);
    eauto using configured_grows, configAccepted_grows, valid_grows.
Qed.

Lemma cok_later (R R' : list bool) (s s' : State) (p : PromiseId) (k : Closure) :
  later R s R' s' -> cok R s p k -> cok R' s' p k.
Proof.
  intros L. pose proof L as [_ G]. destruct k; cbn; auto;
    eauto using configured_grows, plain_later, sentAs_grows, valid_grows.
  intros [H1 H2]. eauto using configAccepted_grows, sentAs_grows.
Qed.

Lemma takes_later (R R' : list bool) (s s' : State) (k : Closure) (d : PromiseId) :
  later R s R' s' -> takes R k d -> takes R' k d.
Proof.
  intros L [Hd Hr]. split; [eapply known_later; eauto|].
  intro H. rewrite (raw_later _ _ _ _ _ L Hd). auto.
Qed.

Lemma hok_later (R R' : list bool) (s s' : State) (p : PromiseId) (h : Handler) :
  later R s R' s' -> hok R s p h -> hok R' s' p h.
Proof.
  intros L. destruct h; cbn; intros [H1 H2];
    try (split; eauto using cok_later, takes_later; fail).
  split; [eapply known_later; eauto|].
  rewrite (raw_later _ _ _ _ _ L H1). eauto using plain_later.
Qed.

Lemma cret_later (R R' : list bool) (s s' : State) (k : Closure) (v : Value) :
  later R s R' s' -> cret R s k v -> cret R' s' k v.
Proof.
  intros L. pose proof L as [_ G].
  destruct v; cbn; auto; try (now apply configured_grows).
  intros [H1 H2]. split; [eapply known_later; eauto|].
  rewrite (raw_later _ _ _ _ _ L H1). auto.
Qed.

Lemma fits_later (R R' : list bool) (s s' : State) (p : PromiseId) (r : PromiseResult) :
  later R s R' s' -> known R p -> fits R s p r -> fits R' s' p r.
Proof.
  intros L Hp F c E. destruct (F c E) as [V C].
  rewrite (raw_later _ _ _ _ _ L Hp). destruct L as [_ G].
  split; eauto using configured_grows, valid_grows.
Qed.

Lemma mayFollow_grows (s s' : State) (c : ConnRef) (m : SpeechConnectionMessage) :
  grows s s' -> mayFollow s c m -> mayFollow s' c m.
Proof.
  intros G [F|[[Fb F]|F]]; [now left|right; left|right; right];
    eauto using configAccepted_grows, configured_grows.
Qed.

Lemma ordered_same (s s' : State) (c : ConnRef) :
  sentOn s' c = sentOn s c -> extends s s' -> ordered s c -> ordered s' c.
Proof.
  intros E X O before m p rest H. rewrite E in H.
  destruct (O before m p rest H) as (O1 & O2 & O3).
  split; [exact O1|split]; intro Hm.
  - eapply acceptedAmong_mono; eauto.
  - eapply acceptedAmong_mono; eauto.
Qed.

Lemma isConfig_not_context (m : SpeechConnectionMessage) :
  isConfig m = true -> isContext m = false.
Proof.
  unfold isConfig, isContext, isPath. intro H.
  apply andb_true_iff in H as [H1 H2]. apply String.eqb_eq in H2. rewrite H2.
  now rewrite andb_false_r.
Qed.

Lemma isConfig_not_binary (m : SpeechConnectionMessage) :
  isConfig m = true -> isBinary m = false.
Proof.
  unfold isConfig, isBinary, isPath. destruct (messageType m); cbn; auto.
Qed.

(** Handing over one more frame that may follow keeps the order. *)
Lemma ordered_append (s s' : State) (c : ConnRef) (m : SpeechConnectionMessage)
    (p : PromiseId) :
  sentOn s' c = sentOn s c ++ [(m, p)] -> extends s s' ->
  ordered s c -> mayFollow s c m -> ordered s' c.
Proof.
  intros E X O F before m0 p0 rest H. rewrite E in H.
  destruct rest as [|y rest _] using rev_ind.
  - apply app_inj_tail in H as [<- Hmp]. injection Hmp as <- <-.
    destruct F as [F|[[Fb F]|F]].
    + split; [auto|]. split; intro Hm.
      * now rewrite (isConfig_not_context _ F) in Hm.
      * now rewrite (isConfig_not_binary _ F) in Hm.
    + split; [|split].
      * intros E0. unfold configAccepted in F. rewrite E0 in F.
        destruct F as (? & ? & [] & _).
      * intro. eapply acceptedAmong_mono; eauto.
      * intro Hm. congruence.
    + destruct F as [F1 F2]. split; [|split].
      * intros E0. unfold configAccepted in F1. rewrite E0 in F1.
        destruct F1 as (? & ? & [] & _).
      * intro. eapply acceptedAmong_mono; eauto.
      * intro. eapply acceptedAmong_mono; eauto.
  - replace (before ++ (m0, p0) :: rest ++ [y])
      with ((before ++ (m0, p0) :: rest) ++ [y]) in H
      by (now rewrite <- app_assoc).
    apply app_inj_tail in H as [H _].
    destruct (O before m0 p0 rest H) as (O1 & O2 & O3).
    split; [exact O1|split]; intro Hm.
    + eapply acceptedAmong_mono; eauto.
    + eapply acceptedAmong_mono; eauto.
Qed.

(** *** The steps of a run *)

Lemma fits_grows (R : list bool) (s s' : State) (p : PromiseId) (r : PromiseResult) :
  grows s s' -> fits R s p r -> fits R s' p r.
Proof.
  intros G F c E. destruct (F c E) as [V C].
  split; eauto using configured_grows, valid_grows.
Qed.

Lemma resultOf_known (R : list bool) (s : State) (p : PromiseId) :
  Inv R s -> resultOf s p <> Pending -> known R p.
Proof.
  intros I H. unfold known. rewrite (inv_length _ _ I).
  unfold resultOf in H. destruct (nth_error (heap s) p) eqn:E; [|congruence].
  eauto using nth_error_Some_lt.
Qed.

Lemma handlersOf_known (R : list bool) (s : State) (p : PromiseId) (h : Handler) :
  Inv R s -> In h (handlersOf s p) -> known R p.
Proof.
  intros I H. unfold known. rewrite (inv_length _ _ I).
  unfold handlersOf in H. destruct (nth_error (heap s) p) eqn:E; [|destruct H].
  eauto using nth_error_Some_lt.
Qed.

Lemma coreOK_later (R R' : list bool) (s s' : State) (c : Core) :
  later R s R' s' -> coreOK R c -> coreOK R' c.
Proof. intros L [H1 H2]. split; eauto using plain_later, known_later. Qed.

(** A step that leaves the heap and the logs as they are. *)
Lemma Inv_same (R : list bool) (s s' : State) :
  Inv R s -> heap s' = heap s ->
  connections (world s') = connections (world s) ->
  quiet (world s') -> coreOK R (core s') ->
  Inv R s' /\ later R s R s'.
Proof.
  intros I Hh Hc Hq Ho.
  assert (S : forall c, sentOn s' c = sentOn s c)
    by (intro c; unfold sentOn; now rewrite Hc).
  assert (G : grows s s').
  { split; [now apply extends_heap|]. split; [unfold valid; now rewrite Hc|].
    intro c. exists []. now rewrite app_nil_r. }
  assert (L : later R s R s') by (split; [exists []; now rewrite app_nil_r|exact G]).
  split; [|exact L]. destruct I as [I1 I2 I3 I4 I5 I6]. constructor.
  - congruence.
  - intro c. apply (ordered_same s); [auto|apply G|apply I2].
  - intro p. unfold resultOf. rewrite Hh. eapply fits_grows; eauto; apply I3.
  - intros p h. unfold handlersOf. rewrite Hh. intro H.
    eapply hok_later; eauto; now apply I4.
  - exact Hq.
  - exact Ho.
Qed.

Lemma Inv_putCore (R : list bool) (s : State) (c : Core) :
  Inv R s -> coreOK R c ->
  Inv R (mkState c (world s) (heap s)) /\ later R s R (mkState c (world s) (heap s)).
Proof. intros I H. apply Inv_same; auto. apply I. Qed.

Lemma Inv_putWorld (R : list bool) (s : State) (w : World) :
  Inv R s -> worldOK s w ->
  Inv R (mkState (core s) w (heap s)) /\ later R s R (mkState (core s) w (heap s)).
Proof.
  intros I (Hq & Hn & Hl). set (s' := mkState (core s) w (heap s)).
  assert (G : grows s s').
  { split; [now apply extends_heap|]. split; [unfold valid; cbn; intros; lia|]. intro c.
    destruct (Hl c) as [E|(m & p & E & _)]; [exists []|exists [(m, p)]];
      unfold sentOn; cbn; fold (logOf w c); rewrite E; now rewrite ?app_nil_r. }
  assert (L : later R s R s') by (split; [exists []; now rewrite app_nil_r|exact G]).
  split; [|exact L]. destruct I as [I1 I2 I3 I4 I5 I6]. constructor.
  - exact I1.
  - intro c. destruct (Hl c) as [E|(m & p & E & F)].
    + apply (ordered_same s); [exact E|apply G|apply I2].
    + apply (ordered_append s _ c m p); [exact E|apply G|apply I2|exact F].
  - intro p. eapply fits_grows; eauto; apply I3.
  - intros p h H. eapply hok_later; eauto; now apply I4.
  - exact Hq.
  - exact I6.
Qed.

Lemma resultOf_allocate (o : Origin) (r : PromiseResult) (s : State) (p : PromiseId) :
  resultOf (allocate o r s) p
  = if Nat.eqb p (List.length (heap s)) then r else resultOf s p.
Proof.
  unfold resultOf, allocate, set_heap; cbn.
  destruct (Nat.eqb_spec p (List.length (heap s))) as [->|N].
  - now rewrite nth_error_app_len.
  - destruct (Nat.lt_ge_cases p (List.length (heap s))) as [Hlt|Hge].
    + now rewrite nth_error_app1.
    + rewrite nth_error_app2 by lia.
      destruct (p - List.length (heap s))%nat as [|[|n]] eqn:E; [lia| |]; cbn;
        symmetry; destruct (nth_error (heap s) p) eqn:E'; auto;
        apply nth_error_Some_lt in E'; lia.
Qed.

Lemma handlersOf_allocate (o : Origin) (r : PromiseResult) (s : State) (p : PromiseId) :
  handlersOf (allocate o r s) p = handlersOf s p.
Proof.
  unfold handlersOf, allocate, set_heap; cbn.
  destruct (Nat.lt_ge_cases p (List.length (heap s))) as [Hlt|Hge].
  - now rewrite nth_error_app1.
  - rewrite nth_error_app2 by lia.
    replace (nth_error (heap s) p) with (@None Cell)
      by (symmetry; now apply nth_error_None).
    destruct (p - List.length (heap s))%nat as [|[|n]]; reflexivity.
Qed.

Lemma raw_new (R : list bool) (b : bool) : raw (R ++ [b]) (List.length R) = b.
Proof. unfold raw. rewrite app_nth2 by lia. now rewrite Nat.sub_diag. Qed.

Lemma Inv_allocate (R : list bool) (s : State) (o : Origin) (r : PromiseResult)
    (b : bool) :
  Inv R s ->
  (forall c, r = Resolved (VConnection c) ->
             valid s c /\ (b = false -> configured s c)) ->
  Inv (R ++ [b]) (allocate o r s) /\ later R s (R ++ [b]) (allocate o r s).
Proof.
  intros I Hb. set (s' := allocate o r s).
  assert (G : grows s s').
  { split; [apply extends_allocate|]. split; [auto|]. intro c. exists []. now rewrite app_nil_r. }
  assert (L : later R s (R ++ [b]) s') by (split; [now exists [b]|exact G]).
  split; [|exact L]. pose proof I as [I1 I2 I3 I4 I5 I6]. constructor.
  - unfold s', allocate, set_heap; cbn. rewrite !length_app. cbn. lia.
  - intro c. apply (ordered_same s); [auto|apply G|apply I2].
  - intro p. unfold s'. rewrite resultOf_allocate.
    destruct (Nat.eqb_spec p (List.length (heap s))) as [->|N].
    + rewrite <- I1. intros c E. rewrite raw_new. destruct (Hb c E) as [V C].
      split; [eapply valid_grows; eauto|].
      intro. apply (configured_grows s); auto.
    + destruct (resultOf s p) eqn:E; try (intros c; discriminate).
      rewrite <- E. eapply fits_later; eauto.
      eapply resultOf_known; eauto. congruence.
  - intros p h. unfold s'. rewrite handlersOf_allocate. intro H.
    eapply hok_later; eauto.
  - exact I5.
  - eapply coreOK_later; eauto.
Qed.

Lemma handlersOf_subscribe (p q : PromiseId) (h : Handler) (s : State) (x : Handler) :
  In x (handlersOf (subscribe p h s) q) ->
  In x (handlersOf s q) \/ (q = p /\ x = h).
Proof.
  unfold handlersOf, subscribe, set_heap; cbn.
  rewrite nth_error_update_nth.
  destruct (Nat.eqb_spec p q) as [->|N]; auto.
  destruct (nth_error (heap s) q); cbn; auto.
  intro H. apply in_app_or in H as [H|[H|[]]]; auto.
Qed.

Lemma Inv_subscribe (R : list bool) (s : State) (p : PromiseId) (h : Handler) :
  Inv R s -> hok R s p h ->
  Inv R (subscribe p h s) /\ later R s R (subscribe p h s).
Proof.
  intros I Hh. set (s' := subscribe p h s).
  assert (G : grows s s').
  { split; [apply extends_subscribe|]. split; [auto|]. intro c. exists []. now rewrite app_nil_r. }
  assert (L : later R s R s') by (split; [exists []; now rewrite app_nil_r|exact G]).
  split; [|exact L]. pose proof I as [I1 I2 I3 I4 I5 I6]. constructor.
  - unfold s', subscribe, set_heap; cbn.
    rewrite I1. clear. revert p. induction (heap s); intros [|p]; cbn; auto.
  - intro c. apply (ordered_same s); [auto|apply G|apply I2].
  - intro q. replace (resultOf s' q) with (resultOf s q).
    + eapply fits_grows; eauto.
    + unfold s', resultOf, subscribe, set_heap; cbn.
      rewrite nth_error_update_nth.
      destruct (Nat.eqb p q); auto. destruct (nth_error (heap s) q); auto.
  - intros q x H. apply handlersOf_subscribe in H as [H|[-> ->]];
      eapply hok_later; eauto.
  - exact I5.
  - exact I6.
Qed.

Lemma resultOf_complete_other (p q : PromiseId) (r : PromiseResult) (s : State) :
  p <> q -> resultOf (complete p r s) q = resultOf s q.
Proof.
  intro N. unfold resultOf, complete, set_heap; cbn.
  rewrite nth_error_update_nth.
  destruct (Nat.eqb_spec p q); [contradiction|reflexivity].
Qed.

Lemma handlersOf_complete (p q : PromiseId) (r : PromiseResult) (s : State)
    (x : Handler) :
  In x (handlersOf (complete p r s) q) -> In x (handlersOf s q).
Proof.
  unfold handlersOf, complete, set_heap; cbn.
  rewrite nth_error_update_nth.
  destruct (Nat.eqb_spec p q) as [->|N]; auto.
  destruct (nth_error (heap s) q); cbn; tauto.
Qed.

Lemma Inv_complete (R : list bool) (s : State) (p : PromiseId) (r : PromiseResult) :
  Inv R s -> resultOf s p = Pending -> fits R s p r ->
  Inv R (complete p r s) /\ later R s R (complete p r s).
Proof.
  intros I Hp Hf. set (s' := complete p r s).
  assert (G : grows s s').
  { split; [now apply extends_complete|]. split; [auto|]. intro c. exists []. now rewrite app_nil_r. }
  assert (L : later R s R s') by (split; [exists []; now rewrite app_nil_r|exact G]).
  split; [|exact L]. pose proof I as [I1 I2 I3 I4 I5 I6]. constructor.
  - unfold s', complete, set_heap; cbn.
    rewrite I1. clear. revert p. induction (heap s); intros [|p]; cbn; auto.
  - intro c. apply (ordered_same s); [auto|apply G|apply I2].
  - intro q. destruct (Nat.eq_dec p q) as [<-|N].
    + destruct (Nat.lt_ge_cases p (List.length (heap s))) as [Hlt|Hge].
      * unfold s'. rewrite resultOf_complete by auto. eapply fits_grows; eauto.
      * replace (resultOf s' p) with Pending; [intros c; discriminate|].
        unfold s', resultOf, complete, set_heap; cbn.
        rewrite nth_error_update_nth, Nat.eqb_refl.
        replace (nth_error (heap s) p) with (@None Cell); auto.
        symmetry; now apply nth_error_None.
    + unfold s'. rewrite resultOf_complete_other by auto.
      eapply fits_grows; eauto.
  - intros q x H. apply handlersOf_complete in H. eapply hok_later; eauto.
  - exact I5.
  - exact I6.
Qed.

(** *** Rules *)

Lemma configAccepted_valid (s : State) (c : ConnRef) : configAccepted s c -> valid s c.
Proof.
  intros (m & p & H & _). unfold valid, sentOn in *.
  destruct (nth_error (connections (world s)) c) eqn:E; [|destruct H].
  eauto using nth_error_Some_lt.
Qed.

Lemma configured_valid (s : State) (c : ConnRef) : configured s c -> valid s c.
Proof. intros [H _]. now apply configAccepted_valid. Qed.

Lemma configured_later (R R' : list bool) (s s' : State) (c : ConnRef) :
  later R s R' s' -> configured s c -> configured s' c.
Proof. intros [_ G]. now apply configured_grows. Qed.

Lemma configAccepted_later (R R' : list bool) (s s' : State) (c : ConnRef) :
  later R s R' s' -> configAccepted s c -> configAccepted s' c.
Proof. intros [_ G]. now apply configAccepted_grows. Qed.

Lemma sentAs_later (R R' : list bool) (s s' : State) (c : ConnRef) (p : PromiseId)
    (kind : SpeechConnectionMessage -> bool) :
  later R s R' s' -> sentAs s c p kind -> sentAs s' c p kind.
Proof. intros [_ G]. now apply sentAs_grows. Qed.

Lemma valid_later (R R' : list bool) (s s' : State) (c : ConnRef) :
  later R s R' s' -> valid s c -> valid s' c.
Proof. intros [_ G]. now apply valid_grows. Qed.

Lemma wild_later (R R' : list bool) (s s' : State) (p : PromiseId) :
  later R s R' s' -> wild R p -> wild R' p.
Proof.
  intros L [H1 H2]. split; [eapply known_later; eauto|].
  now rewrite (raw_later _ _ _ _ _ L H1).
Qed.

Lemma post_later {A : Type} (R R1 : list bool) (s s1 : State)
    (Q : A -> list bool -> State -> Prop) (o : Outcome A) :
  later R s R1 s1 -> post R1 s1 Q o -> post R s Q o.
Proof.
  intro L. destruct o; cbn; auto.
  - intros (R' & L' & I & H). exists R'. eauto using later_trans.
  - intros (R' & L' & I). exists R'. eauto using later_trans.
Qed.

Lemma post_mono {A : Type} (R : list bool) (s : State)
    (Q Q' : A -> list bool -> State -> Prop) (o : Outcome A) :
  (forall a R' s', later R s R' s' -> Inv R' s' -> Q a R' s' -> Q' a R' s') ->
  post R s Q o -> post R s Q' o.
Proof.
  intro H. destruct o; cbn; auto.
  intros (R' & L' & I & HQ). exists R'. auto.
Qed.

Lemma anyOutcome_cpre (s : State) (k : Closure) (arg : PromiseResult) :
  anyOutcome k = true -> cpre s k arg.
Proof. destruct k; cbn; auto; discriminate. Qed.

Lemma cok_cpre (R : list bool) (s : State) (p : PromiseId) (k : Closure) (v : Value) :
  Inv R s -> cok R s p k -> resultOf s p = Resolved v -> cpre s k (Resolved v).
Proof.
  intros I H E.
  assert (F : forall c, v = VConnection c -> valid s c /\ (raw R p = false -> configured s c)).
  { intros c ->. pose proof (inv_values _ _ I p) as F. rewrite E in F. now apply F. }
  assert (A : acceptedIn s p = true) by (unfold acceptedIn; now rewrite E).
  destruct k; cbn in *; auto;
    try (destruct v; auto; apply F; auto; apply H).
  - destruct H as (m & Hin & Hm). exists m, p. auto.
  - destruct H as (H1 & m & Hin & Hm). split; auto. exists m, p. auto.
Qed.

Section Rules.

Context {collaborators : Collaborators}.

Variable deeper : forall A : Type, Prog A -> State -> Outcome A.

Hypothesis deeper_sound : sound deeper.

Lemma wp_ret {A : Type} (a : A) (Q : A -> list bool -> State -> Prop)
    (R : list bool) (s : State) :
  Inv R s -> Q a R s -> wp deeper (Ret a) Q R s.
Proof. intros I H. exists R. auto using later_refl. Qed.

Lemma wp_throw {A : Type} (e : string) (Q : A -> list bool -> State -> Prop)
    (R : list bool) (s : State) :
  Inv R s -> wp deeper (Throw e) Q R s.
Proof. intros I. exists R. auto using later_refl. Qed.

Lemma wp_bind {A B : Type} (m : Prog A) (f : A -> Prog B)
    (Q : B -> list bool -> State -> Prop) (R : list bool) (s : State) :
  wp deeper m (fun a R' s' => wp deeper (f a) Q R' s') R s ->
  wp deeper (bind m f) Q R s.
Proof.
  unfold wp. rewrite execWith_bind.
  destruct (execWith deeper m s) as [a s1|e s1|]; cbn; auto.
  intros (R1 & L & I & H). eapply post_later; eauto.
Qed.

Lemma wp_mono {A : Type} (m : Prog A) (Q Q' : A -> list bool -> State -> Prop)
    (R : list bool) (s : State) :
  wp deeper m Q R s ->
  (forall a R' s', later R s R' s' -> Inv R' s' -> Q a R' s' -> Q' a R' s') ->
  wp deeper m Q' R s.
Proof. intros H K. eapply post_mono; eauto. Qed.

(** A command that reads the state and leaves it as it is. *)
Lemma wp_pure {A : Type} (m : Prog A) (a : A) (Q : A -> list bool -> State -> Prop)
    (R : list bool) (s : State) :
  execWith deeper m s = Done a s -> Inv R s -> Q a R s -> wp deeper m Q R s.
Proof. intros E I H. unfold wp. rewrite E. exists R. auto using later_refl. Qed.

Lemma wp_GetCore {A : Type} (k : Core -> Prog A)
    (Q : A -> list bool -> State -> Prop) (R : list bool) (s : State) :
  wp deeper (k (core s)) Q R s -> wp deeper (GetCore k) Q R s.
Proof. auto. Qed.

Lemma wp_GetWorld {A : Type} (k : World -> Prog A)
    (Q : A -> list bool -> State -> Prop) (R : list bool) (s : State) :
  wp deeper (k (world s)) Q R s -> wp deeper (GetWorld k) Q R s.
Proof. auto. Qed.

Lemma wp_GetResult {A : Type} (p : PromiseId) (k : PromiseResult -> Prog A)
    (Q : A -> list bool -> State -> Prop) (R : list bool) (s : State) :
  wp deeper (k (resultOf s p)) Q R s -> wp deeper (GetResult p k) Q R s.
Proof. auto. Qed.

Lemma wp_putCore {A : Type} (c : Core) (k : Prog A)
    (Q : A -> list bool -> State -> Prop) (R : list bool) (s : State) :
  Inv R s -> coreOK R c ->
  (forall R' s', later R s R' s' -> Inv R' s' -> wp deeper k Q R' s') ->
  wp deeper (PutCore c k) Q R s.
Proof.
  intros I H K. destruct (Inv_putCore R s c I H) as [I' L].
  unfold wp; cbn [execWith]. eapply post_later; [exact L|]. now apply K.
Qed.

Lemma wp_putWorld {A : Type} (w : World) (k : Prog A)
    (Q : A -> list bool -> State -> Prop) (R : list bool) (s : State) :
  Inv R s -> worldOK s w ->
  (forall R' s', later R s R' s' -> Inv R' s' -> world s' = w -> wp deeper k Q R' s') ->
  wp deeper (PutWorld w k) Q R s.
Proof.
  intros I H K. destruct (Inv_putWorld R s w I H) as [I' L].
  unfold wp; cbn [execWith]. eapply post_later; [exact L|]. now apply K.
Qed.

Lemma wp_newPromise {A : Type} (o : Origin) (r : PromiseResult) (b : bool)
    (k : PromiseId -> Prog A)
    (Q : A -> list bool -> State -> Prop) (R : list bool) (s : State) :
  Inv R s ->
  (forall c, r = Resolved (VConnection c) -> valid s c /\ (b = false -> configured s c)) ->
  (forall p R' s', later R s R' s' -> Inv R' s' -> known R' p -> raw R' p = b ->
                   world s' = world s -> wp deeper (k p) Q R' s') ->
  wp deeper (NewPromise o r k) Q R s.
Proof.
  intros I H K. destruct (Inv_allocate R s o r b I H) as [I' L].
  unfold wp; cbn [execWith]. eapply post_later; [exact L|]. apply K; auto.
  - unfold known. rewrite length_app, <- (inv_length _ _ I). cbn. lia.
  - rewrite <- (inv_length _ _ I). apply raw_new.
Qed.

Lemma wp_subscribe {A : Type} (p : PromiseId) (h : Handler) (k : Prog A)
    (Q : A -> list bool -> State -> Prop) (R : list bool) (s : State) :
  Inv R s -> hok R s p h ->
  (forall R' s', later R s R' s' -> Inv R' s' -> wp deeper k Q R' s') ->
  wp deeper (Subscribe p h k) Q R s.
Proof.
  intros I H K. unfold wp; cbn [execWith].
  destruct (resultOf s p) as [|v|e] eqn:E.
  - destruct (Inv_subscribe R s p h I H) as [I' L].
    eapply post_later; [exact L|]. now apply K.
  - destruct deeper_sound as (_ & _ & D).
    assert (N : Resolved v <> Pending) by discriminate.
    specialize (D p h (Resolved v) R s I H E N).
    destruct (deeper unit (runHandler h (Resolved v)) s); cbn in *; auto.
    destruct D as (R' & L & I' & _).
    eapply post_later; [exact L|]. now apply K.
  - destruct deeper_sound as (_ & _ & D).
    assert (N : Rejected e <> Pending) by discriminate.
    specialize (D p h (Rejected e) R s I H E N).
    destruct (deeper unit (runHandler h (Rejected e)) s); cbn in *; auto.
    destruct D as (R' & L & I' & _).
    eapply post_later; [exact L|]. now apply K.
Qed.

Lemma wp_complete {A : Type} (p : PromiseId) (r : PromiseResult) (k : Prog A)
    (Q : A -> list bool -> State -> Prop) (R : list bool) (s : State) :
  Inv R s -> fits R s p r -> r <> Pending ->
  (forall R' s', later R s R' s' -> Inv R' s' -> wp deeper k Q R' s') ->
  wp deeper (Complete p r k) Q R s.
Proof.
  intros I H N K. unfold wp; cbn [execWith].
  destruct (resultOf s p) eqn:E; try (exists R; auto using later_refl).
  destruct (Inv_complete R s p r I E H) as [I' L].
  destruct (handlersOf s p) as [|h hs] eqn:Eh.
  - eapply post_later; [exact L|]. now apply K.
  - destruct deeper_sound as (_ & D & _).
    assert (Hp : (p < List.length (heap s))%nat).
    { unfold handlersOf in Eh. destruct (nth_error (heap s) p) eqn:E'; [|discriminate].
      eauto using nth_error_Some_lt. }
    assert (Hh : forall x, In x (h :: hs) -> hok R (complete p r s) p x).
    { intros x Hx. eapply hok_later; [exact L|].
      apply (inv_handlers _ _ I). now rewrite Eh. }
    specialize (D p (h :: hs) r R (complete p r s) I' Hh (resultOf_complete _ _ _ Hp) N).
    destruct (deeper unit (runHandlers (h :: hs) r) (complete p r s)) as [a s1|e s1|];
      cbn [andThen post] in *; auto.
    + destruct D as (R' & L' & I'' & _).
      assert (L2 : later R s R' s1) by (eapply later_trans; [exact L|exact L']).
      apply (post_later R R' s s1); [exact L2|]. now apply K.
    + destruct D as (R' & L' & I''). exists R'. split; [|exact I''].
      eapply later_trans; [exact L|exact L'].
Qed.

Lemma wp_invoke {A : Type} (k : Closure) (arg : PromiseResult)
    (cont : Value + string -> Prog A)
    (Q : A -> list bool -> State -> Prop) (R : list bool) (s : State) :
  Inv R s -> cpre s k arg ->
  (forall R' s', later R s R' s' -> Inv R' s' ->
     (forall v, cret R' s' k v -> wp deeper (cont (inl v)) Q R' s')
     /\ (forall e, wp deeper (cont (inr e)) Q R' s')) ->
  wp deeper (Invoke k arg cont) Q R s.
Proof.
  intros I H K. unfold wp; cbn [execWith].
  destruct deeper_sound as (D & _ & _). specialize (D k arg R s I H).
  destruct (deeper Value (call k arg) s); cbn in *; auto.
  - destruct D as (R' & L & I' & C). eapply post_later; [exact L|].
    now apply K.
  - destruct D as (R' & L & I'). eapply post_later; [exact L|].
    now apply K.
Qed.

End Rules.

(** *** Rules for the promise library and the collaborators *)

Lemma worldOK_quiet (s : State) (w : World) :
  connections w = connections (world s) -> quiet w -> worldOK s w.
Proof.
  intros E H. split; [exact H|]. split; [rewrite E; lia|].
  intro c. left. unfold logOf, sentOn. now rewrite E.
Qed.

Lemma logOf_update (c c' : ConnRef) (m : SpeechConnectionMessage) (p : PromiseId)
    (l : list Connection) (w : World) :
  logOf (set_connections (update_nth c (record_sent m p) l) w) c'
  = match nth_error l c' with
    | Some x => if Nat.eqb c c' then sent x ++ [(m, p)] else sent x
    | None => []
    end.
Proof.
  unfold logOf; cbn. rewrite nth_error_update_nth.
  destruct (Nat.eqb c c'), (nth_error l c'); reflexivity.
Qed.

Section Library.

Context {collaborators : Collaborators}.

Variable deeper : forall A : Type, Prog A -> State -> Outcome A.

Hypothesis deeper_sound : sound deeper.

Lemma wp_getCore (Q0 : Core -> list bool -> State -> Prop)
    (R : list bool) (s : State) :
  Inv R s ->
  Q0 (core s) R s -> wp deeper getCore Q0 R s.
Proof.
  intro I. now apply wp_pure. Qed.

Lemma wp_getWorld (Q0 : World -> list bool -> State -> Prop)
    (R : list bool) (s : State) :
  Inv R s ->
  Q0 (world s) R s -> wp deeper getWorld Q0 R s.
Proof.
  intro I. now apply wp_pure. Qed.

Lemma wp_getSession (Q0 : RequestSession -> list bool -> State -> Prop)
    (R : list bool) (s : State) :
  Inv R s ->
  Q0 (privRequestSession (core s)) R s -> wp deeper getSession Q0 R s.
Proof.
  intro I. now apply wp_pure. Qed.

Lemma wp_getConfig (Q0 : RecognizerConfig -> list bool -> State -> Prop)
    (R : list bool) (s : State) :
  Inv R s ->
  Q0 (privRecognizerConfig (core s)) R s -> wp deeper getConfig Q0 R s.
Proof.
  intro I. now apply wp_pure. Qed.

Lemma wp_Date_now (Q0 : Z -> list bool -> State -> Prop)
    (R : list bool) (s : State) :
  Inv R s ->
  Q0 (now (world s)) R s -> wp deeper Date_now Q0 R s.
Proof.
  intro I. now apply wp_pure. Qed.

Lemma wp_getResult (p : PromiseId) (Q0 : PromiseResult -> list bool -> State -> Prop)
    (R : list bool) (s : State) :
  Inv R s ->
  Q0 (resultOf s p) R s -> wp deeper (GetResult p (fun r => Ret r)) Q0 R s.
Proof.
  intro I. now apply wp_pure. Qed.

Lemma wp_getPump (pump : PumpRef) (Q0 : Pump -> list bool -> State -> Prop)
    (R : list bool) (s : State) :
  Inv R s ->
  (forall x, Q0 x R s) -> wp deeper (getPump pump) Q0 R s.
Proof.
  intro I.
  intro H. unfold wp, getPump; cbn.
  destruct (nth_error (pumps (core s)) pump); cbn; exists R; auto using later_refl.
Qed.

Lemma wp_fromJSON (json : string) (Q0 : Z -> list bool -> State -> Prop)
    (R : list bool) (s : State) :
  Inv R s ->
  (forall x, Q0 x R s) -> wp deeper (fromJSON json) Q0 R s.
Proof.
  intro I.
  intro H. unfold wp, fromJSON.
  destruct (SpeechDetected_fromJSON json); cbn; exists R; auto using later_refl.
Qed.

Lemma wp_modifyCore (f : Core -> Core) (Q0 : unit -> list bool -> State -> Prop)
    (R : list bool) (s : State) :
  Inv R s ->
  coreOK R (f (core s)) ->
  (forall R' s', later R s R' s' -> Inv R' s' -> Q0 tt R' s') ->
  wp deeper (modifyCore f) Q0 R s.
Proof.
  intro I.
  intros H K. unfold modifyCore. apply wp_GetCore, wp_putCore; auto.
  intros R' s' L I'. apply wp_ret; auto.
Qed.

Lemma wp_modifySession (f : RequestSession -> RequestSession)
    (Q0 : unit -> list bool -> State -> Prop)
    (R : list bool) (s : State) :
  Inv R s ->
  (forall R' s', later R s R' s' -> Inv R' s' -> Q0 tt R' s') ->
  wp deeper (modifySession f) Q0 R s.
Proof.
  intro I. intro K. apply wp_modifyCore; auto. apply (inv_core _ _ I). Qed.

Lemma wp_modifyWorld (f : World -> World) (Q0 : unit -> list bool -> State -> Prop)
    (R : list bool) (s : State) :
  Inv R s ->
  worldOK s (f (world s)) ->
  (forall R' s', later R s R' s' -> Inv R' s' -> world s' = f (world s) -> Q0 tt R' s') ->
  wp deeper (modifyWorld f) Q0 R s.
Proof.
  intro I.
  intros H K. unfold modifyWorld. apply wp_GetWorld, wp_putWorld; auto.
  intros R' s' L I' E. apply wp_ret; auto.
Qed.

Lemma wp_emit (e : Effect) (Q0 : unit -> list bool -> State -> Prop)
    (R : list bool) (s : State) :
  Inv R s ->
  (forall R' s', later R s R' s' -> Inv R' s' -> Q0 tt R' s') ->
  wp deeper (emit e) Q0 R s.
Proof.
  intro I.
  intro K. apply wp_modifyWorld; auto.
  apply worldOK_quiet; auto. apply (inv_world _ _ I).
Qed.

Lemma wp_createNoDashGuid (Q0 : string -> list bool -> State -> Prop)
    (R : list bool) (s : State) :
  Inv R s ->
  (forall g R' s', later R s R' s' -> Inv R' s' -> Q0 g R' s') ->
  wp deeper createNoDashGuid Q0 R s.
Proof.
  intro I.
  intro K. unfold createNoDashGuid. apply wp_GetWorld, wp_putWorld; auto.
  - apply worldOK_quiet; auto. apply (inv_world _ _ I).
  - intros R' s' L I' E. apply wp_ret; auto.
Qed.

Lemma wp_setTimeout (k : Closure) (d : Js.number)
    (Q0 : unit -> list bool -> State -> Prop)
    (R : list bool) (s : State) :
  Inv R s ->
  anyOutcome k = true ->
  (forall R' s', later R s R' s' -> Inv R' s' -> Q0 tt R' s') ->
  wp deeper (setTimeout k d) Q0 R s.
Proof.
  intro I.
  intros H K. apply wp_modifyWorld; auto.
  apply worldOK_quiet; auto. destruct (inv_world _ _ I) as (Q1 & Q2 & Q3).
  split; [exact Q1|]. split; [|exact Q3]. cbn. intros d' k' Hin.
  apply in_app_or in Hin as [Hin|[Hin|[]]]; [eauto|]. congruence.
Qed.

Lemma wp_queueMicrotask (k : Closure) (Q0 : unit -> list bool -> State -> Prop)
    (R : list bool) (s : State) :
  Inv R s ->
  anyOutcome k = true ->
  (forall R' s', later R s R' s' -> Inv R' s' -> Q0 tt R' s') ->
  wp deeper (queueMicrotask k) Q0 R s.
Proof.
  intro I.
  intros H K. apply wp_modifyWorld; auto.
  apply worldOK_quiet; auto. destruct (inv_world _ _ I) as (Q1 & Q2 & Q3).
  split; [exact Q1|]. split; [exact Q2|]. cbn. intros k' Hin.
  apply in_app_or in Hin as [Hin|[Hin|[]]]; [eauto|]. congruence.
Qed.

Lemma wp_connectionFactory_create (authInfo : Value) (connectionId : option string)
    (Q0 : ConnRef -> list bool -> State -> Prop)
    (R : list bool) (s : State) :
  Inv R s ->
  (forall c R' s', later R s R' s' -> Inv R' s' -> valid s' c -> Q0 c R' s') ->
  wp deeper (connectionFactory_create authInfo connectionId) Q0 R s.
Proof.
  intro I.
  intro K. unfold connectionFactory_create. apply wp_GetWorld, wp_putWorld; auto.
  - split; [apply (inv_world _ _ I)|]. split; [cbn; rewrite length_app; lia|].
    intro c. left. unfold logOf, sentOn; cbn.
    destruct (nth_error (connections (world s)) c) eqn:E.
    + now rewrite (nth_error_app_old _ _ _ _ E).
    + apply nth_error_None in E.
      rewrite nth_error_app2 by lia.
      destruct (c - List.length (connections (world s)))%nat as [|[|n]]; reflexivity.
  - intros R' s' L I' E. apply wp_ret; auto. apply K; auto.
    unfold valid. rewrite E. cbn. rewrite length_app. cbn. lia.
Qed.

Lemma wp_new (o : Origin) (r : PromiseResult)
    (Q0 : PromiseId -> list bool -> State -> Prop)
    (R : list bool) (s : State) :
  Inv R s ->
  (forall c, r <> Resolved (VConnection c)) ->
  (forall p R' s', later R s R' s' -> Inv R' s' -> plain R' p -> Q0 p R' s') ->
  wp deeper (NewPromise o r (fun p => Ret p)) Q0 R s.
Proof.
  intro I.
  intros H K. apply (wp_newPromise deeper o r false); auto.
  - intros c E. now destruct (H c).
  - intros p R' s' L I' Hp Hr _. apply wp_ret; auto. apply K; auto. now split.
Qed.

Lemma wp_new_wild (o : Origin) (r : PromiseResult)
    (Q0 : PromiseId -> list bool -> State -> Prop)
    (R : list bool) (s : State) :
  Inv R s ->
  (forall c, r = Resolved (VConnection c) -> valid s c) ->
  (forall p R' s', later R s R' s' -> Inv R' s' -> wild R' p -> Q0 p R' s') ->
  wp deeper (NewPromise o r (fun p => Ret p)) Q0 R s.
Proof.
  intro I.
  intros H K. apply (wp_newPromise deeper o r true); auto.
  - intros c E. split; [auto|discriminate].
  - intros p R' s' L I' Hp Hr _. apply wp_ret; auto. apply K; auto. now split.
Qed.

Lemma wp_connection_send (c : ConnRef) (m : SpeechConnectionMessage)
    (Q0 : PromiseId -> list bool -> State -> Prop)
    (R : list bool) (s : State) :
  Inv R s ->
  valid s c -> mayFollow s c m ->
  (forall p R' s', later R s R' s' -> Inv R' s' -> plain R' p ->
                   In (m, p) (sentOn s' c) -> Q0 p R' s') ->
  wp deeper (connection_send c m) Q0 R s.
Proof.
  intro I.
  intros V F K. unfold connection_send.
  apply (wp_newPromise deeper _ _ false); auto; [discriminate|].
  intros p R1 s1 L1 I1 Hp Hr Ew. apply wp_bind.
  assert (Hl : forall c', logOf (set_connections
                 (update_nth c (record_sent m p) (connections (world s1))) (world s1)) c'
               = if Nat.eqb c c' then sentOn s1 c' ++ (if Nat.ltb c' (List.length (connections (world s1))) then [(m, p)] else [])
                 else sentOn s1 c').
  { intro c'. rewrite logOf_update. unfold sentOn.
    destruct (nth_error (connections (world s1)) c') eqn:E.
    - apply nth_error_Some_lt in E. apply Nat.ltb_lt in E. rewrite E.
      destruct (Nat.eqb c c'); reflexivity.
    - apply nth_error_None in E. apply Nat.ltb_ge in E. rewrite E.
      destruct (Nat.eqb c c'); reflexivity. }
  assert (V1 : valid s1 c) by (eapply valid_later; eauto).
  apply wp_modifyWorld; auto.
  - split; [apply (inv_world _ _ I1)|]. split; [cbn; rewrite update_nth_length; lia|].
    intro c'. rewrite Hl. destruct (Nat.eqb_spec c c') as [<-|N]; [|now left].
    right. exists m, p. apply Nat.ltb_lt in V1. rewrite V1. split; [reflexivity|].
    destruct L1 as [_ G]. eauto using mayFollow_grows.
  - intros R2 s2 L2 I2 E2. apply wp_ret; auto. apply K; auto.
    + eapply later_trans; eauto.
    + apply (plain_later _ _ _ _ _ L2). now split.
    + unfold sentOn. fold (logOf (world s2) c). rewrite E2, Hl, Nat.eqb_refl.
      apply Nat.ltb_lt in V1. rewrite V1. apply in_or_app. right. now left.
Qed.

Lemma wp_resolve (d : PromiseId) (v : Value) (Q0 : unit -> list bool -> State -> Prop)
    (R : list bool) (s : State) :
  Inv R s ->
  (forall c, v <> VConnection c) ->
  (forall R' s', later R s R' s' -> Inv R' s' -> Q0 tt R' s') ->
  wp deeper (resolve d v) Q0 R s.
Proof.
  intro I.
  intros H K. unfold resolve. apply wp_complete; auto; try discriminate.
  - intros c E. injection E as ->. now destruct (H c).
  - intros R' s' L I'. apply wp_ret; auto.
Qed.

Lemma wp_reject (d : PromiseId) (e : string) (Q0 : unit -> list bool -> State -> Prop)
    (R : list bool) (s : State) :
  Inv R s ->
  (forall R' s', later R s R' s' -> Inv R' s' -> Q0 tt R' s') ->
  wp deeper (reject d e) Q0 R s.
Proof.
  intro I.
  intros K. unfold reject. apply wp_complete; auto; try discriminate.
  intros R' s' L I'. apply wp_ret; auto.
Qed.

Lemma wp_on (p : PromiseId) (success error : Closure)
    (Q0 : PromiseId -> list bool -> State -> Prop)
    (R : list bool) (s : State) :
  Inv R s ->
  cok R s p success -> anyOutcome error = true ->
  (forall R' s', later R s R' s' -> Inv R' s' -> Q0 p R' s') ->
  wp deeper (on p success error) Q0 R s.
Proof.
  intro I.
  intros H1 H2 K. unfold on. apply wp_subscribe; auto; [now split|].
  intros R' s' L I'. apply wp_ret; auto.
Qed.

(** The four combinators that return a new deferral: [h] is the handler
    they subscribe. *)
Lemma wp_deferral (p : PromiseId) (h : PromiseId -> Handler) (b : bool)
    (Q0 : PromiseId -> list bool -> State -> Prop)
    (R : list bool) (s : State) :
  Inv R s ->
  (forall d R' s', later R s R' s' -> known R' d -> raw R' d = b -> hok R' s' p (h d)) ->
  (forall d R' s', later R s R' s' -> Inv R' s' -> known R' d -> raw R' d = b ->
                   Q0 d R' s') ->
  wp deeper (d <- newDeferred ;; Subscribe p (h d) (Ret d)) Q0 R s.
Proof.
  intro I.
  intros H K. apply wp_bind. unfold newDeferred.
  apply (wp_newPromise deeper _ _ b); auto; [discriminate|].
  intros d R1 s1 L1 I1 Hd Hr _. apply wp_ret; auto.
  apply wp_subscribe; auto.
  intros R2 s2 L2 I2. apply wp_ret; auto.
  assert (L : later R s R2 s2) by (eapply later_trans; eauto).
  apply K; auto.
  - apply (known_later _ _ _ _ _ L2 Hd).
  - now rewrite (raw_later _ _ _ _ _ L2 Hd).
Qed.

Lemma wp_continueWith (p : PromiseId) (k : Closure)
    (Q0 : PromiseId -> list bool -> State -> Prop)
    (R : list bool) (s : State) :
  Inv R s ->
  anyOutcome k = true -> isRawSource k = false ->
  (forall d R' s', later R s R' s' -> Inv R' s' -> plain R' d -> Q0 d R' s') ->
  wp deeper (continueWith p k) Q0 R s.
Proof.
  intro I.
  intros H1 H2 K. apply (wp_deferral p (H_continueWith k) false); [exact I| |].
  - intros d R' s' L Hd Hr. split; auto. split; auto. congruence.
  - intros d R' s' L I' Hd Hr. apply K; auto. now split.
Qed.

Lemma wp_continueWithPromise (p : PromiseId) (k : Closure)
    (Q0 : PromiseId -> list bool -> State -> Prop)
    (R : list bool) (s : State) :
  Inv R s ->
  anyOutcome k = true -> isRawSource k = false ->
  (forall d R' s', later R s R' s' -> Inv R' s' -> plain R' d -> Q0 d R' s') ->
  wp deeper (continueWithPromise p k) Q0 R s.
Proof.
  intro I.
  intros H1 H2 K. apply (wp_deferral p (H_continueWithPromise k) false); [exact I| |].
  - intros d R' s' L Hd Hr. split; auto. split; auto. congruence.
  - intros d R' s' L I' Hd Hr. apply K; auto. now split.
Qed.

Lemma wp_continueWithPromise_wild (p : PromiseId) (k : Closure)
    (Q0 : PromiseId -> list bool -> State -> Prop)
    (R : list bool) (s : State) :
  Inv R s ->
  anyOutcome k = true ->
  (forall d R' s', later R s R' s' -> Inv R' s' -> wild R' d -> Q0 d R' s') ->
  wp deeper (continueWithPromise p k) Q0 R s.
Proof.
  intro I.
  intros H1 K. apply (wp_deferral p (H_continueWithPromise k) true); [exact I| |].
  - intros d R' s' L Hd Hr. split; auto. split; auto.
  - intros d R' s' L I' Hd Hr. apply K; auto. now split.
Qed.

Lemma wp_onSuccessContinueWith (p : PromiseId) (k : Closure)
    (Q0 : PromiseId -> list bool -> State -> Prop)
    (R : list bool) (s : State) :
  Inv R s ->
  cok R s p k -> isRawSource k = false ->
  (forall d R' s', later R s R' s' -> Inv R' s' -> plain R' d -> Q0 d R' s') ->
  wp deeper (onSuccessContinueWith p k) Q0 R s.
Proof.
  intro I.
  intros H1 H2 K. apply (wp_deferral p (H_onSuccessContinueWith k) false); [exact I| |].
  - intros d R' s' L Hd Hr. split; [eapply cok_later; eauto|]. split; auto. congruence.
  - intros d R' s' L I' Hd Hr. apply K; auto. now split.
Qed.

Lemma wp_onSuccessContinueWithPromise (p : PromiseId) (k : Closure)
    (Q0 : PromiseId -> list bool -> State -> Prop)
    (R : list bool) (s : State) :
  Inv R s ->
  cok R s p k -> isRawSource k = false ->
  (forall d R' s', later R s R' s' -> Inv R' s' -> plain R' d -> Q0 d R' s') ->
  wp deeper (onSuccessContinueWithPromise p k) Q0 R s.
Proof.
  intro I.
  intros H1 H2 K. apply (wp_deferral p (H_onSuccessContinueWithPromise k) false); [exact I| |].
  - intros d R' s' L Hd Hr. split; [eapply cok_later; eauto|]. split; auto. congruence.
  - intros d R' s' L I' Hd Hr. apply K; auto. now split.
Qed.

Lemma wp_onSuccessContinueWithPromise_wild (p : PromiseId) (k : Closure)
    (Q0 : PromiseId -> list bool -> State -> Prop)
    (R : list bool) (s : State) :
  Inv R s ->
  cok R s p k ->
  (forall d R' s', later R s R' s' -> Inv R' s' -> wild R' d -> Q0 d R' s') ->
  wp deeper (onSuccessContinueWithPromise p k) Q0 R s.
Proof.
  intro I.
  intros H1 K. apply (wp_deferral p (H_onSuccessContinueWithPromise k) true); [exact I| |].
  - intros d R' s' L Hd Hr. split; [eapply cok_later; eauto|]. split; auto.
  - intros d R' s' L I' Hd Hr. apply K; auto. now split.
Qed.


(** *** Stepping through a method *)

(** What is known of the state before a step is known of the one after. *)
Ltac advance L :=
  repeat match goal with
  | H : configured ?s _ |- _ =>
      lazymatch type of L with later _ s _ _ => apply (configured_later _ _ _ _ _ L) in H end
  | H : configAccepted ?s _ |- _ =>
      lazymatch type of L with later _ s _ _ => apply (configAccepted_later _ _ _ _ _ L) in H end
  | H : sentAs ?s _ _ _ |- _ =>
      lazymatch type of L with later _ s _ _ => apply (sentAs_later _ _ _ _ _ _ _ L) in H end
  | H : valid ?s _ |- _ =>
      lazymatch type of L with later _ s _ _ => apply (valid_later _ _ _ _ _ L) in H end
  | H : In _ (sentOn ?s _) |- _ =>
      lazymatch type of L with later _ s _ _ => apply (In_sentOn_grows _ _ _ _ (proj2 L)) in H end
  | H : plain ?R _ |- _ =>
      lazymatch type of L with later R _ _ _ => apply (plain_later _ _ _ _ _ L) in H end
  | H : wild ?R _ |- _ =>
      lazymatch type of L with later R _ _ _ => apply (wild_later _ _ _ _ _ L) in H end
  | H : known ?R _ |- _ =>
      lazymatch type of L with later R _ _ _ => apply (known_later _ _ _ _ _ L) in H end
  end.

Ltac enter :=
  intros; cbn beta in *;
  repeat match goal with H : _ /\ _ |- _ => destruct H end;
  lazymatch goal with
  | L : later ?R ?s _ _, I : Inv ?R ?s |- _ => advance L; clear L I
  end.

Ltac core_ok :=
  lazymatch goal with
  | I : Inv ?R ?s |- coreOK ?R _ =>
      let C1 := fresh in let C2 := fresh in let E := fresh in
      destruct (inv_core _ _ I) as [C1 C2];
      split; intros ? E; cbn in E;
      first [ discriminate E
            | apply C1; exact E
            | apply C2; exact E
            | injection E as <-; first [assumption
                                       | match goal with H : plain _ _ |- _ => apply H end
                                       | match goal with H : wild _ _ |- _ => apply H end ] ]
  end.

Ltac side :=
  cbn;
  first
    [ assumption
    | reflexivity
    | exact Logic.I
    | discriminate
    | intros ? ?; discriminate
    | match goal with H : configured _ ?c |- valid _ ?c => exact (configured_valid _ _ H) end
    | match goal with H : configAccepted _ ?c |- valid _ ?c =>
        exact (configAccepted_valid _ _ H) end
    | match goal with H : plain ?R ?p |- raw ?R ?p = false => exact (proj2 H) end
    | match goal with H : configured _ ?c |- configAccepted _ ?c => exact (proj1 H) end
    | match goal with H : plain _ ?p |- known _ ?p => exact (proj1 H) end
    | match goal with H : wild _ ?p |- known _ ?p => exact (proj1 H) end
    | match goal with H : In (?m, ?p) (sentOn ?s ?c) |- sentAs ?s ?c ?p _ =>
        exists m; split; [exact H|reflexivity] end
    | split; side
    | intro; side ].

Ltac may_follow :=
  first [ left; reflexivity
        | right; right; assumption
        | right; left; split; [reflexivity|assumption] ].

Ltac wp_prim :=
  lazymatch goal with
  | |- wp _ (continueWithPromise _ (ConnectImpl_onAuth _)) _ _ _ =>
      apply wp_continueWithPromise_wild; [assumption|reflexivity|enter]
  | |- wp _ (onSuccessContinueWithPromise _ (ConnectImpl_onOpen _ _)) _ _ _ =>
      apply wp_onSuccessContinueWithPromise_wild; [assumption|side|enter]
  | |- wp _ (bind _ _) _ _ _ => apply wp_bind
  | |- wp _ (Ret _) _ _ _ => apply wp_ret; [assumption|cbn beta]
  | |- wp _ (Throw _) _ _ _ => apply wp_throw; assumption
  | |- wp _ skip _ _ _ => apply wp_ret; [assumption|cbn beta]
  | |- wp _ getCore _ _ _ => apply wp_getCore; [assumption|cbn beta]
  | |- wp _ getWorld _ _ _ => apply wp_getWorld; [assumption|cbn beta]
  | |- wp _ getSession _ _ _ => apply wp_getSession; [assumption|cbn beta]
  | |- wp _ getConfig _ _ _ => apply wp_getConfig; [assumption|cbn beta]
  | |- wp _ Date_now _ _ _ => apply wp_Date_now; [assumption|cbn beta]
  | |- wp _ (GetResult _ (fun r => Ret r)) _ _ _ => apply wp_getResult; [assumption|cbn beta]
  | |- wp _ (GetResult _ _) _ _ _ => apply wp_GetResult
  | |- wp _ (getPump _) _ _ _ => apply wp_getPump; [assumption|intro; cbn beta]
  | |- wp _ (fromJSON _) _ _ _ => apply wp_fromJSON; [assumption|intro; cbn beta]
  | |- wp _ (modifySession _) _ _ _ => apply wp_modifySession; [assumption|enter]
  | |- wp _ (modifyCore _) _ _ _ => apply wp_modifyCore; [assumption|core_ok|enter]
  | |- wp _ (emit _) _ _ _ => apply wp_emit; [assumption|enter]
  | |- wp _ createNoDashGuid _ _ _ => apply wp_createNoDashGuid; [assumption|enter]
  | |- wp _ (setTimeout _ _) _ _ _ => apply wp_setTimeout; [assumption|reflexivity|enter]
  | |- wp _ (queueMicrotask _) _ _ _ => apply wp_queueMicrotask; [assumption|reflexivity|enter]
  | |- wp _ (connection_dispose _ _) _ _ _ => unfold connection_dispose
  | |- wp _ (connectionFactory_create _ _) _ _ _ =>
      apply wp_connectionFactory_create; [assumption|enter]
  | |- wp _ (processTypeSpecificMessages _ _) _ _ _ => unfold processTypeSpecificMessages
  | |- wp _ (when _ _) _ _ _ => unfold when
  | |- wp _ (fromResult _) _ _ _ => apply wp_new; [assumption|side|enter]
  | |- wp _ (fromError _) _ _ _ => apply wp_new; [assumption|side|enter]
  | |- wp _ newDeferred _ _ _ => apply wp_new; [assumption|side|enter]
  | |- wp _ (auth_fetch _) _ _ _ => apply wp_new; [assumption|side|enter]
  | |- wp _ (auth_fetchOnExpiry _) _ _ _ => apply wp_new; [assumption|side|enter]
  | |- wp _ (connection_open _) _ _ _ => apply wp_new; [assumption|side|enter]
  | |- wp _ (connection_read _) _ _ _ => apply wp_new; [assumption|side|enter]
  | |- wp _ (audioSource_attach _) _ _ _ => apply wp_new; [assumption|side|enter]
  | |- wp _ audioSource_deviceInfo _ _ _ => apply wp_new; [assumption|side|enter]
  | |- wp _ (audioStreamNode_read _) _ _ _ => apply wp_new; [assumption|side|enter]
  | |- wp _ (resolve _ _) _ _ _ => apply wp_resolve; [assumption|side|enter]
  | |- wp _ (reject _ _) _ _ _ => apply wp_reject; [assumption|enter]
  | |- wp _ (connection_send _ _) _ _ _ =>
      apply wp_connection_send; [assumption|side|may_follow|enter]
  | |- wp _ (on _ _ _) _ _ _ => apply wp_on; [assumption|side|reflexivity|enter]
  | |- wp _ (continueWith _ _) _ _ _ =>
      apply wp_continueWith; [assumption|reflexivity|reflexivity|enter]
  | |- wp _ (continueWithPromise _ _) _ _ _ =>
      apply wp_continueWithPromise; [assumption|reflexivity|reflexivity|enter]
  | |- wp _ (onSuccessContinueWith _ _) _ _ _ =>
      apply wp_onSuccessContinueWith; [assumption|side|reflexivity|enter]
  | |- wp _ (onSuccessContinueWithPromise _ _) _ _ _ =>
      apply wp_onSuccessContinueWithPromise; [assumption|side|reflexivity|enter]
  | |- wp _ (if ?b then _ else _) _ _ _ => destruct b eqn:?
  | |- wp _ (match ?x with _ => _ end) _ _ _ => destruct x eqn:?
  | |- wp _ (let _ := _ in _) _ _ _ => cbv zeta
  end.

(** The rule of a method whose specification is [H]. *)
Ltac by_keeps H := eapply wp_mono; [apply H|enter].

Lemma session_startNewRecognition_keeps (R : list bool) (s : State) :
  Inv R s -> wp deeper session_startNewRecognition (fun _ _ _ => True) R s.
Proof.
  intro I. unfold session_startNewRecognition. repeat wp_prim. exact Logic.I.
Qed.

Lemma session_onServiceTurnEndResponse_keeps (isContinuous : bool)
    (R : list bool) (s : State) :
  Inv R s ->
  wp deeper (session_onServiceTurnEndResponse isContinuous) (fun _ _ _ => True) R s.
Proof.
  intro I. unfold session_onServiceTurnEndResponse. repeat wp_prim; exact Logic.I.
Qed.

Lemma session_getTelemetry_keeps (R : list bool) (s : State) :
  Inv R s -> wp deeper session_getTelemetry (fun _ _ _ => True) R s.
Proof.
  intro I. unfold session_getTelemetry. repeat wp_prim. exact Logic.I.
Qed.

(** *** The methods *)

Hypothesis json : serializes.

Lemma sendSpeechServiceConfig_keeps (c : ConnRef) (cfg : SpeechServiceConfig)
    (R : list bool) (s : State) :
  Inv R s -> valid s c ->
  wp deeper (sendSpeechServiceConfig c (serialize cfg))
    (fun p R' s' => plain R' p /\ sentAs s' c p isConfig) R s.
Proof.
  intros I V. destruct json as [J1 J2].
  unfold sendSpeechServiceConfig. wp_prim. wp_prim.
  destruct (negb (telemetryDataEnabled (world s))); rewrite ?J1, ?J2;
    repeat wp_prim; side.
Qed.

Lemma sendSpeechContext_keeps (c : ConnRef) (R : list bool) (s : State) :
  Inv R s -> configAccepted s c -> valid s c ->
  wp deeper (sendSpeechContext c)
    (fun p R' s' => plain R' p /\ sentAs s' c p isContext) R s.
Proof.
  intros I C V. pose proof (inv_world _ _ I) as (T & _).
  unfold sendSpeechContext. wp_prim. wp_prim. rewrite T.
  repeat wp_prim; side.
Qed.

Lemma connectImpl_attempt_keeps (isUnAuthorized : bool) (R : list bool) (s : State) :
  Inv R s ->
  wp deeper (connectImpl_attempt isUnAuthorized) (fun p R' s' => known R' p) R s.
Proof.
  intro I. unfold connectImpl_attempt. repeat wp_prim; side.
Qed.

Lemma connectImpl_keeps (isUnAuthorized : bool) (R : list bool) (s : State) :
  Inv R s ->
  wp deeper (connectImpl isUnAuthorized) (fun p R' s' => known R' p) R s.
Proof.
  intro I. pose proof (inv_core _ _ I) as [_ C].
  unfold connectImpl. wp_prim. wp_prim.
  destruct (privConnectionPromise (core s)) as [p|] eqn:E.
  - specialize (C p eq_refl). repeat wp_prim; try side.
    all: by_keeps connectImpl_attempt_keeps; assumption.
  - apply connectImpl_attempt_keeps; assumption.
Qed.

Ltac wp_method :=
  lazymatch goal with
  | |- wp _ session_startNewRecognition _ _ _ =>
      by_keeps session_startNewRecognition_keeps; [assumption|]
  | |- wp _ (session_onServiceTurnEndResponse _) _ _ _ =>
      by_keeps session_onServiceTurnEndResponse_keeps; [assumption|]
  | |- wp _ session_getTelemetry _ _ _ =>
      by_keeps session_getTelemetry_keeps; [assumption|]
  | |- wp _ (sendSpeechServiceConfig _ (serialize _)) _ _ _ =>
      by_keeps sendSpeechServiceConfig_keeps; [assumption|side|]
  | |- wp _ (sendSpeechContext _) _ _ _ =>
      by_keeps sendSpeechContext_keeps; [assumption|side|side|]
  | |- wp _ (connectImpl _) _ _ _ =>
      by_keeps connectImpl_keeps; [assumption|]
  end.

Ltac wp_step := first [wp_method | wp_prim].

Lemma configureConnection_attempt_keeps (R : list bool) (s : State) :
  Inv R s ->
  wp deeper configureConnection_attempt (fun p R' s' => plain R' p) R s.
Proof.
  intro I. unfold configureConnection_attempt. repeat wp_step; side.
Qed.

Lemma configureConnection_keeps (R : list bool) (s : State) :
  Inv R s -> wp deeper configureConnection (fun p R' s' => plain R' p) R s.
Proof.
  intro I. pose proof (inv_core _ _ I) as [C _].
  unfold configureConnection. wp_prim. wp_prim.
  destruct (privConnectionConfigurationPromise (core s)) as [p|] eqn:E.
  - specialize (C p eq_refl). repeat wp_prim; try side.
    all: by_keeps configureConnection_attempt_keeps; assumption.
  - apply configureConnection_attempt_keeps; assumption.
Qed.

Ltac wp_method ::=
  lazymatch goal with
  | |- wp _ session_startNewRecognition _ _ _ =>
      by_keeps session_startNewRecognition_keeps; [assumption|]
  | |- wp _ (session_onServiceTurnEndResponse _) _ _ _ =>
      by_keeps session_onServiceTurnEndResponse_keeps; [assumption|]
  | |- wp _ session_getTelemetry _ _ _ =>
      by_keeps session_getTelemetry_keeps; [assumption|]
  | |- wp _ (sendSpeechServiceConfig _ (serialize _)) _ _ _ =>
      by_keeps sendSpeechServiceConfig_keeps; [assumption|side|]
  | |- wp _ (sendSpeechContext _) _ _ _ =>
      by_keeps sendSpeechContext_keeps; [assumption|side|side|]
  | |- wp _ (connectImpl _) _ _ _ =>
      by_keeps connectImpl_keeps; [assumption|]
  | |- wp _ configureConnection _ _ _ =>
      by_keeps configureConnection_keeps; [assumption|]
  | |- wp _ fetchConnection _ _ _ =>
      by_keeps configureConnection_keeps; [assumption|]
  end.

Lemma sendTelemetryData_keeps (R : list bool) (s : State) :
  Inv R s -> wp deeper sendTelemetryData (fun p R' s' => plain R' p) R s.
Proof. intro I. unfold sendTelemetryData. repeat wp_step; side. Qed.

Lemma receiveMessage_keeps (cb : Callbacks) (R : list bool) (s : State) :
  Inv R s -> wp deeper (receiveMessage cb) (fun p R' s' => plain R' p) R s.
Proof. intro I. unfold receiveMessage. repeat wp_step; side. Qed.

Lemma sendFinalAudio_keeps (R : list bool) (s : State) :
  Inv R s -> wp deeper sendFinalAudio (fun p R' s' => plain R' p) R s.
Proof. intro I. unfold sendFinalAudio. repeat wp_step; side. Qed.

Lemma isRealTimeAudioSource_keeps (R : list bool) (s : State) :
  Inv R s -> wp deeper isRealTimeAudioSource (fun p R' s' => plain R' p) R s.
Proof. intro I. unfold isRealTimeAudioSource. repeat wp_step; side. Qed.

Lemma readAndUploadCycle_keeps (pump : PumpRef) (R : list bool) (s : State) :
  Inv R s -> wp deeper (readAndUploadCycle pump) (fun _ _ _ => True) R s.
Proof. intro I. unfold readAndUploadCycle. repeat wp_step; side. Qed.

Lemma subscribeAll_keeps (ps : list PromiseId) (success error : Closure)
    (R : list bool) (s : State) :
  Inv R s -> (forall p, cok R s p success) -> anyOutcome error = true ->
  wp deeper (subscribeAll ps success error) (fun _ _ _ => True) R s.
Proof.
  intros I H1 H2. revert R s I H1. induction ps as [|p ps IH]; intros R s I H1; cbn [subscribeAll].
  - wp_step. exact Logic.I.
  - wp_step. apply wp_on; auto. intros R' s' L I'. cbn beta.
    apply IH; auto. intro q. eapply cok_later; eauto.
Qed.

Ltac wp_method ::=
  lazymatch goal with
  | |- wp _ session_startNewRecognition _ _ _ =>
      by_keeps session_startNewRecognition_keeps; [assumption|]
  | |- wp _ (session_onServiceTurnEndResponse _) _ _ _ =>
      by_keeps session_onServiceTurnEndResponse_keeps; [assumption|]
  | |- wp _ session_getTelemetry _ _ _ =>
      by_keeps session_getTelemetry_keeps; [assumption|]
  | |- wp _ (sendSpeechServiceConfig _ (serialize _)) _ _ _ =>
      by_keeps sendSpeechServiceConfig_keeps; [assumption|side|]
  | |- wp _ (sendSpeechContext _) _ _ _ =>
      by_keeps sendSpeechContext_keeps; [assumption|side|side|]
  | |- wp _ (connectImpl _) _ _ _ =>
      by_keeps connectImpl_keeps; [assumption|]
  | |- wp _ configureConnection _ _ _ =>
      by_keeps configureConnection_keeps; [assumption|]
  | |- wp _ fetchConnection _ _ _ =>
      by_keeps configureConnection_keeps; [assumption|]
  | |- wp _ sendTelemetryData _ _ _ =>
      by_keeps sendTelemetryData_keeps; [assumption|]
  | |- wp _ (receiveMessage _) _ _ _ =>
      by_keeps receiveMessage_keeps; [assumption|]
  | |- wp _ sendFinalAudio _ _ _ =>
      by_keeps sendFinalAudio_keeps; [assumption|]
  | |- wp _ isRealTimeAudioSource _ _ _ =>
      by_keeps isRealTimeAudioSource_keeps; [assumption|]
  | |- wp _ (readAndUploadCycle _) _ _ _ =>
      by_keeps readAndUploadCycle_keeps; [assumption|]
  | |- wp _ (subscribeAll _ _ _) _ _ _ =>
      by_keeps subscribeAll_keeps; [assumption|intro; exact Logic.I|reflexivity|]
  end.

Lemma sendAudio_keeps (audioStreamNode : string) (R : list bool) (s : State) :
  Inv R s -> wp deeper (sendAudio audioStreamNode) (fun p R' s' => plain R' p) R s.
Proof. intro I. unfold sendAudio. repeat wp_step; side. Qed.

Lemma whenAll_keeps (promises : list PromiseId) (R : list bool) (s : State) :
  Inv R s -> wp deeper (whenAll promises) (fun p R' s' => plain R' p) R s.
Proof. intro I. unfold whenAll. repeat wp_step; side. Qed.

Lemma checkForCompletion_keeps (join : JoinRef) (error : option string)
    (R : list bool) (s : State) :
  Inv R s ->
  wp deeper (checkForCompletion join error) (fun v _ _ => v = VUndefined) R s.
Proof. intro I. unfold checkForCompletion. repeat wp_step; side. Qed.

Lemma cancelRecognitionLocal_keeps (cancellationReason : CancellationReason)
    (errorCode : CancellationErrorCode) (error : option string)
    (cancelRecoCallback : option Callback) (R : list bool) (s : State) :
  Inv R s ->
  wp deeper (cancelRecognitionLocal cancellationReason errorCode error cancelRecoCallback)
    (fun _ _ _ => True) R s.
Proof. intro I. unfold cancelRecognitionLocal. repeat wp_step; side. Qed.

Ltac wp_method ::=
  lazymatch goal with
  | |- wp _ session_startNewRecognition _ _ _ =>
      by_keeps session_startNewRecognition_keeps; [assumption|]
  | |- wp _ (session_onServiceTurnEndResponse _) _ _ _ =>
      by_keeps session_onServiceTurnEndResponse_keeps; [assumption|]
  | |- wp _ session_getTelemetry _ _ _ =>
      by_keeps session_getTelemetry_keeps; [assumption|]
  | |- wp _ (sendSpeechServiceConfig _ (serialize _)) _ _ _ =>
      by_keeps sendSpeechServiceConfig_keeps; [assumption|side|]
  | |- wp _ (sendSpeechContext _) _ _ _ =>
      by_keeps sendSpeechContext_keeps; [assumption|side|side|]
  | |- wp _ (connectImpl _) _ _ _ =>
      by_keeps connectImpl_keeps; [assumption|]
  | |- wp _ configureConnection _ _ _ =>
      by_keeps configureConnection_keeps; [assumption|]
  | |- wp _ fetchConnection _ _ _ =>
      by_keeps configureConnection_keeps; [assumption|]
  | |- wp _ sendTelemetryData _ _ _ =>
      by_keeps sendTelemetryData_keeps; [assumption|]
  | |- wp _ (receiveMessage _) _ _ _ =>
      by_keeps receiveMessage_keeps; [assumption|]
  | |- wp _ sendFinalAudio _ _ _ =>
      by_keeps sendFinalAudio_keeps; [assumption|]
  | |- wp _ isRealTimeAudioSource _ _ _ =>
      by_keeps isRealTimeAudioSource_keeps; [assumption|]
  | |- wp _ (readAndUploadCycle _) _ _ _ =>
      by_keeps readAndUploadCycle_keeps; [assumption|]
  | |- wp _ (subscribeAll _ _ _) _ _ _ =>
      by_keeps subscribeAll_keeps; [assumption|intro; exact Logic.I|reflexivity|]
  | |- wp _ (sendAudio _) _ _ _ =>
      by_keeps sendAudio_keeps; [assumption|]
  | |- wp _ (whenAll _) _ _ _ =>
      by_keeps whenAll_keeps; [assumption|]
  | |- wp _ (checkForCompletion _ _) _ _ _ =>
      by_keeps checkForCompletion_keeps; [assumption|]
  | |- wp _ (cancelRecognitionLocal _ _ _ _) _ _ _ =>
      by_keeps cancelRecognitionLocal_keeps; [assumption|]
  end.

Lemma switchOnPath_keeps (cb : Callbacks) (connectionMessage : SpeechConnectionMessage)
    (R : list bool) (s : State) :
  Inv R s ->
  wp deeper (switchOnPath cb connectionMessage)
    (fun o R' s' => match o with Some p => plain R' p | None => True end) R s.
Proof. intro I. unfold switchOnPath. repeat wp_step; side. Qed.

Lemma recognize_keeps (recoMode : RecognitionMode) (cb : Callbacks)
    (R : list bool) (s : State) :
  Inv R s -> wp deeper (recognize recoMode cb) (fun _ _ _ => True) R s.
Proof. intro I. unfold recognize. repeat wp_step; side. Qed.

Lemma stopRecognizing_keeps (R : list bool) (s : State) :
  Inv R s -> wp deeper stopRecognizing (fun _ _ _ => True) R s.
Proof. intro I. unfold stopRecognizing. repeat wp_step; side. Qed.

Lemma connect_keeps (R : list bool) (s : State) :
  Inv R s -> wp deeper connect (fun _ _ _ => True) R s.
Proof. intro I. unfold connect. repeat wp_step; side. Qed.

Lemma disconnect_keeps (R : list bool) (s : State) :
  Inv R s -> wp deeper disconnect (fun _ _ _ => True) R s.
Proof. intro I. unfold disconnect. repeat wp_step; side. Qed.

Lemma dispose_keeps (reason : option string) (R : list bool) (s : State) :
  Inv R s -> wp deeper (dispose reason) (fun _ _ _ => True) R s.
Proof. intro I. unfold dispose. repeat wp_step; side. Qed.

Ltac wp_method ::=
  lazymatch goal with
  | |- wp _ session_startNewRecognition _ _ _ =>
      by_keeps session_startNewRecognition_keeps; [assumption|]
  | |- wp _ (session_onServiceTurnEndResponse _) _ _ _ =>
      by_keeps session_onServiceTurnEndResponse_keeps; [assumption|]
  | |- wp _ session_getTelemetry _ _ _ =>
      by_keeps session_getTelemetry_keeps; [assumption|]
  | |- wp _ (sendSpeechServiceConfig _ (serialize _)) _ _ _ =>
      by_keeps sendSpeechServiceConfig_keeps; [assumption|side|]
  | |- wp _ (sendSpeechContext _) _ _ _ =>
      by_keeps sendSpeechContext_keeps; [assumption|side|side|]
  | |- wp _ (connectImpl _) _ _ _ =>
      by_keeps connectImpl_keeps; [assumption|]
  | |- wp _ configureConnection _ _ _ =>
      by_keeps configureConnection_keeps; [assumption|]
  | |- wp _ fetchConnection _ _ _ =>
      by_keeps configureConnection_keeps; [assumption|]
  | |- wp _ sendTelemetryData _ _ _ =>
      by_keeps sendTelemetryData_keeps; [assumption|]
  | |- wp _ (receiveMessage _) _ _ _ =>
      by_keeps receiveMessage_keeps; [assumption|]
  | |- wp _ sendFinalAudio _ _ _ =>
      by_keeps sendFinalAudio_keeps; [assumption|]
  | |- wp _ isRealTimeAudioSource _ _ _ =>
      by_keeps isRealTimeAudioSource_keeps; [assumption|]
  | |- wp _ (readAndUploadCycle _) _ _ _ =>
      by_keeps readAndUploadCycle_keeps; [assumption|]
  | |- wp _ (subscribeAll _ _ _) _ _ _ =>
      by_keeps subscribeAll_keeps; [assumption|intro; exact Logic.I|reflexivity|]
  | |- wp _ (sendAudio _) _ _ _ =>
      by_keeps sendAudio_keeps; [assumption|]
  | |- wp _ (whenAll _) _ _ _ =>
      by_keeps whenAll_keeps; [assumption|]
  | |- wp _ (checkForCompletion _ _) _ _ _ =>
      by_keeps checkForCompletion_keeps; [assumption|]
  | |- wp _ (cancelRecognitionLocal _ _ _ _) _ _ _ =>
      by_keeps cancelRecognitionLocal_keeps; [assumption|]
  | |- wp _ (switchOnPath _ _) _ _ _ =>
      by_keeps switchOnPath_keeps; [assumption|]
  end.

(** *** The callbacks *)

Lemma connectImpl_onAuth_keeps (isUnAuthorized : bool) (arg : PromiseResult)
    (R : list bool) (s : State) :
  Inv R s ->
  wp deeper (connectImpl_onAuth isUnAuthorized arg)
    (fun v R' s' => cret R' s' (ConnectImpl_onAuth isUnAuthorized) v) R s.
Proof. intro I. unfold connectImpl_onAuth. repeat wp_step; side. Qed.

Lemma connectImpl_onOpen_keeps (isUnAuthorized : bool) (c : ConnRef)
    (arg : PromiseResult) (R : list bool) (s : State) :
  Inv R s -> valid s c ->
  wp deeper (connectImpl_onOpen isUnAuthorized c arg)
    (fun v R' s' => cret R' s' (ConnectImpl_onOpen isUnAuthorized c) v) R s.
Proof.
  intros I V. unfold connectImpl_onOpen. destruct arg as [|[]|]; repeat wp_step; try side.
  apply wp_new_wild; [assumption|intros ? [= <-]; assumption|enter].
  repeat wp_step; side.
Qed.

Lemma call_keeps (k : Closure) (arg : PromiseResult) (R : list bool) (s : State) :
  Inv R s -> cpre s k arg ->
  wp deeper (call k arg) (fun v R' s' => cret R' s' k v) R s.
Proof.
  intros I H. destruct k; cbn [call].
  1: now apply connectImpl_onAuth_keeps.
  1: now apply connectImpl_onOpen_keeps.
  all: destruct arg as [|[]|]; cbn in H.
  all: unfold configure_onConnection, configure_onConfigSent, configure_onContextSent,
         recognize_onAttach, recognize_onDeviceInfo, recognize_onConfigured,
         recognize_onConfigureError, recognize_onRuntimeError, recognize_onResult,
         dispose_onConnection, telemetry_onConnection, receive_onConnection,
         receive_onMessage, turnEnd_onConnection, finalAudio_onConnection,
         isRealTime_onDeviceInfo, pump_onConnection, pump_onConnectionError,
         pump_onChunk, pump_onReadError, pump_onIsRealTime, pump_onUploadedRealTime,
         pump_onTimeout, pump_cycle.
  all: repeat wp_step; try side.
  all: subst; exact Logic.I.
Qed.

(** *** The handlers *)

Lemma cret_fits (R : list bool) (s : State) (k : Closure) (v : Value) (d : PromiseId) :
  cret R s k v -> fits R s d (Resolved v).
Proof.
  intros C c E. injection E as ->. cbn in C.
  split; [now apply configured_valid|auto].
Qed.

Lemma settle_keeps (k : Closure) (d : PromiseId) (o : Value + string)
    (R : list bool) (s : State) :
  Inv R s -> (forall v, o = inl v -> cret R s k v) ->
  wp deeper (settle d o) (fun _ _ _ => True) R s.
Proof.
  intros I H. destruct o as [v|e]; cbn [settle].
  - unfold resolve. apply wp_complete; auto; try discriminate.
    + eapply cret_fits; eauto.
    + intros R' s' L I'. now apply wp_ret.
  - wp_step. exact Logic.I.
Qed.

Lemma chain_keeps (k : Closure) (d : PromiseId) (o : Value + string)
    (R : list bool) (s : State) :
  Inv R s -> takes R k d -> (forall v, o = inl v -> cret R s k v) ->
  wp deeper (chain d o) (fun _ _ _ => True) R s.
Proof.
  intros I [T1 T2] H. destruct o as [v|e]; cbn [chain].
  - specialize (H v eq_refl). destruct v; try (wp_step; exact Logic.I).
    cbn in H. destruct H as [H1 H2].
    apply wp_subscribe; auto.
    + split; [exact T1|]. intro Hd. split; [exact H1|].
      destruct (isRawSource k); [|auto].
      rewrite T2 in Hd by reflexivity. discriminate.
    + intros R' s' L I'. wp_step. exact Logic.I.
  - wp_step. exact Logic.I.
Qed.

Lemma rethrow_keeps (o : Value + string) (R : list bool) (s : State) :
  Inv R s -> wp deeper (rethrow o) (fun _ _ _ => True) R s.
Proof. intro I. destruct o; cbn [rethrow]; wp_step. exact Logic.I. Qed.

Lemma runHandler_keeps (p : PromiseId) (h : Handler) (r : PromiseResult)
    (R : list bool) (s : State) :
  Inv R s -> hok R s p h -> resultOf s p = r -> r <> Pending ->
  wp deeper (runHandler h r) (fun _ _ _ => True) R s.
Proof.
  intros I H E N. pose proof (inv_values _ _ I p) as F. rewrite E in F.
  destruct r as [|v|e]; [contradiction| |]; destruct h; cbn [runHandler];
    cbn in H; destruct H as [H1 H2].
  - apply wp_invoke; auto; [eapply cok_cpre; eauto|].
    intros R' s' L I'. split; intros; now apply rethrow_keeps.
  - apply wp_invoke; auto; [now apply anyOutcome_cpre|].
    intros R' s' L I'. split; intros; apply (settle_keeps k); auto; congruence.
  - apply wp_invoke; auto; [eapply cok_cpre; eauto|].
    intros R' s' L I'. split; intros; apply (settle_keeps k); auto; congruence.
  - apply wp_invoke; auto; [now apply anyOutcome_cpre|].
    intros R' s' L I'.
    split; intros; apply (chain_keeps k); eauto using takes_later; congruence.
  - apply wp_invoke; auto; [eapply cok_cpre; eauto|].
    intros R' s' L I'.
    split; intros; apply (chain_keeps k); eauto using takes_later; congruence.
  - unfold resolve. apply wp_complete; auto; try discriminate.
    + intros c Ec. destruct (F c Ec) as [V C]. split; [exact V|].
      intro Hd. apply C. now apply H2.
    + intros R' s' L I'. now apply wp_ret.
  - apply wp_invoke; auto; [now apply anyOutcome_cpre|].
    intros R' s' L I'. split; intros; now apply rethrow_keeps.
  - apply wp_invoke; auto; [now apply anyOutcome_cpre|].
    intros R' s' L I'. split; intros; apply (settle_keeps k); auto; congruence.
  - wp_step. exact Logic.I.
  - apply wp_invoke; auto; [now apply anyOutcome_cpre|].
    intros R' s' L I'.
    split; intros; apply (chain_keeps k); eauto using takes_later; congruence.
  - wp_step. exact Logic.I.
  - wp_step. exact Logic.I.
Qed.

Lemma runHandlers_keeps (p : PromiseId) (hs : list Handler) (r : PromiseResult)
    (R : list bool) (s : State) :
  Inv R s -> (forall h, In h hs -> hok R s p h) -> resultOf s p = r -> r <> Pending ->
  wp deeper (runHandlers hs r) (fun _ _ _ => True) R s.
Proof.
  intros I H E N. revert R s I H E.
  induction hs as [|h hs IH]; intros R s I H E; cbn [runHandlers].
  - wp_step. exact Logic.I.
  - apply wp_bind. eapply wp_mono.
    + apply (runHandler_keeps p); auto. apply H. now left.
    + intros _ R' s' L I' _. apply IH; auto.
      * intros x Hx. eapply hok_later; [exact L|]. apply H. now right.
      * destruct L as (_ & X & _). rewrite X; congruence.
Qed.

(** One more level of callbacks keeps the invariant. *)
Lemma sound_step : sound (fun A m s => execWith deeper m s).
Proof.
  split; [|split].
  - intros k arg R s I H. now apply call_keeps.
  - intros p hs r R s I H E N. now apply (runHandlers_keeps p).
  - intros p h r R s I H E N. now apply (runHandler_keeps p).
Qed.

End Library.

(** *** Every level of callbacks, every event, every run *)

Section Runs.

Context {collaborators : Collaborators}.

Hypothesis json : serializes.

Lemma deeperAt_sound (fuel : nat) : sound (deeperAt fuel).
Proof.
  induction fuel as [|f IH].
  - split; [|split]; intros; exact Logic.I.
  - pose proof (sound_step (deeperAt f) IH json) as (S1 & S2 & S3).
    split; [|split]; intros; cbn [deeperAt]; rewrite exec_unfold;
      [apply S1|apply (S2 p)|apply (S3 p)]; assumption.
Qed.

Lemma exec_wp (fuel : nat) (A : Type) (m : Prog A)
    (Q : A -> list bool -> State -> Prop) (R : list bool) (s : State) :
  wp (deeperAt fuel) m Q R s -> post R s Q (exec fuel m s).
Proof. rewrite exec_unfold. auto. Qed.

Lemma completes_fits (R : list bool) (s : State) (p : PromiseId) (o : Origin)
    (r : PromiseResult) :
  completes o r = true -> fits R s p r /\ r <> Pending.
Proof.
  intro H. split.
  - intros c ->. destruct o; discriminate.
  - intros ->. discriminate.
Qed.

Lemma In_remove_nth {A : Type} (i : nat) (l : list A) (x : A) :
  In x (remove_nth i l) -> In x l.
Proof.
  revert i; induction l as [|y l IH]; intros [|i]; cbn; auto.
  intros [H|H]; eauto.
Qed.

Lemma Inv_set_world (R : list bool) (s : State) (w : World) :
  Inv R s -> worldOK s w -> Inv R (set_world w s) /\ later R s R (set_world w s).
Proof. apply Inv_putWorld. Qed.

Lemma react_inv (fuel : nat) (e : Event) (R : list bool) (s : State) :
  Inv R s -> post R s (fun _ _ _ => True) (react fuel e s).
Proof.
  intro I. pose proof (deeperAt_sound fuel) as D.
  destruct e; cbn [react].
  - apply exec_wp, wp_bind. eapply wp_mono; [now apply recognize_keeps|].
    intros; now apply wp_ret.
  - apply exec_wp. now apply stopRecognizing_keeps.
  - apply exec_wp. now apply connect_keeps.
  - apply exec_wp. now apply disconnect_keeps.
  - apply exec_wp. now apply dispose_keeps.
  - destruct (completes (originOf s p) r && negb (isCompleted (resultOf s p)))%bool eqn:E.
    + apply andb_true_iff in E as [E _].
      destruct (completes_fits R s p _ _ E) as [F N].
      apply exec_wp, wp_complete; auto.
      intros; now apply wp_ret.
    + exists R. auto using later_refl.
  - destruct (Inv_set_world R s
                (set_connections (update_nth c (set_state st) (connections (world s)))
                   (world s)) I) as [I' L].
    + split; [apply (inv_world _ _ I)|].
      split; [cbn; rewrite update_nth_length; lia|].
      intro c'. left. unfold logOf, sentOn; cbn. rewrite nth_error_update_nth.
      destruct (Nat.eqb c c'), (nth_error (connections (world s)) c'); reflexivity.
    + exists R. auto.
  - destruct (nth_error (timers (world s)) i) as [[d k]|] eqn:E;
      [|exists R; auto using later_refl].
    destruct (inv_world _ _ I) as (Q1 & Q2 & Q3).
    destruct (Inv_set_world R s
                (set_timers (remove_nth i (timers (world s))) (world s)) I) as [I' L].
    { apply worldOK_quiet; auto. split; [exact Q1|]. split; [|exact Q3].
      cbn. intros d' k' H. apply In_remove_nth in H. eauto. }
    eapply post_later; [exact L|].
    apply exec_wp, wp_bind. eapply wp_mono.
    + apply call_keeps; auto. apply anyOutcome_cpre.
      apply (Q2 d). eapply nth_error_In; eauto.
    + intros; now apply wp_ret.
  - destruct (Inv_set_world R s (set_now (now (world s) + ms) (world s)) I) as [I' L].
    + apply worldOK_quiet; auto. apply (inv_world _ _ I).
    + exists R. auto.
Qed.

Lemma drain_inv (n fuel : nat) (R : list bool) (s s' : State) :
  Inv R s -> drain n fuel s = Some s' -> exists R', Inv R' s'.
Proof.
  revert R s. induction n as [|n IH]; intros R s I; cbn [drain];
    destruct (microtasks (world s)) as [|k rest] eqn:E; try discriminate.
  - intros [= <-]. eauto.
  - intros [= <-]. eauto.
  - destruct (inv_world _ _ I) as (Q1 & Q2 & Q3).
    destruct (Inv_set_world R s (set_microtasks rest (world s)) I) as [I' L].
    { apply worldOK_quiet; auto. split; [exact Q1|]. split; [exact Q2|].
      cbn. intros k' H. apply Q3. rewrite E. now right. }
    assert (P : post R (set_world (set_microtasks rest (world s)) s)
                  (fun v R' s' => cret R' s' k v)
                  (exec fuel (call k Pending)
                     (set_world (set_microtasks rest (world s)) s))).
    { apply exec_wp, call_keeps; auto using deeperAt_sound.
      apply anyOutcome_cpre, Q3. rewrite E. now left. }
    destruct (exec fuel (call k Pending) _); cbn in P; try discriminate.
    + destruct P as (R' & _ & I'' & _). exact (IH R' _ I'').
    + destruct P as (R' & _ & I''). exact (IH R' _ I'').
Qed.

Lemma dispatch_inv (fuel : nat) (e : Event) (R : list bool) (s s' : State)
    (err : option string) :
  Inv R s -> dispatch fuel e s = Some (err, s') -> exists R', Inv R' s'.
Proof.
  intro I. unfold dispatch. pose proof (react_inv fuel e R s I) as P.
  destruct (react fuel e s) as [a s1|x s1|]; cbn in P; try discriminate.
  - destruct P as (R' & _ & I' & _).
    destruct (drain fuel fuel s1) eqn:E; cbn; try discriminate.
    intros [= _ <-]. eapply drain_inv; eauto.
  - destruct P as (R' & _ & I').
    destruct (drain fuel fuel s1) eqn:E; cbn; try discriminate.
    intros [= _ <-]. eapply drain_inv; eauto.
Qed.

Lemma run_inv (fuel : nat) (es : list Event) (R : list bool) (s s' : State)
    (errs : list string) :
  Inv R s -> run fuel es s = Some (errs, s') -> exists R', Inv R' s'.
Proof.
  revert R s errs. induction es as [|e es IH]; intros R s errs I; cbn [run].
  - intros [= _ <-]. eauto.
  - destruct (dispatch fuel e s) as [[err s1]|] eqn:E; try discriminate.
    destruct (dispatch_inv fuel e R s s1 err I E) as [R1 I1].
    destruct (run fuel es s1) as [[errs1 s2]|] eqn:E2; cbn; try discriminate.
    intros [= _ <-]. eapply IH; eauto.
Qed.

Lemma initial_inv (recognizerConfig : RecognizerConfig) (audioSourceId : string)
    (avgBytesPerSec : Z) (speechContextJson : string) :
  Js.truthy speechContextJson = true ->
  Inv [] (initial recognizerConfig audioSourceId (newWorld avgBytesPerSec speechContextJson)).
Proof.
  intro T. constructor; cbn.
  - reflexivity.
  - intros c before m p rest. unfold sentOn; cbn. destruct c; cbn; intro H;
      now destruct before.
  - intros p c. unfold resultOf; cbn. destruct p; discriminate.
  - intros p h. unfold handlersOf; cbn. destruct p; intros [].
  - split; [exact T|]. split; intros; contradiction.
  - split; intros; discriminate.
Qed.

End Runs.

(** C2, as the code has it.  After every event of every run, on every
    connection: the first frame handed to the transport is a
    [speech.config]; a [speech.context] comes after a [speech.config] whose
    send future has resolved; a Binary frame comes after a [speech.context]
    whose send future has resolved -- the [speech.context] of some turn, not
    necessarily of the turn whose request id the frame carries.  Serialized
    JSON is taken to be non-empty, as [JSON.stringify] makes it.  The events
    are any calls of the public interface, completions of the futures the
    collaborators returned, state changes of a connection, timers and clock
    ticks, in any order; a run yields no state only when [fuel] does not
    cover the nesting of its callbacks, and the errors thrown on the way do
    not stop it. *)
Theorem frames_in_order {collaborators : Collaborators} (fuel : nat)
    (es : list Event) (recognizerConfig : RecognizerConfig) (audioSourceId : string)
    (avgBytesPerSec : Z) (speechContextJson : string) (errs : list string)
    (s : State) (c : ConnRef) (before rest : list (SpeechConnectionMessage * PromiseId))
    (m : SpeechConnectionMessage) (p : PromiseId) :
  serializes ->
  Js.truthy speechContextJson = true ->
  run fuel es (initial recognizerConfig audioSourceId
                 (newWorld avgBytesPerSec speechContextJson)) = Some (errs, s) ->
  sentOn s c = before ++ (m, p) :: rest ->
  (before = [] -> isConfig m = true)
  /\ (isContext m = true -> acceptedAmong s isConfig before)
  /\ (isBinary m = true -> acceptedAmong s isContext before).
Proof.
  intros J T H E.
  destruct (run_inv J fuel es [] _ s errs (initial_inv _ _ _ _ T) H) as [R I].
  exact (inv_ordered _ _ I c before m p rest E).
Qed.

(** C2 at work, in the second turn of a continuous recognition: the
    [audio] frame that carries the new request id is the fifth frame on the
    connection, and among the four before it there is a [speech.context]
    whose send future has resolved -- the one of the first turn. *)
Lemma frames_in_order_here :
  sentOn secondTurnAudio 0
  = firstn 4 (sentOn secondTurnAudio 0) ++ [(audioFrame request2 (Some 3200), 32%nat)]
  /\ acceptedAmong secondTurnAudio isContext (firstn 4 (sentOn secondTurnAudio 0)).
Proof.
  split; [vm_compute; reflexivity|].
  refine (proj2 (proj2 (frames_in_order 40
            (handshake Continuous ++ firstTurnEnds ++ thenAudio)
            (demoConfig Continuous) "source" 32000 "{ grammar }" []
            secondTurnAudio 0 (firstn 4 (sentOn secondTurnAudio 0)) []
            (audioFrame request2 (Some 3200)) 32%nat _ _ _ _)) _).
  - split; intros; reflexivity.
  - reflexivity.
  - vm_compute; reflexivity.
  - vm_compute; reflexivity.
  - reflexivity.
Defined.

(* ===================================================================== *)
(** ** Further properties of the class *)
(* ===================================================================== *)

(** *** The contract of the configured connection *)

(** X1.  After every event of every run, when the stored future of the
    configuration has resolved to a connection, a [speech.config] and a
    [speech.context] have been handed to that connection and their send
    futures have resolved. *)
Theorem configured_future_contract {collaborators : Collaborators} (fuel : nat)
    (es : list Event) (recognizerConfig : RecognizerConfig) (audioSourceId : string)
    (avgBytesPerSec : Z) (speechContextJson : string) (errs : list string)
    (s : State) (q : PromiseId) (c : ConnRef) :
  serializes ->
  Js.truthy speechContextJson = true ->
  run fuel es (initial recognizerConfig audioSourceId
                 (newWorld avgBytesPerSec speechContextJson)) = Some (errs, s) ->
  privConnectionConfigurationPromise (core s) = Some q ->
  resultOf s q = Resolved (VConnection c) ->
  acceptedAmong s isConfig (sentOn s c) /\ acceptedAmong s isContext (sentOn s c).
Proof.
  intros J T H Hq Hr.
  destruct (run_inv J fuel es [] _ s errs (initial_inv _ _ _ _ T) H) as [R I].
  destruct (inv_core _ _ I) as [C _]. destruct (C q Hq) as [_ Hraw].
  pose proof (inv_values _ _ I q c Hr) as [_ F]. exact (F Hraw).
Qed.

Lemma configured_future_contract_here :
  privConnectionConfigurationPromise (core (streaming SingleShot)) = Some 9%nat
  /\ acceptedAmong (streaming SingleShot) isConfig (sentOn (streaming SingleShot) 0)
  /\ acceptedAmong (streaming SingleShot) isContext (sentOn (streaming SingleShot) 0).
Proof.
  split; [vm_compute; reflexivity|].
  refine (configured_future_contract 40 (handshake SingleShot) (demoConfig SingleShot)
            "source" 32000 "{ grammar }" [] (streaming SingleShot) 9 0 _ _ _ _ _).
  - split; intros; reflexivity.
  - reflexivity.
  - vm_compute; reflexivity.
  - vm_compute; reflexivity.
  - vm_compute; reflexivity.
Defined.

(** *** The fields, write by write *)

Section SteadyFacts.

Context {collaborators : Collaborators}.

Variable G : Core -> Core -> Prop.

Hypothesis G_refl : forall c, G c c.

Hypothesis G_trans : forall c1 c2 c3, G c1 c2 -> G c2 c3 -> G c1 c3.

Lemma steadyPost_step {A : Type} (c0 c1 : Core) (Q : A -> Core -> Prop)
    (o : Outcome A) :
  G c0 c1 -> steadyPost G c1 Q o -> steadyPost G c0 Q o.
Proof.
  intro H. destruct o; cbn; auto.
  - intros [H1 H2]. eauto.
  - eauto.
Qed.

Lemma steady_sound (deeper : forall A : Type, Prog A -> State -> Outcome A) :
  steadyRunner G deeper ->
  forall (A : Type) (m : Prog A) (Q : A -> Core -> Prop) (s : State),
    steady G m Q (core s) -> steadyPost G (core s) Q (execWith deeper m s).
Proof.
  intros (D1 & D2 & D3) A m Q.
  induction m as [a|e|k IH|c k IH|k IH|w k IH|o r k IH|p k IH|p r k IH|p h k IH|cl arg k IH];
    intros s H; cbn [execWith steady] in *.
  - split; auto.
  - apply G_refl.
  - now apply IH.
  - destruct H as [H1 H2]. eapply steadyPost_step; [exact H1|].
    now apply (IH (mkState c (world s) (heap s))).
  - now apply IH.
  - now apply (IH (mkState (core s) w (heap s))).
  - now apply (IH _ (allocate o r s)).
  - now apply IH.
  - destruct (resultOf s p); try apply G_refl.
    destruct (handlersOf s p) as [|x hs].
    + apply (IH (complete p r s)). now apply H.
    + specialize (D2 (x :: hs) r (complete p r s)).
      destruct (deeper unit (runHandlers (x :: hs) r) (complete p r s)) as [u s1|e s1|];
        cbn [andThen steadyPost] in *; auto.
      destruct D2 as [D2 _]. eapply steadyPost_step; [exact D2|]. now apply IH, H.
  - destruct (resultOf s p) as [|v|e] eqn:E.
    + apply (IH (subscribe p h s)). now apply H.
    + specialize (D3 h (Resolved v) s).
      destruct (deeper unit (runHandler h (Resolved v)) s) as [u s1|e1 s1|];
        cbn [andThen steadyPost] in *; auto.
      destruct D3 as [D3 _]. eapply steadyPost_step; [exact D3|]. now apply IH, H.
    + specialize (D3 h (Rejected e) s).
      destruct (deeper unit (runHandler h (Rejected e)) s) as [u s1|e1 s1|];
        cbn [andThen steadyPost] in *; auto.
      destruct D3 as [D3 _]. eapply steadyPost_step; [exact D3|]. now apply IH, H.
  - specialize (D1 cl arg s).
    destruct (deeper Value (call cl arg) s) as [v s1|e s1|]; cbn [steadyPost] in *; auto.
    + destruct D1 as [D1 _]. eapply steadyPost_step; [exact D1|]. now apply IH, H.
    + eapply steadyPost_step; [exact D1|]. now apply IH, H.
Qed.

Lemma steady_bind {A B : Type} (m : Prog A) (f : A -> Prog B) (Q : B -> Core -> Prop) :
  forall c, steady G m (fun a c' => steady G (f a) Q c') c -> steady G (bind m f) Q c.
Proof.
  induction m as [a|e|k IH|c k IH|k IH|w k IH|o r k IH|p k IH|p r k IH|p h k IH|cl arg k IH];
    intros c0 H; cbn [steady bind] in *; auto.
  destruct H; auto.
Qed.

Lemma steady_mono {A : Type} (m : Prog A) (Q Q' : A -> Core -> Prop) :
  forall c, steady G m Q c -> (forall a c', Q a c' -> Q' a c') -> steady G m Q' c.
Proof.
  induction m as [a|e|k IH|c k IH|k IH|w k IH|o r k IH|p k IH|p r k IH|p h k IH|cl arg k IH];
    intros c0 H HQ; cbn [steady] in *; eauto.
  destruct H; eauto.
Qed.

End SteadyFacts.
(** *** What the writes of the class keep *)

Create HintDb kept_db.

Lemma Forall_update_nth {A : Type} (P : A -> Prop) (f : A -> A) (i : nat) (l : list A) :
  (forall x, P x -> P (f x)) -> Forall P l -> Forall P (update_nth i f l).
Proof.
  intros Hf H. revert i. induction H as [|x l Hx Hl IH]; intro i; cbn.
  - destruct i; constructor.
  - destruct i; constructor; auto.
Qed.

Section Kept.

Context {collaborators : Collaborators}.

Lemma kept_refl (again : bool) (c : Core) : kept again c c.
Proof. unfold kept. repeat split; auto. lia. Qed.

Lemma kept_trans (again : bool) (c1 c2 c3 : Core) :
  kept again c1 c2 -> kept again c2 c3 -> kept again c1 c3.
Proof.
  unfold kept. intros (A1 & A2 & A3 & A4) (B1 & B2 & B3 & B4).
  repeat split; auto. lia.
Qed.

Lemma kept_weaken (again : bool) (c c' : Core) : kept again c c' -> kept true c c'.
Proof.
  unfold kept. intros (A1 & A2 & A3 & A4). repeat split; auto. discriminate.
Qed.

(** One write: the session operations are unfolded and each part of
    [kept] is read off the fields. *)
Ltac bounded_go :=
  first
    [ assumption
    | apply Forall_app; split; [assumption | repeat constructor; cbn; lia]
    | apply Forall_update_nth; [intros [] ?; assumption | assumption]
    | eapply Forall_impl; [|eassumption]; cbn; intros; lia ].

Ltac kept_go :=
  unfold kept, pumpsBounded,
    Session.startNewRecognition, Session.onPreConnectionStart, Session.onAuthCompleted,
    Session.onConnectionEstablishCompleted, Session.onAudioSourceAttachCompleted,
    Session.onAudioSent, Session.onServiceRecognized, Session.onServiceTurnEndResponse,
    Session.onSpeechEnded, Session.onStopRecognizing, Session.dispose,
    Session.getTelemetry, Session.record, Session.with_flags, Session.with_telemetry;
  cbn;
  repeat match goal with
         | |- context [if ?b then _ else _] => destruct b; cbn
         | |- context [match telemetry ?s with _ => _ end] => destruct (telemetry s); cbn
         end;
  repeat split; intros; try assumption; try discriminate; try lia; try bounded_go.

(** Unfold the program, case by case; a method whose writes are known is
    not unfolded again. *)
Ltac head_of t := lazymatch t with ?f _ => head_of f | _ => t end.

Ltac steady_go :=
  repeat first
    [ progress intros
    | progress cbn [steady anything]
    | lazymatch goal with
      | |- _ /\ _ => split
      | |- kept _ _ _ => solve [kept_go]
      | |- True => exact Logic.I
      | |- anything _ _ => exact Logic.I
      | |- steady _ (bind _ _) _ _ => apply steady_bind
      | |- steady _ (if ?b then _ else _) _ _ => destruct b
      | |- steady _ (match ?x with _ => _ end) _ _ => destruct x
      | |- steady _ ?m _ _ =>
          first [ eapply steady_mono; [solve [eauto 2 with kept_db nocore]|]
                | let h := head_of m in unfold h ]
      end ].

Lemma subscribeAll_kept (again : bool) (ps : list PromiseId) (success error : Closure)
    (c : Core) :
  steady (kept again) (subscribeAll ps success error) anything c.
Proof.
  revert c. induction ps as [|p ps IH]; intro c; cbn [subscribeAll].
  - exact Logic.I.
  - apply steady_bind. unfold on. cbn [steady]. intros. apply IH.
Qed.

#[local] Hint Resolve subscribeAll_kept : kept_db.

Lemma session_startNewRecognition_kept (c : Core) :
  steady (kept true) (session_startNewRecognition) anything c.
Proof. unfold session_startNewRecognition. steady_go. Qed.

#[local] Hint Resolve session_startNewRecognition_kept : kept_db.

Lemma session_onServiceTurnEndResponse_kept (again : bool) (isContinuous : bool) (c : Core) :
  steady (kept again) (session_onServiceTurnEndResponse isContinuous) anything c.
Proof. unfold session_onServiceTurnEndResponse. steady_go. Qed.

#[local] Hint Resolve session_onServiceTurnEndResponse_kept : kept_db.

Lemma session_getTelemetry_kept (again : bool) (c : Core) :
  steady (kept again) (session_getTelemetry) anything c.
Proof. unfold session_getTelemetry. steady_go. Qed.

#[local] Hint Resolve session_getTelemetry_kept : kept_db.

Lemma connectImpl_attempt_kept (again : bool) (isUnAuthorized : bool) (c : Core) :
  steady (kept again) (connectImpl_attempt isUnAuthorized) anything c.
Proof. unfold connectImpl_attempt. steady_go. Qed.

#[local] Hint Resolve connectImpl_attempt_kept : kept_db.

Lemma connectImpl_kept (again : bool) (isUnAuthorized : bool) (c : Core) :
  steady (kept again) (connectImpl isUnAuthorized) anything c.
Proof. unfold connectImpl. steady_go. Qed.

#[local] Hint Resolve connectImpl_kept : kept_db.

Lemma sendSpeechServiceConfig_kept (again : bool) (connection : ConnRef) (json : string) (c : Core) :
  steady (kept again) (sendSpeechServiceConfig connection json) anything c.
Proof. unfold sendSpeechServiceConfig. steady_go. Qed.

#[local] Hint Resolve sendSpeechServiceConfig_kept : kept_db.

Lemma sendSpeechContext_kept (again : bool) (connection : ConnRef) (c : Core) :
  steady (kept again) (sendSpeechContext connection) anything c.
Proof. unfold sendSpeechContext. steady_go. Qed.

#[local] Hint Resolve sendSpeechContext_kept : kept_db.

Lemma configureConnection_attempt_kept (again : bool) (c : Core) :
  steady (kept again) (configureConnection_attempt) anything c.
Proof. unfold configureConnection_attempt. steady_go. Qed.

#[local] Hint Resolve configureConnection_attempt_kept : kept_db.

Lemma configureConnection_kept (again : bool) (c : Core) :
  steady (kept again) (configureConnection) anything c.
Proof. unfold configureConnection. steady_go. Qed.

#[local] Hint Resolve configureConnection_kept : kept_db.

Lemma fetchConnection_kept (again : bool) (c : Core) :
  steady (kept again) (fetchConnection) anything c.
Proof. unfold fetchConnection. steady_go. Qed.

#[local] Hint Resolve fetchConnection_kept : kept_db.

Lemma sendTelemetryData_kept (again : bool) (c : Core) :
  steady (kept again) (sendTelemetryData) anything c.
Proof. unfold sendTelemetryData. steady_go. Qed.

#[local] Hint Resolve sendTelemetryData_kept : kept_db.

Lemma cancelRecognitionLocal_kept (again : bool) (cancellationReason : CancellationReason) (errorCode : CancellationErrorCode) (error : option string) (cancelRecoCallback : option Callback) (c : Core) :
  steady (kept again) (cancelRecognitionLocal cancellationReason errorCode error cancelRecoCallback) anything c.
Proof. unfold cancelRecognitionLocal. steady_go. Qed.

#[local] Hint Resolve cancelRecognitionLocal_kept : kept_db.

Lemma receiveMessage_kept (again : bool) (cb : Callbacks) (c : Core) :
  steady (kept again) (receiveMessage cb) anything c.
Proof. unfold receiveMessage. steady_go. Qed.

#[local] Hint Resolve receiveMessage_kept : kept_db.

Lemma sendFinalAudio_kept (again : bool) (c : Core) :
  steady (kept again) (sendFinalAudio) anything c.
Proof. unfold sendFinalAudio. steady_go. Qed.

#[local] Hint Resolve sendFinalAudio_kept : kept_db.

Lemma isRealTimeAudioSource_kept (again : bool) (c : Core) :
  steady (kept again) (isRealTimeAudioSource) anything c.
Proof. unfold isRealTimeAudioSource. steady_go. Qed.

#[local] Hint Resolve isRealTimeAudioSource_kept : kept_db.

Lemma readAndUploadCycle_kept (again : bool) (pump : PumpRef) (c : Core) :
  steady (kept again) (readAndUploadCycle pump) anything c.
Proof. unfold readAndUploadCycle. steady_go. Qed.

#[local] Hint Resolve readAndUploadCycle_kept : kept_db.

Lemma sendAudio_kept (again : bool) (audioStreamNode : string) (c : Core) :
  steady (kept again) (sendAudio audioStreamNode) anything c.
Proof. unfold sendAudio. steady_go. Qed.

#[local] Hint Resolve sendAudio_kept : kept_db.

Lemma whenAll_kept (again : bool) (promises : list PromiseId) (c : Core) :
  steady (kept again) (whenAll promises) anything c.
Proof. unfold whenAll. steady_go. Qed.

#[local] Hint Resolve whenAll_kept : kept_db.

Lemma checkForCompletion_kept (again : bool) (join : JoinRef) (error : option string) (c : Core) :
  steady (kept again) (checkForCompletion join error) anything c.
Proof. unfold checkForCompletion. steady_go. Qed.

#[local] Hint Resolve checkForCompletion_kept : kept_db.

Lemma switchOnPath_kept (again : bool) (cb : Callbacks) (connectionMessage : SpeechConnectionMessage) (c : Core) :
  steady (kept again) (switchOnPath cb connectionMessage) anything c.
Proof. unfold switchOnPath. steady_go. Qed.

#[local] Hint Resolve switchOnPath_kept : kept_db.

Lemma recognize_kept (recoMode : RecognitionMode) (cb : Callbacks) (c : Core) :
  steady (kept true) (recognize recoMode cb) anything c.
Proof. unfold recognize. steady_go. Qed.

#[local] Hint Resolve recognize_kept : kept_db.

Lemma stopRecognizing_kept (again : bool) (c : Core) :
  steady (kept again) (stopRecognizing) anything c.
Proof. unfold stopRecognizing. steady_go. Qed.

#[local] Hint Resolve stopRecognizing_kept : kept_db.

Lemma connect_kept (again : bool) (c : Core) :
  steady (kept again) (connect) anything c.
Proof. unfold connect. steady_go. Qed.

#[local] Hint Resolve connect_kept : kept_db.

Lemma disconnect_kept (again : bool) (c : Core) :
  steady (kept again) (disconnect) anything c.
Proof. unfold disconnect. steady_go. Qed.

#[local] Hint Resolve disconnect_kept : kept_db.

Lemma dispose_kept (again : bool) (reason : option string) (c : Core) :
  steady (kept again) (dispose reason) anything c.
Proof. unfold dispose. steady_go. Qed.

#[local] Hint Resolve dispose_kept : kept_db.

Lemma call_kept (again : bool) (k : Closure) (arg : PromiseResult) (c : Core) :
  steady (kept again) (call k arg) anything c.
Proof. destruct k; cbn [call]; steady_go. Qed.

Lemma runHandler_kept (again : bool) (h : Handler) (r : PromiseResult) (c : Core) :
  steady (kept again) (runHandler h r) anything c.
Proof. destruct h, r; cbn [runHandler]; steady_go. Qed.

Lemma runHandlers_kept (again : bool) (hs : list Handler) (r : PromiseResult) (c : Core) :
  steady (kept again) (runHandlers hs r) anything c.
Proof.
  revert c. induction hs as [|h hs IH]; intro c; cbn [runHandlers].
  - exact Logic.I.
  - apply steady_bind. eapply steady_mono; [apply runHandler_kept|].
    intros; apply IH.
Qed.

Lemma deeperAt_kept (again : bool) (fuel : nat) : steadyRunner (kept again) (deeperAt fuel).
Proof.
  induction fuel as [|f IH].
  - split; [|split]; intros; exact Logic.I.
  - split; [|split]; intros; cbn [deeperAt]; rewrite exec_unfold;
      apply (steady_sound (kept again) (kept_refl again) (kept_trans again) _ IH);
      auto using call_kept, runHandlers_kept, runHandler_kept.
Qed.

Lemma exec_kept (again : bool) (fuel : nat) (A : Type) (m : Prog A)
    (Q : A -> Core -> Prop) (s : State) :
  steady (kept again) m Q (core s) ->
  steadyPost (kept again) (core s) Q (exec fuel m s).
Proof.
  intro H. rewrite exec_unfold.
  apply (steady_sound (kept again) (kept_refl again) (kept_trans again) _
           (deeperAt_kept again fuel)); auto.
Qed.

Lemma react_kept (again : bool) (fuel : nat) (e : Event) (s : State) :
  (again = false -> isRecognizeCall e = false) ->
  leaves again (core s) (react fuel e s).
Proof.
  unfold leaves. intro Hr. destruct e; cbn [react].
  - destruct again; [|discriminate (Hr eq_refl)].
    apply exec_kept. apply steady_bind.
    eapply steady_mono; [apply recognize_kept|]. intros; exact Logic.I.
  - apply exec_kept, stopRecognizing_kept.
  - apply exec_kept, connect_kept.
  - apply exec_kept, disconnect_kept.
  - apply exec_kept, dispose_kept.
  - destruct (completes (originOf s p) r && negb (isCompleted (resultOf s p)))%bool.
    + apply exec_kept. cbn. intros; exact Logic.I.
    + split; [apply kept_refl|exact Logic.I].
  - split; [apply kept_refl|exact Logic.I].
  - destruct (nth_error (timers (world s)) i) as [[d k]|].
    + apply (exec_kept again fuel _ (call k Pending ;; skip) anything
               (set_world (set_timers (remove_nth i (timers (world s))) (world s)) s)).
      apply steady_bind. eapply steady_mono; [apply call_kept|].
      intros; exact Logic.I.
    + split; [apply kept_refl|exact Logic.I].
  - split; [apply kept_refl|exact Logic.I].
Qed.

Lemma drain_kept (again : bool) (n fuel : nat) (s s' : State) :
  drain n fuel s = Some s' -> kept again (core s) (core s').
Proof.
  revert s. induction n as [|n IH]; intro s; cbn [drain];
    destruct (microtasks (world s)) as [|k rest]; try discriminate.
  - intros [= <-]. apply kept_refl.
  - intros [= <-]. apply kept_refl.
  - pose proof (exec_kept again fuel _ (call k Pending) anything
                  (set_world (set_microtasks rest (world s)) s)
                  (call_kept again k Pending _)) as P.
    destruct (exec fuel (call k Pending) _) as [v s1|e s1|]; cbn in P; try discriminate.
    + intro H. eapply kept_trans; [apply P|]. now apply IH.
    + intro H. eapply kept_trans; [apply P|]. now apply IH.
Qed.

Lemma dispatch_kept (again : bool) (fuel : nat) (e : Event) (s s' : State)
    (err : option string) :
  (again = false -> isRecognizeCall e = false) ->
  dispatch fuel e s = Some (err, s') -> kept again (core s) (core s').
Proof.
  intro Hr. unfold dispatch. pose proof (react_kept again fuel e s Hr) as P.
  unfold leaves in P.
  destruct (react fuel e s) as [a s1|x s1|]; cbn in P; try discriminate;
    destruct (drain fuel fuel s1) eqn:E; cbn; try discriminate;
    intros [= _ <-]; (eapply kept_trans; [apply P|]);
    eapply drain_kept; eauto.
Qed.

Lemma run_kept (again : bool) (fuel : nat) (es : list Event) (s s' : State)
    (errs : list string) :
  (again = false -> existsb isRecognizeCall es = false) ->
  run fuel es s = Some (errs, s') -> kept again (core s) (core s').
Proof.
  revert s errs. induction es as [|e es IH]; intros s errs Hr; cbn [run].
  - intros [= _ <-]. apply kept_refl.
  - destruct (dispatch fuel e s) as [[err s1]|] eqn:E; try discriminate.
    destruct (run fuel es s1) as [[errs1 s2]|] eqn:E2; cbn; try discriminate.
    intros [= _ <-].
    assert (He : again = false -> isRecognizeCall e = false /\
                                  existsb isRecognizeCall es = false).
    { intro Ha. specialize (Hr Ha). cbn in Hr. now apply orb_false_elim in Hr. }
    eapply kept_trans; [eapply dispatch_kept; eauto; intro Ha; now apply He|].
    eapply IH; eauto. intro Ha; now apply He.
Qed.

(** What the rest of a method keeps, once its first write is made. *)
Lemma exec_after_write (again : bool) (fuel : nat) (A : Type) (f : Core -> Core)
    (m : Prog A) (s : State) :
  steady (kept again) m anything (f (core s)) ->
  leaves again (f (core s)) (exec fuel (modifyCore f ;; m) s).
Proof.
  intro H. rewrite exec_unfold. unfold modifyCore, skip. cbn [bind execWith].
  apply (steady_sound (kept again) (kept_refl again) (kept_trans again) _
           (deeperAt_kept again fuel) _ m anything
           (mkState (f (core s)) (world s) (heap s))); auto.
Qed.

Lemma dispatch_dispose (fuel : nat) (reason : option string) (s s' : State)
    (err : option string) :
  dispatch fuel (Api_dispose reason) s = Some (err, s') ->
  privIsDisposed (core s') = true.
Proof.
  unfold dispatch. cbn [react].
  assert (P : leaves false (set_isDisposed true (core s)) (exec fuel (dispose reason) s)).
  { unfold dispose. apply exec_after_write.
    unfold getCore. cbn [bind steady].
    destruct (privConnectionConfigurationPromise _); steady_go. }
  unfold leaves in P.
  destruct (exec fuel (dispose reason) s) as [u s0|e s0|]; cbn in P; try discriminate;
    destruct (drain fuel fuel s0) eqn:D; cbn; try discriminate;
    intros [= _ <-]; apply (drain_kept false) in D; apply D; apply P; reflexivity.
Qed.

End Kept.

(** X2.  Once [dispose()] has been called the core stays disposed: no call
    of the public interface, no callback, no timer clears [privIsDisposed],
    whatever the state the run starts from. *)
Theorem disposed_for_good {collaborators : Collaborators} (fuel : nat)
    (es : list Event) (reason : option string) (s s' : State) (errs : list string) :
  run fuel (Api_dispose reason :: es) s = Some (errs, s') ->
  privIsDisposed (core s') = true.
Proof.
  cbn [run]. destruct (dispatch fuel (Api_dispose reason) s) as [[err s1]|] eqn:E;
    try discriminate.
  destruct (run fuel es s1) as [[errs1 s2]|] eqn:E2; cbn; try discriminate.
  intros [= _ <-]. apply (run_kept true fuel es s1 s2 errs1); [discriminate|exact E2|].
  eapply dispatch_dispose; eauto.
Qed.

(** A second [recognize()] after [dispose()] does not bring the core back. *)
Lemma disposed_for_good_here :
  privIsDisposed (core (after (Api_dispose None :: recognizeAgain) (streaming SingleShot)))
  = true.
Proof.
  apply (disposed_for_good 40 recognizeAgain None (streaming SingleShot) _ []).
  vm_compute; reflexivity.
Defined.

(** *** dispose *)

Section Further.

Context {collaborators : Collaborators}.

Lemma resultOf_old (s : State) (p : PromiseId) (cells : list Cell) (c : Core) (w : World) :
  resultOf s p <> Pending ->
  resultOf (mkState c w (heap s ++ cells)) p = resultOf s p.
Proof.
  unfold resultOf. cbn [heap].
  destruct (nth_error (heap s) p) eqn:E; [|congruence].
  now rewrite (nth_error_app_old _ _ _ _ E).
Qed.

(** X3.  [dispose()] reaches a connection only through the stored future of
    the configuration. With none stored it sets the flag and nothing else,
    whatever [privConnectionPromise] holds; with one that holds a connection
    it calls [connection.dispose(reason)], on every call; with a pending one
    it chains that call on the future; with a failed one it disposes of
    nothing. *)
Theorem dispose_goes_by_the_configuration (fuel : nat) (reason : option string)
    (s : State) (q : PromiseId) (c : ConnRef) (e : string) :
  (privConnectionConfigurationPromise (core s) = None ->
   exec fuel (dispose reason) s = Done tt (flagged s))
  /\ (privConnectionConfigurationPromise (core s) = Some q ->
      resultOf s q = Resolved (VConnection c) ->
      exec (S (S fuel)) (dispose reason) s
      = Done tt (settled (Resolved VUndefined) (disposedOf c reason (flagged s))))
  /\ (privConnectionConfigurationPromise (core s) = Some q ->
      (q < List.length (heap s))%nat -> resultOf s q = Pending ->
      exec fuel (dispose reason) s
      = Done tt (chainedOn q (H_onSuccessContinueWith (Dispose_onConnection reason))
                   (flagged s)))
  /\ (privConnectionConfigurationPromise (core s) = Some q ->
      resultOf s q = Rejected e ->
      exec (S fuel) (dispose reason) s = Done tt (settled (Rejected e) (flagged s))).
Proof.
  unfold settled, disposedOf, chainedOn, flagged.
  repeat split; intros Hq; try intros Hr; try intros Hp.
  - rewrite exec_unfold. unfold dispose. destruct s as [k w h]. cbn in *.
    now rewrite Hq.
  - rewrite exec_unfold. unfold dispose. destruct s as [k w h]. cbn in *.
    rewrite Hq. cbn.
    unfold resultOf in Hr. cbn [heap] in Hr.
    destruct (nth_error h q) as [cell|] eqn:Ec; [|discriminate Hr].
    heap_simpl. rewrite (nth_error_app_old _ _ _ _ Ec), Hr. run_sym. reflexivity.
  - rewrite exec_unfold. unfold dispose. destruct s as [k w h]. cbn in *.
    rewrite Hq. cbn.
    unfold resultOf in Hp. cbn [heap] in Hp. heap_simpl.
    destruct (nth_error h q) as [cell|] eqn:Ec.
    + rewrite (nth_error_app_old _ _ _ _ Ec), Hp. reflexivity.
    + apply nth_error_None in Ec. lia.
  - rewrite exec_unfold. unfold dispose. destruct s as [k w h]. cbn in *.
    rewrite Hq. cbn.
    unfold resultOf in Hr. cbn [heap] in Hr.
    destruct (nth_error h q) as [cell|] eqn:Ec; [|discriminate Hr].
    heap_simpl. rewrite (nth_error_app_old _ _ _ _ Ec), Hr. run_sym. reflexivity.
Qed.


Lemma fetch_configured (fuel : nat) (s : State) (c : ConnRef) :
  configuredOn s c ->
  exists q, resultOf s q = Resolved (VConnection c)
            /\ exec fuel fetchConnection s = Done q s.
Proof.
  intros (q & Hq & Hr & Hc). exists q. split; [exact Hr|].
  unfold fetchConnection. rewrite configureConnection_unfold, Hq, Hr.
  unfold stale. destruct (stateOf (world s) c); try reflexivity. now destruct Hc.
Qed.

(** *** disconnect *)

(** X4.  [disconnect()] with an open connection and nothing being recognized
    disposes of the connection and forgets the connection promise, but not
    the promise of the configuration. From then on, and until the transport
    reports the connection as [Disconnected], the two ways to a connection
    disagree: [fetchConnection()] goes on returning the configuration that
    holds the connection just disposed of, while [connectImpl()] starts a
    new attempt. *)
Theorem disconnect_keeps_the_configuration (fuel : nat) (s : State)
    (p q : PromiseId) (c : ConnRef) :
  isRecognizing (privRequestSession (core s)) = false ->
  privConnectionPromise (core s) = Some p ->
  resultOf s p = Resolved (VConnection c) ->
  privConnectionConfigurationPromise (core s) = Some q ->
  resultOf s q = Resolved (VConnection c) ->
  stateOf (world s) c <> Disconnected ->
  exec fuel disconnect s = Done tt (dropped c s)
  /\ exec fuel fetchConnection (dropped c s) = Done q (dropped c s)
  /\ exec fuel (connectImpl false) (dropped c s)
     = Done (S (List.length (heap s))) (attempted false (dropped c s)).
Proof.
  intros Hn Hp Hr Hq Hrq Hc. split; [|split].
  - rewrite exec_unfold. unfold disconnect, dropped. cbn. rewrite Hn. cbn.
    rewrite Hp. cbn. rewrite Hr. reflexivity.
  - unfold fetchConnection. rewrite configureConnection_unfold.
    change (privConnectionConfigurationPromise (core (dropped c s)))
      with (privConnectionConfigurationPromise (core s)).
    rewrite Hq.
    change (resultOf (dropped c s) q) with (resultOf s q). rewrite Hrq.
    unfold stale.
    change (stateOf (world (dropped c s)) c) with (stateOf (world s) c).
    destruct (stateOf (world s) c); try reflexivity. now destruct Hc.
  - rewrite connectImpl_unfold.
    replace (privConnectionPromise (core (dropped c s))) with (@None PromiseId)
      by (destruct s as [[] ? ?]; reflexivity).
    now rewrite connectImpl_attempt_spec.
Qed.

(** *** sendTelemetryData *)

Lemma telemetry_dropped (fuel : nat) (s : State) :
  nothingToReport s = true ->
  exec fuel sendTelemetryData s
  = Done (List.length (heap s)) (settled (Resolved (VBool true)) (flushed s)).
Proof.
  intro H.
  rewrite exec_unfold. unfold sendTelemetryData, session_getTelemetry, nothingToReport in *.
  destruct s as [k w h]. cbn in *.
  destruct (fst (Session.getTelemetry (privRequestSession k))); [|reflexivity].
  rewrite orb_false_r in H. destruct k; cbn in *. rewrite H. reflexivity.
Qed.

(** X5.  [sendTelemetryData] takes the telemetry out of the session before
    it looks whether it may send it: when telemetry is switched off, or the
    core is disposed, what the session had collected is dropped, nothing is
    handed to a connection, and the future returned is already resolved. *)
Theorem telemetry_is_dropped (fuel : nat) (s : State) :
  nothingToReport s = true ->
  exec fuel sendTelemetryData s
  = Done (List.length (heap s)) (settled (Resolved (VBool true)) (flushed s))
  /\ telemetry (privRequestSession (core (flushed s))) = []
  /\ world (flushed s) = world s.
Proof.
  intro H. split; [|split].
  - now apply telemetry_dropped.
  - unfold flushed, Session.getTelemetry. cbn.
    destruct (telemetry (privRequestSession (core s))) eqn:E; cbn; auto.
  - reflexivity.
Qed.

(** *** sendSpeechContext *)

(** X6.  With an empty speech context, the configuration sends no
    [speech.context]: the step that follows [speech.config] hands no frame
    to the connection and completes at once, and the future it returns
    already holds the connection. *)
Theorem empty_context_is_skipped (fuel : nat) (s : State) (connection : ConnRef)
    (r : PromiseResult) :
  Js.truthy (speechContextJson (world s)) = false ->
  exec (S (S fuel)) (configure_onConfigSent connection r) s
  = Done (VPromise (S (List.length (heap s))))
      (settled (Resolved (VConnection connection))
         (settled (Resolved (VBool true)) s)).
Proof.
  intro Hj. unfold configure_onConfigSent, sendSpeechContext, settled.
  rewrite exec_unfold. destruct s as [c w h]. cbn in *. rewrite Hj. cbn.
  run_sym. rewrite Nat.add_1_r. reflexivity.
Qed.

(** *** sendFinalAudio *)

Lemma telemetry_reported (fuel : nat) (s : State) (c : ConnRef) :
  configuredOn s c ->
  exec (S (S fuel)) sendTelemetryData s = Done (List.length (heap s)) (reported c s).
Proof.
  intro Hc. unfold reported.
  destruct (fst (Session.getTelemetry (privRequestSession (core s)))) as [json|] eqn:Ej.
  - destruct (negb (telemetryDataEnabled (world s)) || privIsDisposed (core s))%bool eqn:Eg.
    + apply telemetry_dropped. unfold nothingToReport. now rewrite Eg.
    + rewrite exec_unfold. unfold sendTelemetryData, session_getTelemetry.
      unfold getSession, modifySession, modifyCore, getWorld, getCore, skip.
      cbn [bind execWith]. rewrite Ej. cbn [core world privIsDisposed set_requestSession].
      rewrite Eg.
      assert (F : forall s1,
                 configuredOn s1 c ->
                 execWith (deeperAt (S (S fuel)))
                   (p <- fetchConnection ;; onSuccessContinueWith p (Telemetry_onConnection json))
                   s1
                 = Done (List.length (heap s1))
                     (complete (List.length (heap s1))
                        (Resolved (VPromise (List.length (heap s1) + 1)))
                        (handedOver c (telemetryFrame json s1)
                           (allocate Internal Pending s1)))).
      { intros s1 H1. destruct (fetch_configured (S (S fuel)) s1 c H1) as (q & Hr & Hf).
        rewrite execWith_bind, <- exec_unfold, Hf. cbn [andThen].
        unfold onSuccessContinueWith, newDeferred. cbn [bind execWith].
        unfold allocate, set_heap.
        rewrite resultOf_old by (rewrite Hr; discriminate). rewrite Hr.
        cbn [deeperAt]. unfold telemetryFrame. destruct s1 as [k w h].
        run_sym. reflexivity. }
      destruct Hc as (q & Hq & Hr & Hc).
      destruct (telemetryDataHook (world s)); unfold when, emit, modifyWorld, skip.
      * rewrite execWith_bind. cbn [execWith andThen].
        apply (F (traced (Hook_telemetryData json) (flushed s))).
        exists q. destruct s as [[] ? ?]. repeat split; auto.
      * cbn [bind]. apply (F (flushed s)).
        exists q. destruct s as [[] ? ?]. repeat split; auto.
  - apply telemetry_dropped. unfold nothingToReport. rewrite Ej. apply orb_true_r.
Qed.


Lemma core_reported (c : ConnRef) (s : State) : core (reported c s) = core (flushed s).
Proof.
  unfold reported.
  destruct (fst (Session.getTelemetry (privRequestSession (core s)))); [|reflexivity].
  destruct (negb (telemetryDataEnabled (world s)) || privIsDisposed (core s))%bool;
    [reflexivity|].
  destruct (telemetryDataHook (world s)); reflexivity.
Qed.

Lemma telemetryFrame_flushed (json : string) (s : State) (e : Effect) :
  telemetryFrame json (flushed s) = telemetryFrame json s
  /\ telemetryFrame json (traced e (flushed s)) = telemetryFrame json s.
Proof.
  unfold telemetryFrame, traced, flushed, Session.getTelemetry. cbn.
  destruct (telemetry (privRequestSession (core s))); split; reflexivity.
Qed.

(** X7.  [sendTelemetryData] with a configured connection at hand: the
    buffer of the session is emptied in every case; one [telemetry] frame
    goes out at once, with the request id of the session, exactly when
    telemetry is switched on, the core is not disposed and the buffer was
    not empty; the static hook, when set, is called before the frame is
    sent. *)
Theorem telemetry_is_sent (fuel : nat) (s : State) (c : ConnRef) (x : Connection) :
  configuredOn s c ->
  nth_error (connections (world s)) c = Some x ->
  exec (S (S fuel)) sendTelemetryData s = Done (List.length (heap s)) (reported c s)
  /\ telemetry (privRequestSession (core (reported c s))) = []
  /\ framesOn (reported c s) c
     = framesOn s c
       ++ (if nothingToReport s then []
           else match fst (Session.getTelemetry (privRequestSession (core s))) with
                | Some json => [telemetryFrame json s]
                | None => []
                end).
Proof.
  intros Hc Hx. split; [now apply telemetry_reported|split].
  - rewrite core_reported. unfold flushed, Session.getTelemetry. cbn.
    destruct (telemetry (privRequestSession (core s))) eqn:E; cbn; auto.
  - unfold reported, nothingToReport.
    destruct (fst (Session.getTelemetry (privRequestSession (core s)))) as [json|];
      [|rewrite orb_true_r; now rewrite app_nil_r].
    rewrite orb_false_r.
    destruct (negb (telemetryDataEnabled (world s)) || privIsDisposed (core s))%bool;
      [now rewrite app_nil_r|].
    unfold complete, set_heap, framesOn, sentOn. cbn [world].
    destruct (telemetryFrame_flushed json s (Hook_telemetryData json)) as [F1 F2].
    destruct (telemetryDataHook (world s)).
    + rewrite F2.
      apply (framesOn_handedOver c (telemetryFrame json s)
               (allocate Internal Pending (traced (Hook_telemetryData json) (flushed s)))
               x Hx).
    + rewrite F1.
      apply (framesOn_handedOver c (telemetryFrame json s)
               (allocate Internal Pending (flushed s)) x Hx).
Qed.

(** *** sendFinalAudio, stopRecognizing *)

Lemma stateOf_update (c c' : ConnRef) (m : SpeechConnectionMessage) (p : PromiseId)
    (w : World) :
  stateOf (set_connections (update_nth c' (record_sent m p) (connections w)) w) c
  = stateOf w c.
Proof.
  unfold stateOf. cbn. rewrite nth_error_update_nth.
  destruct (Nat.eqb c' c); [|reflexivity].
  destruct (nth_error (connections w) c); reflexivity.
Qed.

Lemma resultOf_fresh (s : State) (q : PromiseId) (c : Core) (w : World)
    (cells : list Cell) (n : nat) (r : PromiseResult) :
  resultOf s q <> Pending ->
  resultOf (mkState c w (update_nth (List.length (heap s) + n)
                           (fun x => mkCell (origin x) r [])
                           (heap s ++ cells))) q
  = resultOf s q.
Proof.
  intro H. unfold resultOf in *. cbn [heap].
  rewrite nth_error_update_nth.
  destruct (nth_error (heap s) q) as [x|] eqn:E; [|congruence].
  pose proof (nth_error_Some_lt _ _ _ E).
  replace (Nat.eqb (List.length (heap s) + n) q) with false
    by (symmetry; apply Nat.eqb_neq; lia).
  now rewrite (nth_error_app_old _ _ _ _ E).
Qed.

Lemma configuredOn_inSession (f : RequestSession -> RequestSession) (s : State)
    (c : ConnRef) :
  configuredOn s c -> configuredOn (inSession f s) c.
Proof.
  intros (q & Hq & Hr & Hc). exists q. destruct s as [[] ? ?]. repeat split; auto.
Qed.

Lemma configuredOn_traced (e : Effect) (s : State) (c : ConnRef) :
  configuredOn s c -> configuredOn (traced e s) c.
Proof.
  intros (q & Hq & Hr & Hc). exists q. destruct s as [[] ? ?]. repeat split; auto.
Qed.

Lemma configuredOn_settled (r : PromiseResult) (s : State) (c : ConnRef) :
  configuredOn s c -> configuredOn (settled r s) c.
Proof.
  intros (q & Hq & Hr & Hc). exists q. repeat split; auto.
  unfold settled, allocate, set_heap. rewrite resultOf_old; [exact Hr|].
  rewrite Hr; discriminate.
Qed.

Lemma configuredOn_reported (s : State) (c : ConnRef) :
  configuredOn s c -> configuredOn (reported c s) c.
Proof.
  intro H. unfold reported.
  assert (Hf : configuredOn (flushed s) c)
    by (apply (configuredOn_inSession (fun x => snd (Session.getTelemetry x)) s c H)).
  destruct (fst (Session.getTelemetry (privRequestSession (core s)))) as [json|];
    [|now apply configuredOn_settled].
  destruct (negb (telemetryDataEnabled (world s)) || privIsDisposed (core s))%bool;
    [now apply configuredOn_settled|].
  assert (G : forall s1, configuredOn s1 c ->
                configuredOn
                  (complete (List.length (heap s))
                     (Resolved (VPromise (List.length (heap s) + 1)))
                     (handedOver c (telemetryFrame json s1)
                        (allocate Internal Pending s1))) c
                \/ List.length (heap s1) <> List.length (heap s)).
  { intros s1 (q & Hq & Hr & Hc).
    destruct (Nat.eq_dec (List.length (heap s1)) (List.length (heap s))) as [E|E];
      [left|now right].
    exists q. unfold complete, handedOver, allocate, set_heap. cbn [core world heap].
    repeat split.
    - exact Hq.
    - rewrite <- app_assoc. rewrite <- E.
      replace (List.length (heap s1)) with (List.length (heap s1) + 0)%nat at 1 by lia.
      rewrite resultOf_fresh; [exact Hr|]. rewrite Hr; discriminate.
    - now rewrite stateOf_update. }
  destruct (telemetryDataHook (world s)).
  - destruct (G (traced (Hook_telemetryData json) (flushed s))) as [K|K];
      [now apply configuredOn_traced|exact K|now destruct K].
  - destruct (G (flushed s)) as [K|K]; [exact Hf|exact K|now destruct K].
Qed.

Lemma finalAudio_sent (fuel : nat) (s : State) (c : ConnRef) :
  configuredOn s c ->
  exec (S (S fuel)) sendFinalAudio s = Done (List.length (heap s)) (finalAudioSent c s).
Proof.
  intro Hc. unfold sendFinalAudio.
  rewrite exec_bind. rewrite exec_unfold at 1. cbn [newDeferred execWith andThen].
  destruct (fetch_configured (S (S fuel)) (allocate Internal Pending s) c
              (configuredOn_settled Pending s c Hc)) as (q & Hr & Hf).
  rewrite exec_bind, Hf. cbn [andThen].
  rewrite exec_unfold; unfold on; cbn [bind execWith]; rewrite Hr.
  unfold finalAudioSent; destruct s as [k w h]; run_sym; reflexivity.
Qed.

(** X8.  [sendFinalAudio] looks at no flag: whenever the stored
    configuration holds a connection that is not [Disconnected], it hands
    one Binary [audio] frame with a null body and the current request id to
    that connection, be the core disposed or the recognition over, and
    returns a pending future that follows the future of the send. *)
Theorem sendFinalAudio_sends_one_empty_frame (fuel : nat) (s : State) (c : ConnRef)
    (x : Connection) :
  configuredOn s c ->
  nth_error (connections (world s)) c = Some x ->
  exec (S (S fuel)) sendFinalAudio s = Done (List.length (heap s)) (finalAudioSent c s)
  /\ framesOn (finalAudioSent c s) c
     = framesOn s c ++ [audioFrame (sessionRequestId (privRequestSession (core s))) None]
  /\ resultOf (finalAudioSent c s) (List.length (heap s)) = Pending.
Proof.
  intros Hc Hx. split; [now apply finalAudio_sent|split].
  - unfold finalAudioSent, subscribe, set_heap, framesOn, sentOn. cbn [world].
    apply (framesOn_handedOver c _ (allocate Internal Pending s) x Hx).
  - unfold finalAudioSent, handedOver. destruct s as [k w h]. heap_simpl.
    reflexivity.
Qed.


End Further.

(** *** After dispose(), after stopRecognizing(), after recognize() *)

Section Silence.

Context {collaborators : Collaborators}.

Lemma receive_stops (fuel : nat) (cb : Callbacks) (m : option SpeechConnectionMessage)
    (s : State) :
  (privIsDisposed (core s) || negb (isRecognizing (privRequestSession (core s))))%bool
  = true ->
  exec fuel (receive_onMessage cb (Resolved (VMessage m))) s
  = Done (VPromise (List.length (heap s))) (settled (Resolved VUndefined) s).
Proof.
  intro H. rewrite exec_unfold. unfold receive_onMessage.
  cbn -[receiveMessage switchOnPath]. rewrite H. reflexivity.
Qed.

Lemma cycle_stops (fuel : nat) (pump : PumpRef) (x : Pump) (s : State) :
  nth_error (pumps (core s)) pump = Some x ->
  (privIsDisposed (core s) || negb (isRecognizing (privRequestSession (core s))))%bool
  = true ->
  exec fuel (readAndUploadCycle pump) s = Done tt s.
Proof.
  intros Hx H. rewrite exec_unfold. unfold readAndUploadCycle, getPump.
  cbn -[fetchConnection]. rewrite Hx. cbn -[fetchConnection].
  destruct (privIsDisposed (core s)), (isSpeechEnded (privRequestSession (core s))),
    (isRecognizing (privRequestSession (core s)));
    cbn in H |- *; try reflexivity; discriminate H.
Qed.

Lemma stop_leaves (fuel : nat) (s : State) :
  exists c0, isRecognizing (privRequestSession c0) = false
             /\ leaves false c0 (exec fuel stopRecognizing s).
Proof.
  destruct (isRecognizing (privRequestSession (core s))) eqn:E.
  - exists (set_requestSession (Session.onStopRecognizing (privRequestSession (core s)))
              (core s)).
    split; [reflexivity|].
    replace (exec fuel stopRecognizing s)
      with (exec fuel
              (modifyCore (fun c => set_requestSession
                             (Session.onStopRecognizing (privRequestSession c)) c) ;;
               (sendTelemetryData ;;
                emit AudioSource_turnOff ;;
                sendFinalAudio ;;
                modifySession Session.dispose)) s).
    + apply (exec_after_write false fuel unit
               (fun c => set_requestSession
                           (Session.onStopRecognizing (privRequestSession c)) c)).
      apply steady_bind.
      eapply steady_mono; [apply sendTelemetryData_kept|]. intros ? c1 _.
      unfold emit, modifyWorld, skip. cbn [bind steady]. intros w.
      apply steady_bind.
      eapply steady_mono; [apply sendFinalAudio_kept|]. intros ? c2 _.
      unfold modifySession, modifyCore, skip. cbn [steady].
      split; [|exact Logic.I].
      unfold kept, pumpsBounded, Session.dispose, Session.with_flags. cbn.
      repeat split; auto. lia.
    + rewrite !exec_unfold. unfold stopRecognizing, getSession, when.
      cbn [bind execWith]. rewrite E. reflexivity.
  - exists (core s). split; [exact E|].
    rewrite exec_unfold. unfold stopRecognizing, getSession, when.
    cbn [bind execWith]. rewrite E. cbn.
    split; [apply kept_refl|exact Logic.I].
Qed.

Lemma stop_idle (fuel : nat) (s : State) :
  isRecognizing (privRequestSession (core s)) = false ->
  exec fuel stopRecognizing s = Done tt s.
Proof.
  intro E. rewrite exec_unfold. unfold stopRecognizing, getSession, when.
  cbn [bind execWith]. now rewrite E.
Qed.

Lemma dispatch_stop (fuel : nat) (s s' : State) (err : option string) :
  dispatch fuel Api_stopRecognizing s = Some (err, s') ->
  isRecognizing (privRequestSession (core s')) = false.
Proof.
  unfold dispatch. cbn [react].
  destruct (stop_leaves fuel s) as (c0 & H0 & P). unfold leaves in P.
  destruct (exec fuel stopRecognizing s) as [u s0|e s0|]; cbn in P; try discriminate;
    destruct (drain fuel fuel s0) eqn:D; cbn; try discriminate;
    intros [= _ <-]; apply (drain_kept false) in D; apply D; auto; apply P; auto.
Qed.

Lemma run_stop (fuel : nat) (es : list Event) (s s' : State) (errs : list string) :
  existsb isRecognizeCall es = false ->
  run fuel (Api_stopRecognizing :: es) s = Some (errs, s') ->
  isRecognizing (privRequestSession (core s')) = false.
Proof.
  intro Hn. cbn [run].
  destruct (dispatch fuel Api_stopRecognizing s) as [[err s1]|] eqn:E; try discriminate.
  destruct (run fuel es s1) as [[errs1 s2]|] eqn:E2; cbn; try discriminate.
  intros [= _ <-].
  apply (run_kept false fuel es s1 s2 errs1); auto.
  eapply dispatch_stop; eauto.
Qed.

(** What [recognize()] does to the fields the pumps look at. *)
Lemma recognize_core (fuel : nat) (recoMode : RecognitionMode) (cb : Callbacks)
    (s s' : State) (p : PromiseId) :
  exec fuel (recognize recoMode cb) s = Done p s' ->
  pumps (core s') = pumps (core s)
  /\ recogNumber (privRequestSession (core s'))
     = recogNumber (privRequestSession (core s)) + 1.
Proof.
  rewrite exec_unfold.
  unfold recognize, session_startNewRecognition, createNoDashGuid, modifySession,
    modifyCore, skip.
  cbn -[connectImpl]. rewrite execWith_bind, <- exec_unfold, connectImpl_unfold.
  cbn [core world heap].
  assert (F : forall c w h,
             pumps c = pumps (core s) ->
             recogNumber (privRequestSession c)
             = recogNumber (privRequestSession (core s)) + 1 ->
             execWith (deeperAt fuel)
               (GetCore (fun c : Core =>
                  NewPromise (Ext_attach (audioNodeId (privRequestSession c))) Pending
                    (fun p0 : PromiseId =>
                       NewPromise Internal Pending
                         (fun p1 : PromiseId =>
                            Subscribe p0
                              (H_continueWithPromise (Recognize_onAttach cb) p1)
                              (Ret p1)))))
               (mkState c w h) = Done p s' ->
             pumps (core s') = pumps (core s)
             /\ recogNumber (privRequestSession (core s'))
                = recogNumber (privRequestSession (core s)) + 1).
  { intros c w h Hp Hn. cbn. heap_simpl. intros [= _ <-]. now cbn. }
  match goal with
  | |- andThen match ?o with _ => _ end _ = _ -> _ => destruct o as [q|] eqn:Eq
  end.
  - match goal with
    | |- andThen (if ?b then _ else _) _ = _ -> _ => destruct b
    end.
    + rewrite connectImpl_attempt_spec. cbn [andThen]. unfold attempted, cleared.
      apply F; destruct s as [[] ? ?]; reflexivity.
    + cbn [andThen]. apply F; destruct s as [[] ? ?]; reflexivity.
  - rewrite connectImpl_attempt_spec. cbn [andThen]. unfold attempted.
    apply F; destruct s as [[] ? ?]; reflexivity.
Qed.

End Silence.

(** X10.  While [recognize()] is not called, a session that is not
    recognizing stays so: no other call of the public interface, no
    callback, no timer sets [isRecognizing], whatever the state the run
    starts from. *)
Theorem stopped_until_recognize {collaborators : Collaborators} (fuel : nat)
    (es : list Event) (s s' : State) (errs : list string) :
  existsb isRecognizeCall es = false ->
  isRecognizing (privRequestSession (core s)) = false ->
  run fuel es s = Some (errs, s') ->
  isRecognizing (privRequestSession (core s')) = false.
Proof.
  intros Hn H0 Hr. apply (run_kept false fuel es s s' errs); auto.
Qed.

(** X11.  After [stopRecognizing()], and until [recognize()] is called
    again, the receive loop drops whatever the service sends, [turn.end]
    included: no event is raised, the hook of the subclass is not called,
    and no further read is issued. *)
Theorem after_stop_messages_are_dropped {collaborators : Collaborators} (fuel : nat)
    (es : list Event) (s s' : State) (errs : list string) (fuel' : nat)
    (cb : Callbacks) (m : option SpeechConnectionMessage) :
  existsb isRecognizeCall es = false ->
  run fuel (Api_stopRecognizing :: es) s = Some (errs, s') ->
  exec fuel' (receive_onMessage cb (Resolved (VMessage m))) s'
  = Done (VPromise (List.length (heap s'))) (settled (Resolved VUndefined) s').
Proof.
  intros Hn Hr. apply receive_stops.
  rewrite (run_stop fuel es s s' errs Hn Hr). apply orb_true_r.
Qed.

(** X12.  After [dispose()], whatever is called and whatever completes next,
    both loops are at rest and telemetry is silent: a message that arrives
    is dropped and no further read is issued; a read-and-upload cycle that
    is entered does nothing; [sendTelemetryData] sends nothing and empties
    the buffer of the session. *)
Theorem after_dispose_the_loops_stop {collaborators : Collaborators} (fuel : nat)
    (es : list Event) (reason : option string) (s s' : State) (errs : list string) :
  run fuel (Api_dispose reason :: es) s = Some (errs, s') ->
  (forall fuel' cb m,
     exec fuel' (receive_onMessage cb (Resolved (VMessage m))) s'
     = Done (VPromise (List.length (heap s'))) (settled (Resolved VUndefined) s'))
  /\ (forall fuel' pump x,
        nth_error (pumps (core s')) pump = Some x ->
        exec fuel' (readAndUploadCycle pump) s' = Done tt s')
  /\ (forall fuel',
        exec fuel' sendTelemetryData s'
        = Done (List.length (heap s')) (settled (Resolved (VBool true)) (flushed s'))).
Proof.
  intro Hr.
  assert (Hd : privIsDisposed (core s') = true).
  { revert Hr. cbn [run].
    destruct (dispatch fuel (Api_dispose reason) s) as [[err s1]|] eqn:E;
      try discriminate.
    destruct (run fuel es s1) as [[errs1 s2]|] eqn:E2; cbn; try discriminate.
    intros [= _ <-]. apply (run_kept true fuel es s1 s2 errs1); [discriminate|exact E2|].
    eapply dispatch_dispose; eauto. }
  split; [|split].
  - intros. apply receive_stops. now rewrite Hd.
  - intros fuel' pump x Hx. apply (cycle_stops fuel' pump x s' Hx). now rewrite Hd.
  - intros. apply telemetry_dropped. unfold nothingToReport. rewrite Hd.
    now rewrite orb_true_r.
Qed.

(** X13.  [recognize()] supersedes the pumps: on any run from the state the
    constructor leaves, when a call of [recognize()] returns, every pump
    that exists meets a termination condition, because the number of the
    recognition it was started in is no longer the current one. *)
Theorem recognize_supersedes_the_pumps {collaborators : Collaborators} (fuel : nat)
    (es : list Event) (recognizerConfig : RecognizerConfig) (audioSourceId : string)
    (w : World) (s s' : State) (errs : list string) (fuel' : nat)
    (recoMode : RecognitionMode) (cb : Callbacks) (p : PromiseId)
    (pump : PumpRef) (x : Pump) :
  run fuel es (initial recognizerConfig audioSourceId w) = Some (errs, s) ->
  exec fuel' (recognize recoMode cb) s = Done p s' ->
  nth_error (pumps (core s')) pump = Some x ->
  terminated (core s') x = true.
Proof.
  intros Hr He Hx.
  assert (B : pumpsBounded (core s)).
  { apply (run_kept true fuel es (initial recognizerConfig audioSourceId w) s errs);
      [discriminate|exact Hr|].
    unfold pumpsBounded. cbn. constructor. }
  destruct (recognize_core fuel' recoMode cb s s' p He) as [Hp Hn].
  rewrite Hp in Hx. unfold pumpsBounded in B.
  rewrite Forall_forall in B. specialize (B x (nth_error_In _ _ Hx)).
  unfold terminated. rewrite Hn.
  replace (recogNumber (privRequestSession (core s)) + 1 =? startRecogNumber x)
    with false by (symmetry; apply Z.eqb_neq; lia).
  cbn. now rewrite !orb_true_r.
Qed.

(** X14.  [stopRecognizing()] is idempotent: in the state a call leaves
    (returned or thrown out of), the session is not recognizing, and a
    second call does nothing at all: no telemetry, no [turnOff], no second
    empty audio frame. *)
Theorem stopRecognizing_twice {collaborators : Collaborators} (fuel fuel' : nat)
    (s s' : State) :
  (exec fuel stopRecognizing s = Done tt s'
   \/ exists e, exec fuel stopRecognizing s = Thrown e s') ->
  isRecognizing (privRequestSession (core s')) = false
  /\ exec fuel' stopRecognizing s' = Done tt s'.
Proof.
  intro H. destruct (stop_leaves fuel s) as (c0 & H0 & P). unfold leaves in P.
  assert (E : isRecognizing (privRequestSession (core s')) = false).
  { destruct H as [H|[e H]]; rewrite H in P; cbn in P; apply P; auto. }
  split; [exact E|now apply stop_idle].
Qed.

Section Edges.

Context {collaborators : Collaborators}.

(** *** The receive loop *)

(** X15.  A message that carries the request id of another request (ids are
    compared without regard to case) is treated exactly like an empty
    message: nothing is dispatched, not even to the hook of the subclass,
    and the loop reads again. *)
Theorem foreign_message_is_skipped (fuel : nat) (cb : Callbacks)
    (m : SpeechConnectionMessage) (s : State) :
  privIsDisposed (core s) = false ->
  isRecognizing (privRequestSession (core s)) = true ->
  String.eqb (Js.toLowerCase (requestId m))
    (Js.toLowerCase (sessionRequestId (privRequestSession (core s)))) = false ->
  exec fuel (receive_onMessage cb (Resolved (VMessage (Some m)))) s
  = exec fuel (receive_onMessage cb (Resolved (VMessage None))) s
  /\ exec fuel (receive_onMessage cb (Resolved (VMessage None))) s
     = exec fuel (p <- receiveMessage cb ;; Ret (VPromise p)) s.
Proof.
  intros Hd Hi Hm. rewrite !exec_unfold. unfold receive_onMessage, getCore.
  cbn [bind execWith]. rewrite Hd, Hi, Hm. cbn [orb negb bind]. split; reflexivity.
Qed.

(** *** The pump, once speech has ended *)

(** X16.  Once the session has seen the end of speech, a chunk that comes
    back from a read is thrown away, whatever it holds: nothing is sent, no
    byte is counted, the device type is not asked for, and the future of the
    pump is resolved with [true]. A failed read is taken for success in the
    same way; it fails the future of the pump only while speech has not
    ended. *)
Theorem pump_after_the_end (fuel : nat) (s : State) (pump : PumpRef)
    (connection : ConnRef) (chunk : StreamChunk) (x : Pump) (e : string) :
  nth_error (pumps (core s)) pump = Some x ->
  (isSpeechEnded (privRequestSession (core s)) = true ->
   exec fuel (pump_onChunk pump connection (Resolved (VChunk chunk))) s
   = andThen (exec fuel (resolve (deferred x) (VBool true)) s)
       (fun _ s' => Done VUndefined s')
   /\ exec fuel (pump_onReadError pump (Rejected e)) s
      = andThen (exec fuel (resolve (deferred x) (VBool true)) s)
          (fun _ s' => Done VUndefined s'))
  /\ (isSpeechEnded (privRequestSession (core s)) = false ->
      exec fuel (pump_onReadError pump (Rejected e)) s
      = andThen (exec fuel (reject (deferred x) e) s)
          (fun _ s' => Done VUndefined s')).
Proof.
  intro Hx. split; [intro He; split|intro He].
  all: rewrite !exec_unfold; unfold pump_onChunk, pump_onReadError, getPump, getCore,
         getSession.
  all: cbn [bind execWith]; rewrite Hx; cbn [bind execWith]; rewrite He.
  all: rewrite execWith_bind; reflexivity.
Qed.

(** *** Failures of connectImpl *)



(** *** speech.startdetected *)

(** X18.  [speech.startdetected] raises [speechStartDetected] with the
    offset of the message as it is: unlike for [speech.enddetected], neither
    is [currentTurnAudioOffset] added nor is an empty body replaced by a
    default, so a body that does not parse makes the callback throw, and
    nothing is raised. *)
Theorem speechStartDetected_offset_is_relative (fuel : nat) (cb : Callbacks)
    (m : SpeechConnectionMessage) (s : State) :
  Js.toLowerCase (path m) = "speech.startdetected" ->
  (forall offset, SpeechDetected_fromJSON (textBody m) = Some offset ->
     exec fuel (switchOnPath cb m) s
     = Done None
         (traced (Recognizer_speechStartDetected offset
                    (sessionId (privRequestSession (core s)))) s))
  /\ (SpeechDetected_fromJSON (textBody m) = None ->
      exec fuel (switchOnPath cb m) s = Thrown "SyntaxError" s).
Proof.
  intro Hp. unfold switchOnPath, fromJSON. rewrite Hp. cbn [String.eqb Ascii.eqb].
  split; [intros offset Hj|intro Hj]; rewrite exec_unfold; rewrite Hj; reflexivity.
Qed.

(** *** cancelRecognitionLocal *)

Lemma cancel_leaves (fuel : nat) (reason : CancellationReason)
    (code : CancellationErrorCode) (error : option string) (cb : option Callback)
    (s : State) :
  exists c0, isRecognizing (privRequestSession c0) = false
             /\ leaves false c0 (exec fuel (cancelRecognitionLocal reason code error cb) s).
Proof.
  destruct (isRecognizing (privRequestSession (core s))) eqn:E.
  - exists (set_requestSession (Session.onStopRecognizing (privRequestSession (core s)))
              (core s)).
    split; [reflexivity|].
    replace (exec fuel (cancelRecognitionLocal reason code error cb) s)
      with (exec fuel
              (modifyCore (fun c => set_requestSession
                             (Session.onStopRecognizing (privRequestSession c)) c) ;;
               (sendTelemetryData ;;
                s <- getSession ;;
                emit (Hook_cancelRecognition (sessionId s) (sessionRequestId s)
                        reason code error cb))) s).
    + apply (exec_after_write false fuel unit
               (fun c => set_requestSession
                           (Session.onStopRecognizing (privRequestSession c)) c)).
      apply steady_bind.
      eapply steady_mono; [apply sendTelemetryData_kept|]. intros ? c1 _.
      unfold getSession, emit, modifyWorld, skip. cbn [bind steady]. intros w.
      exact Logic.I.
    + rewrite !exec_unfold. unfold cancelRecognitionLocal, getSession, when.
      cbn [bind execWith]. rewrite E. reflexivity.
  - exists (core s). split; [exact E|].
    rewrite exec_unfold. unfold cancelRecognitionLocal, getSession, when.
    cbn [bind execWith]. rewrite E. cbn.
    split; [apply kept_refl|exact Logic.I].
Qed.

(** X19.  The hook [cancelRecognition] is reached at most once per
    recognition: in the state a local cancellation leaves (returned or
    thrown out of), the session is not recognizing, and any further local
    cancellation, whatever its reason, does nothing. *)
Theorem cancelRecognitionLocal_once (fuel fuel' : nat) (reason reason' : CancellationReason)
    (code code' : CancellationErrorCode) (error error' : option string)
    (cb cb' : option Callback) (s s' : State) :
  (exec fuel (cancelRecognitionLocal reason code error cb) s = Done tt s'
   \/ exists e, exec fuel (cancelRecognitionLocal reason code error cb) s = Thrown e s') ->
  isRecognizing (privRequestSession (core s')) = false
  /\ exec fuel' (cancelRecognitionLocal reason' code' error' cb') s' = Done tt s'.
Proof.
  intro H. destruct (cancel_leaves fuel reason code error cb s) as (c0 & H0 & P).
  unfold leaves in P.
  assert (E : isRecognizing (privRequestSession (core s')) = false).
  { destruct H as [H|[e H]]; rewrite H in P; cbn in P; apply P; auto. }
  split; [exact E|].
  rewrite exec_unfold. unfold cancelRecognitionLocal, getSession, when.
  cbn [bind execWith]. now rewrite E.
Qed.

Lemma cancel_exact (fuel : nat) (reason : CancellationReason)
    (code : CancellationErrorCode) (error : option string) (cb : option Callback)
    (c : ConnRef) (s : State) :
  configuredOn s c ->
  exec (S (S fuel)) (cancelRecognitionLocal reason code error cb) s
  = Done tt (canceled reason code error cb c s).
Proof.
  intro Hc. rewrite exec_unfold. unfold cancelRecognitionLocal, canceled, getSession, when.
  cbn [bind execWith].
  destruct (isRecognizing (privRequestSession (core s))); [|reflexivity].
  unfold modifySession, modifyCore, skip. cbn [bind execWith].
  rewrite execWith_bind, <- exec_unfold.
  change (mkState _ (world s) (heap s)) with (inSession Session.onStopRecognizing s).
  rewrite (telemetry_reported fuel _ c (configuredOn_inSession _ s c Hc)).
  reflexivity.
Qed.

Lemma configuredOn_canceled (reason : CancellationReason) (code : CancellationErrorCode)
    (error : option string) (cb : option Callback) (c : ConnRef) (s : State) :
  configuredOn s c -> configuredOn (canceled reason code error cb c s) c.
Proof.
  intro H. unfold canceled.
  destruct (isRecognizing (privRequestSession (core s))); [|exact H].
  apply configuredOn_traced, configuredOn_reported, configuredOn_inSession, H.
Qed.


(** *** The last turn.end *)

Lemma flushed_flags (s : State) :
  isSpeechEnded (privRequestSession (core (flushed s)))
  = isSpeechEnded (privRequestSession (core s))
  /\ isRecognizing (privRequestSession (core (flushed s)))
     = isRecognizing (privRequestSession (core s))
  /\ privRecognizerConfig (core (flushed s)) = privRecognizerConfig (core s)
  /\ privMustReportEndOfStream (core (flushed s)) = privMustReportEndOfStream (core s)
  /\ sessionId (privRequestSession (core (flushed s)))
     = sessionId (privRequestSession (core s)).
Proof.
  unfold flushed, Session.getTelemetry. cbn.
  destruct (telemetry (privRequestSession (core s))); cbn; repeat split;
    destruct s as [[] ? ?]; reflexivity.
Qed.

Lemma lastTurn_reported (c : ConnRef) (s : State) : lastTurn (reported c s) = lastTurn s.
Proof.
  unfold lastTurn. rewrite core_reported.
  destruct (flushed_flags s) as (H1 & _ & H3 & _). now rewrite H1, H3.
Qed.

Lemma lastTurn_canceled (reason : CancellationReason) (code : CancellationErrorCode)
    (error : option string) (cb : option Callback) (c : ConnRef) (s : State) :
  lastTurn (canceled reason code error cb c s) = lastTurn s.
Proof.
  unfold canceled. destruct (isRecognizing (privRequestSession (core s))); [|reflexivity].
  change (lastTurn (reported c (inSession Session.onStopRecognizing s)) = lastTurn s).
  rewrite lastTurn_reported. destruct s as [[] ? ?]. reflexivity.
Qed.

Lemma configuredOn_reportedEnd (c : ConnRef) (s : State) :
  configuredOn s c -> configuredOn (reportedEnd s) c.
Proof.
  intros (q & Hq & Hr & Hc). exists q. destruct s as [[] ? ?]. repeat split; auto.
Qed.

(** The part of the [turn.end] case that follows the report of the end of
    stream. *)
Lemma turn_end_rest (deeper : forall A : Type, Prog A -> State -> Outcome A)
    (cb : Callbacks) (m : SpeechConnectionMessage) (s : State) :
  lastTurn s = true ->
  execWith deeper
    (s0 <- getSession ;;
     cfg <- getConfig ;;
     session_onServiceTurnEndResponse (isContinuousRecognition cfg) ;;
     s1 <- getSession ;;
     (if (negb (isContinuousRecognition cfg) || isSpeechEnded s1)%bool
      then
        emit (Recognizer_sessionStopped (sessionId s0)) ;;
        p <- fromResult (VBool true) ;; Ret (Some p)
      else
        p <- fetchConnection ;;
        onSuccessContinueWith p TurnEnd_onConnection ;;
        processTypeSpecificMessages m cb ;; Ret None)) s
  = Done (Some (List.length (heap s)))
      (settled (Resolved (VBool true))
         (traced (Recognizer_sessionStopped (sessionId (privRequestSession (core s))))
            (inSession
               (Session.onServiceTurnEndResponse
                  (isContinuousRecognition (privRecognizerConfig (core s)))
                  (sessionRequestId (privRequestSession (core s))))
               s))).
Proof.
  unfold lastTurn. intro Hl.
  unfold getSession, getConfig, session_onServiceTurnEndResponse, createNoDashGuid,
    modifySession, modifyCore, skip.
  destruct s as [k w h]. cbn [core] in Hl.
  cbn [bind execWith core world heap].
  unfold settled, traced, inSession, Session.onServiceTurnEndResponse, Session.with_flags.
  cbn [core world heap].
  destruct (isContinuousRecognition (privRecognizerConfig k)) eqn:Ec;
    destruct (isSpeechEnded (privRequestSession k)) eqn:Ee;
    try discriminate Hl; cbn [andb negb orb bind execWith core world heap].
  all: destruct k; cbn in Ec, Ee |- *; rewrite ?Ec, ?Ee; cbn; rewrite ?Ee; reflexivity.
Qed.

(** X20.  The last [turn.end] (single-shot recognition, or audio ended) ends
    the receive loop: telemetry is reported; if the audio has ended after a
    [turn.start], the end of stream is reported once through the local
    cancellation; the session is told that the turn has ended;
    [sessionStopped] is raised with the id of the session; the message is
    not handed to the hook of the subclass; and the callback returns a
    resolved future in place of a further read. *)
Theorem last_turn_end (fuel : nat) (cb : Callbacks) (m : SpeechConnectionMessage)
    (c : ConnRef) (s : State) :
  Js.toLowerCase (path m) = "turn.end" ->
  lastTurn s = true ->
  configuredOn s c ->
  exec (S (S fuel)) (switchOnPath cb m) s
  = Done (Some (List.length (heap (turnEnded cb c s))))
      (settled (Resolved (VBool true)) (turnEnded cb c s))
  /\ isRecognizing (privRequestSession (core (turnEnded cb c s))) = false.
Proof.
  intros Hp Hl Hc. split.
  2:{ unfold turnEnded.
      set (s2 := if (_ && _)%bool then _ else _).
      assert (L : lastTurn s2 = true).
      { unfold s2. destruct (_ && _)%bool.
        - rewrite lastTurn_canceled.
          replace (lastTurn (reportedEnd (reported c s))) with (lastTurn (reported c s))
            by (destruct (reported c s) as [[] ? ?]; reflexivity).
          now rewrite lastTurn_reported.
        - now rewrite lastTurn_reported. }
      unfold lastTurn in L. unfold traced, inSession, Session.onServiceTurnEndResponse.
      cbn [core privRequestSession set_requestSession].
      destruct (isContinuousRecognition (privRecognizerConfig (core s2)));
        destruct (isSpeechEnded (privRequestSession (core s2)));
        try discriminate L; destruct (core s2); reflexivity. }
  rewrite exec_unfold. unfold switchOnPath. rewrite Hp.
  change (String.eqb "turn.end" "turn.start") with false.
  change (String.eqb "turn.end" "speech.startdetected") with false.
  change (String.eqb "turn.end" "speech.enddetected") with false.
  change (String.eqb "turn.end" "turn.end") with true.
  cbv iota.
  rewrite execWith_bind, <- exec_unfold, (telemetry_reported fuel s c Hc).
  cbn [andThen]. unfold getCore. cbn [bind execWith].
  rewrite execWith_bind. unfold turnEnded.
  destruct (isSpeechEnded (privRequestSession (core (reported c s)))
            && privMustReportEndOfStream (core (reported c s)))%bool.
  - unfold when, modifyCore, skip. cbn [bind execWith].
    change (mkState _ (world (reported c s)) (heap (reported c s)))
      with (reportedEnd (reported c s)).
    rewrite <- exec_unfold.
    rewrite (cancel_exact fuel _ _ _ _ c).
    + cbn [andThen]. rewrite turn_end_rest; [reflexivity|].
      rewrite lastTurn_canceled.
      replace (lastTurn (reportedEnd (reported c s))) with (lastTurn (reported c s))
        by (destruct (reported c s) as [[] ? ?]; reflexivity).
      now rewrite lastTurn_reported.
    + apply configuredOn_reportedEnd, configuredOn_reported, Hc.
  - unfold when, skip. cbn [execWith andThen]. rewrite turn_end_rest; [reflexivity|].
    now rewrite lastTurn_reported.
Qed.

End Edges.

(** *** The further properties, on the demo *)

(** [dispose()] while streaming: the configured connection is disposed of. *)
Lemma dispose_goes_by_the_configuration_here :
  exec 2 (dispose None) (streaming SingleShot)
  = Done tt (settled (Resolved VUndefined)
               (disposedOf 0 None (flagged (streaming SingleShot)))).
Proof.
  apply (proj1 (proj2 (dispose_goes_by_the_configuration 0 None (streaming SingleShot)
                         9 0 EmptyString)));
    vm_compute; reflexivity.
Defined.

(** [disconnect()] after [stopRecognizing()]: the connection is disposed of
    and [fetchConnection()] still returns the configuration that holds it. *)
Lemma disconnect_keeps_the_configuration_here :
  exec 40 disconnect stoppedOnce = Done tt (dropped 0 stoppedOnce)
  /\ exec 40 fetchConnection (dropped 0 stoppedOnce) = Done 9%nat (dropped 0 stoppedOnce)
  /\ exec 40 (connectImpl false) (dropped 0 stoppedOnce)
     = Done (S (List.length (heap stoppedOnce))) (attempted false (dropped 0 stoppedOnce)).
Proof.
  apply (disconnect_keeps_the_configuration 40 stoppedOnce 1 9 0);
    vm_compute; try reflexivity; discriminate.
Defined.

(** A disposed core drops the five timings its session had collected. *)
Lemma telemetry_is_dropped_here :
  exec 0 sendTelemetryData (flagged (streaming SingleShot))
  = Done 21%nat (settled (Resolved (VBool true)) (flushed (flagged (streaming SingleShot))))
  /\ telemetry (privRequestSession (core (flushed (flagged (streaming SingleShot))))) = []
  /\ world (flushed (flagged (streaming SingleShot))) = world (flagged (streaming SingleShot)).
Proof.
  apply (telemetry_is_dropped 0 (flagged (streaming SingleShot))).
  vm_compute; reflexivity.
Defined.

Lemma streaming_configured (m : RecognitionMode) : configuredOn (streaming m) 0.
Proof.
  exists 9%nat. destruct m; repeat split; try (vm_compute; reflexivity);
    vm_compute; discriminate.
Defined.

(** While streaming, the five timings collected so far go out as one
    frame. *)
Lemma telemetry_is_sent_here :
  exec 2 sendTelemetryData (streaming SingleShot)
  = Done 21%nat (reported 0 (streaming SingleShot))
  /\ telemetry (privRequestSession (core (reported 0 (streaming SingleShot)))) = []
  /\ framesOn (reported 0 (streaming SingleShot)) 0
     = framesOn (streaming SingleShot) 0
       ++ [telemetryFrame
             ("onPreConnectionStart,onAuthCompleted,onPreConnectionStart,"
              ++ "onConnectionEstablishCompleted,onAudioSourceAttachCompleted")
             (streaming SingleShot)].
Proof.
  destruct (telemetry_is_sent 0 (streaming SingleShot) 0 demoConnection
              (streaming_configured SingleShot)) as (H1 & H2 & H3);
    [vm_compute; reflexivity|].
  split; [exact H1|split; [exact H2|]].
  rewrite H3. vm_compute; reflexivity.
Defined.

Lemma empty_context_is_skipped_here :
  exec 2 (configure_onConfigSent 0 accepted) configSentWithoutContext
  = Done (VPromise (S (List.length (heap configSentWithoutContext))))
      (settled (Resolved (VConnection 0))
         (settled (Resolved (VBool true)) configSentWithoutContext)).
Proof.
  apply (empty_context_is_skipped 0 configSentWithoutContext 0 accepted).
  vm_compute; reflexivity.
Defined.

Lemma flagged_configured : configuredOn (flagged (streaming SingleShot)) 0.
Proof.
  exists 9%nat. repeat split; try (vm_compute; reflexivity); vm_compute; discriminate.
Defined.

(** The empty audio frame goes out of a disposed core. *)
Lemma sendFinalAudio_sends_one_empty_frame_here :
  exec 2 sendFinalAudio (flagged (streaming SingleShot))
  = Done 21%nat (finalAudioSent 0 (flagged (streaming SingleShot)))
  /\ framesOn (finalAudioSent 0 (flagged (streaming SingleShot))) 0
     = framesOn (flagged (streaming SingleShot)) 0 ++ [audioFrame request1 None]
  /\ resultOf (finalAudioSent 0 (flagged (streaming SingleShot))) 21 = Pending.
Proof.
  apply (sendFinalAudio_sends_one_empty_frame 0 (flagged (streaming SingleShot)) 0
           demoConnection flagged_configured).
  vm_compute; reflexivity.
Defined.


Lemma stopRecognizing_twice_here :
  isRecognizing (privRequestSession (core (stoppedOn 0 (streaming SingleShot)))) = false
  /\ exec 40 stopRecognizing (stoppedOn 0 (streaming SingleShot))
     = Done tt (stoppedOn 0 (streaming SingleShot)).
Proof.
  apply (stopRecognizing_twice 40 40 (streaming SingleShot)).
  left. vm_compute; reflexivity.
Defined.

(** A [turn.end] of another request does not end the turn. *)
Lemma foreign_message_is_skipped_here :
  exec 40 (receive_onMessage demoCallbacks (Resolved (VMessage (Some foreignTurnEnd))))
    (streaming SingleShot)
  = exec 40 (receive_onMessage demoCallbacks (Resolved (VMessage None)))
      (streaming SingleShot)
  /\ exec 40 (receive_onMessage demoCallbacks (Resolved (VMessage None)))
       (streaming SingleShot)
     = exec 40 (p <- receiveMessage demoCallbacks ;; Ret (VPromise p))
         (streaming SingleShot).
Proof.
  apply (foreign_message_is_skipped 40 demoCallbacks foreignTurnEnd (streaming SingleShot));
    vm_compute; reflexivity.
Defined.

(** A read that fails after the end of the audio. *)
Lemma pump_after_the_end_here :
  exec 5 (pump_onReadError 0 (Rejected "closed")) ended
  = andThen (exec 5 (resolve 17 (VBool true)) ended) (fun _ s' => Done VUndefined s').
Proof.
  refine (proj2 (proj1 (pump_after_the_end 5 ended 0 0 (mkChunk 3200 false) demoPump
                          "closed" _) _));
    vm_compute; reflexivity.
Defined.


Lemma stopped_until_recognize_here :
  isRecognizing (privRequestSession (core (after afterTheStop stoppedOnce))) = false.
Proof.
  apply (stopped_until_recognize 40 afterTheStop stoppedOnce _ []);
    vm_compute; reflexivity.
Defined.

(** The [turn.end] that answers a stop is dropped: [sessionStopped] is not
    raised. *)
Lemma after_stop_messages_are_dropped_here :
  exec 40 (receive_onMessage demoCallbacks (Resolved (VMessage (Some turnEndMessage))))
    (after [Api_stopRecognizing; Api_connect] (streaming SingleShot))
  = Done (VPromise
            (List.length
               (heap (after [Api_stopRecognizing; Api_connect] (streaming SingleShot)))))
      (settled (Resolved VUndefined)
         (after [Api_stopRecognizing; Api_connect] (streaming SingleShot))).
Proof.
  apply (after_stop_messages_are_dropped 40 [Api_connect] (streaming SingleShot) _ []);
    vm_compute; reflexivity.
Defined.

Lemma after_dispose_the_loops_stop_here :
  let s' := after (Api_dispose None :: recognizeAgain) (streaming SingleShot) in
  (forall fuel' cb m,
     exec fuel' (receive_onMessage cb (Resolved (VMessage m))) s'
     = Done (VPromise (List.length (heap s'))) (settled (Resolved VUndefined) s'))
  /\ (forall fuel' pump x,
        nth_error (pumps (core s')) pump = Some x ->
        exec fuel' (readAndUploadCycle pump) s' = Done tt s')
  /\ (forall fuel',
        exec fuel' sendTelemetryData s'
        = Done (List.length (heap s')) (settled (Resolved (VBool true)) (flushed s'))).
Proof.
  apply (after_dispose_the_loops_stop 40 recognizeAgain None (streaming SingleShot) _ []).
  vm_compute; reflexivity.
Defined.

(** The pump of the first recognition, once [recognize()] has been called
    again. *)
Lemma recognize_supersedes_the_pumps_here : terminated (core superseded) demoPump = true.
Proof.
  apply (recognize_supersedes_the_pumps 40 (handshake SingleShot) (demoConfig SingleShot)
           "source" (newWorld 32000 "{ grammar }") (streaming SingleShot) superseded []
           40 SingleShot demoCallbacks 22 0 demoPump);
    vm_compute; reflexivity.
Defined.

(** An empty [speech.startdetected] is a syntax error for the reader of
    the demo. *)
Lemma speechStartDetected_offset_is_relative_here :
  exec 0 (switchOnPath demoCallbacks emptyStartDetected) (streaming Continuous)
  = Thrown "SyntaxError" (streaming Continuous).
Proof.
  refine (proj2 (speechStartDetected_offset_is_relative 0 demoCallbacks emptyStartDetected
                   (streaming Continuous) _) _);
    reflexivity.
Defined.

(** An error of the pump cancels; the error of the join that follows it
    does not cancel again. *)
Lemma cancelRecognitionLocal_once_here :
  let s' := canceled ReasonError RuntimeError (Some "pump") (Some 1%nat) 0
              (streaming SingleShot) in
  isRecognizing (privRequestSession (core s')) = false
  /\ exec 40 (cancelRecognitionLocal ReasonError RuntimeError (Some "join") (Some 1%nat)) s'
     = Done tt s'.
Proof.
  apply (cancelRecognitionLocal_once 40 40 ReasonError ReasonError RuntimeError
           RuntimeError (Some "pump") (Some "join") (Some 1%nat) (Some 1%nat)
           (streaming SingleShot)).
  left. vm_compute; reflexivity.
Defined.

(** The [turn.end] of a single-shot recognition. *)
Lemma last_turn_end_here :
  exec 2 (switchOnPath demoCallbacks turnEndMessage) (streaming SingleShot)
  = Done (Some (List.length (heap (turnEnded demoCallbacks 0 (streaming SingleShot)))))
      (settled (Resolved (VBool true))
         (turnEnded demoCallbacks 0 (streaming SingleShot)))
  /\ isRecognizing
       (privRequestSession (core (turnEnded demoCallbacks 0 (streaming SingleShot))))
     = false.
Proof.
  apply (last_turn_end 0 demoCallbacks turnEndMessage 0 (streaming SingleShot));
    [reflexivity|reflexivity|apply streaming_configured].
Defined.
